(** * Kun text editor: text statistics, in-document search and spell-check spans

    A shallow embedding of
      - [src/core/text_analyzer.py]  (class [TextAnalyzer]),
      - [src/core/spell_checker.py]  (class [BasicSpellChecker]),
      - [src/ui/main_window.py]      (the find / replace methods of [MainWindow]),
    followed by the properties established about them.

    Alphabet.  A Python [str] and a Qt [QString] are sequences of Unicode
    characters.  The development works over the characters U+0000..U+00FF,
    represented by [ascii] (the character with code [n] is [ascii_of_nat n]);
    a text is a [list ascii].  In that range a Python index, a Qt document
    position and a list index coincide.  Character classes ([str.isspace],
    [str.isalpha], the regex class \w, [QChar::isLetterOrNumber]) and case
    mappings are the Unicode ones restricted to that range.  Beyond it a
    Python length counts characters where the toolkit counts UTF-16 units,
    and lower-casing can turn a letter into a letter and a combining mark;
    nothing is stated here about texts outside the alphabet. *)

From Stdlib Require Import Ascii String List ZArith Lia Bool Arith Sorted.
Import ListNotations.

Local Open Scope bool_scope.

(** A text; literals are written [str "..."]. *)
Definition text := list ascii.
Definition str (s : string) : text := list_ascii_of_string s.
Arguments str _%_string.

(* ------------------------------------------------------------------ *)
(** ** Character classes *)

Module Chars.

Definition code (c : ascii) : nat := nat_of_ascii c.

Definition between (lo hi : nat) (c : ascii) : bool :=
  (lo <=? code c) && (code c <=? hi).

Definition newline : ascii := ascii_of_nat 10.
Definition space : ascii := ascii_of_nat 32.
Definition underscore : ascii := ascii_of_nat 95.
(** U+00A0, the no-break space. *)
Definition nbsp : ascii := ascii_of_nat 160.

Definition is_newline (c : ascii) : bool := Ascii.eqb c newline.

(** U+000D, the carriage return; a line break of a text that is searched
    for or inserted is U+000A or U+000D. *)
Definition carriage_return : ascii := ascii_of_nat 13.
Definition is_carriage_return (c : ascii) : bool := Ascii.eqb c carriage_return.
Definition is_line_break (c : ascii) : bool :=
  is_newline c || is_carriage_return c.

(** The regex class [[a-zA-Z]]. *)
Definition is_ascii_letter (c : ascii) : bool :=
  between 65 90 c || between 97 122 c.

(** Unicode letters below U+0100: the ASCII letters, U+00AA, U+00B5,
    U+00BA, U+00C0..U+00D6, U+00D8..U+00F6, U+00F8..U+00FF. *)
Definition is_letter (c : ascii) : bool :=
  is_ascii_letter c
  || (code c =? 170) || (code c =? 181) || (code c =? 186)
  || between 192 214 c || between 216 246 c || between 248 255 c.

(** Unicode numbers below U+0100: the digits, the superscripts U+00B2,
    U+00B3, U+00B9 and the fractions U+00BC..U+00BE. *)
Definition is_number (c : ascii) : bool :=
  between 48 57 c
  || (code c =? 178) || (code c =? 179) || (code c =? 185)
  || between 188 190 c.

(** Python [str.isalpha] on one character. *)
Definition py_isalpha (c : ascii) : bool := is_letter c.

(** Python [str.isalnum] on one character. *)
Definition py_isalnum (c : ascii) : bool := is_letter c || is_number c.

(** The regex class \w of a [str] pattern: alphanumeric or underscore. *)
Definition re_word (c : ascii) : bool :=
  py_isalnum c || Ascii.eqb c underscore.

(** Python [str.isspace] on one character: U+0009..U+000D,
    U+001C..U+0020, U+0085, U+00A0. *)
Definition py_isspace (c : ascii) : bool :=
  between 9 13 c || between 28 32 c || (code c =? 133) || (code c =? 160).

(** Python [str.lower] on one character: A..Z and U+00C0..U+00DE
    (but U+00D7) move up by 32. *)
Definition py_lower (c : ascii) : ascii :=
  if between 65 90 c || (between 192 222 c && negb (code c =? 215))
  then ascii_of_nat (code c + 32) else c.

(** [QChar::isLetterOrNumber]. *)
Definition isLetterOrNumber (c : ascii) : bool := is_letter c || is_number c.

(** [QChar::toCaseFolded], used by Qt's case-insensitive comparison.
    Below U+0100 it is the lower-case mapping, except that U+00B5 folds to
    U+03BC: no other character of the range folds there, so keeping U+00B5
    fixed gives the same comparisons. *)
Definition toCaseFolded (c : ascii) : ascii := py_lower c.

End Chars.

(* ------------------------------------------------------------------ *)
(** ** The Python string operations used by the sources *)

Module PyStr.

(** [s[:n]] for [n >= 0] and [s[a:b]] for [0 <= a]. *)
Definition slice_to (s : text) (n : nat) : text := firstn n s.
Definition slice (s : text) (a b : nat) : text := firstn (b - a) (skipn a s).

(** [s.count(c)] for a one-character [c]. *)
Fixpoint count (c : ascii) (s : text) : Z :=
  match s with
  | [] => 0
  | x :: s' => ((if Ascii.eqb x c then 1 else 0) + count c s')%Z
  end.

(** [s.rfind(c)] for a one-character [c]: the highest index holding [c],
    or -1.  [rfind_from] walks [s], whose head has index [i], and keeps the
    last hit in [acc]. *)
Fixpoint rfind_from (c : ascii) (s : text) (i acc : Z) : Z :=
  match s with
  | [] => acc
  | x :: s' => rfind_from c s' (i + 1)%Z (if Ascii.eqb x c then i else acc)
  end.
Definition rfind (c : ascii) (s : text) : Z := rfind_from c s 0%Z (-1)%Z.

(** [s.lstrip()], [s.rstrip()], [s.strip()]. *)
Fixpoint lstrip (s : text) : text :=
  match s with
  | [] => []
  | c :: s' => if Chars.py_isspace c then lstrip s' else s
  end.
Definition rstrip (s : text) : text := rev (lstrip (rev s)).
Definition strip (s : text) : text := rstrip (lstrip s).

(** Truth value of a [str]: non-empty. *)
Definition truthy (s : text) : bool :=
  match s with [] => false | _ :: _ => true end.

(** [s.isalpha()]: non-empty and every character alphabetic. *)
Definition isalpha (s : text) : bool :=
  truthy s && forallb Chars.py_isalpha s.

(** [s.lower()]. *)
Definition lower (s : text) : text := map Chars.py_lower s.

(** [a == b]. *)
Definition eqb (a b : text) : bool :=
  if list_eq_dec ascii_dec a b then true else false.

(** [s.split()]: the maximal runs of characters that are not whitespace.
    [split_from cur s] reads [s] with [cur], last character first, the word
    begun so far. *)
Fixpoint split_from (cur s : text) : list text :=
  match s with
  | [] => match cur with [] => [] | _ :: _ => [rev cur] end
  | c :: s' =>
      if Chars.py_isspace c then
        match cur with
        | [] => split_from [] s'
        | _ :: _ => rev cur :: split_from [] s'
        end
      else split_from (c :: cur) s'
  end.
Definition split (s : text) : list text := split_from [] s.

(** [re.sub(r'\s', '', s)]: the class \s of a [str] pattern is that of
    [str.isspace]. *)
Definition remove_whitespace (s : text) : text :=
  filter (fun c => negb (Chars.py_isspace c)) s.

(** [s.split(sep)] for a one-character [sep]: never an empty list. *)
Fixpoint split_on (sep : ascii) (s : text) : list text :=
  match s with
  | [] => [[]]
  | c :: s' =>
      if Ascii.eqb c sep then [] :: split_on sep s'
      else match split_on sep s' with
           | w :: ws => (c :: w) :: ws
           | [] => [[c]]
           end
  end.

(** [s[-n:]] for [n > 0]. *)
Definition slice_last (s : text) (n : nat) : text := skipn (length s - n) s.

(** [x in l] and [l.remove(x)] (the first occurrence goes) for a list of
    strings. *)
Definition list_in (x : text) (l : list text) : bool := existsb (eqb x) l.
Fixpoint list_remove (x : text) (l : list text) : list text :=
  match l with
  | [] => []
  | y :: l' => if eqb x y then l' else y :: list_remove x l'
  end.

End PyStr.

(* ------------------------------------------------------------------ *)
(** ** [TextAnalyzer] (src/core/text_analyzer.py) *)

Module TextAnalyzer.

(** [TextAnalyzer.get_line_col]. *)
Definition get_line_col (txt : text) (cursor_position : Z) : Z * Z :=
  if negb (PyStr.truthy txt) || (cursor_position <? 0)%Z then (1, 1)%Z
  else
    let cursor_position := Z.min cursor_position (Z.of_nat (length txt)) in
    let text_before := PyStr.slice_to txt (Z.to_nat cursor_position) in
    let line_number := (PyStr.count Chars.newline text_before + 1)%Z in
    let last_newline := PyStr.rfind Chars.newline text_before in
    let column_number :=
      if (last_newline =? -1)%Z then (cursor_position + 1)%Z
      else (cursor_position - last_newline)%Z in
    (line_number, column_number).

(** [TextAnalyzer.count_words]. *)
Definition count_words (txt : text) : Z :=
  if negb (PyStr.truthy txt) then 0%Z
  else
    let words := PyStr.split txt in
    Z.of_nat (length words).

(** [TextAnalyzer.count_characters]. *)
Definition count_characters (txt : text) (with_spaces : bool) : Z :=
  if negb (PyStr.truthy txt) then 0%Z
  else if with_spaces then Z.of_nat (length txt)
  else Z.of_nat (length (PyStr.remove_whitespace txt)).

(** [TextAnalyzer.count_lines]. *)
Definition count_lines (txt : text) : Z :=
  if negb (PyStr.truthy txt) then 1%Z
  else (PyStr.count Chars.newline txt + 1)%Z.

(** The dictionary returned by [get_statistics]. *)
Record Statistics : Type := mkStatistics
  { words : Z;
    characters : Z;
    total_lines : Z;
    current_line : Z;
    current_col : Z }.

(** [TextAnalyzer.get_statistics]. *)
Definition get_statistics (txt : text) (cursor_position : Z) (with_spaces : bool)
  : Statistics :=
  let words := count_words txt in
  let chars := count_characters txt with_spaces in
  let lines := count_lines txt in
  let '(line, col) := get_line_col txt cursor_position in
  mkStatistics words chars lines line col.

End TextAnalyzer.

(* ------------------------------------------------------------------ *)
(** ** Outcomes of the loops

    The [while True] loops of the sources are run on fuel.  [Done] is a
    normal return, [IndexError] the Python exception of a list index out of
    range, [OutOfFuel] a loop that had not ended when the fuel was spent. *)

Inductive outcome (A : Type) : Type :=
| Done (a : A)
| IndexError
| OutOfFuel.
Arguments Done {A} a.
Arguments IndexError {A}.
Arguments OutOfFuel {A}.

Definition bind {A B : Type} (m : outcome A) (k : A -> outcome B) : outcome B :=
  match m with
  | Done a => k a
  | IndexError => IndexError
  | OutOfFuel => OutOfFuel
  end.

Notation "x <- m ;; k" := (bind m (fun x => k))
  (at level 61, m at next level, right associativity).

(* ------------------------------------------------------------------ *)
(** ** The host toolkit: documents, cursors, [QTextDocument.find]

    The sources call the toolkit's text document.  A document is the text
    of its blocks (paragraphs) joined by line breaks, so that a position of
    the document is an index of that text; a cursor is an anchor and a
    position.  The text of a block holds no line break: [insertText] starts
    a new block at every U+000A and at every U+000D of the text it is given
    (one block for U+000D U+000A together), and the search runs block by
    block. *)

Module Qt.

Record QTextCursor : Type := mkCursor { anchor : nat; position : nat }.

Definition selectionStart (c : QTextCursor) : nat := Nat.min (anchor c) (position c).
Definition selectionEnd (c : QTextCursor) : nat := Nat.max (anchor c) (position c).
Definition hasSelection (c : QTextCursor) : bool := negb (anchor c =? position c).

(** A cursor as a half-open span. *)
Definition span (c : QTextCursor) : nat * nat := (selectionStart c, selectionEnd c).

(** [QTextCursor.setPosition(pos)], mode MoveAnchor, and
    [setPosition(pos, KeepAnchor)]: a position past the end of the document
    is refused and the cursor stays as it is. *)
Definition setPosition (doc : text) (pos : nat) (c : QTextCursor) : QTextCursor :=
  if pos <=? length doc then mkCursor pos pos else c.
Definition setPosition_KeepAnchor (doc : text) (pos : nat) (c : QTextCursor)
  : QTextCursor :=
  if pos <=? length doc then mkCursor (anchor c) pos else c.

(** [QTextCursor.selectedText]: the selected characters, a line break
    being given as U+2029, which is outside the alphabet and is written
    [None] here. *)
Definition selectedText (doc : text) (c : QTextCursor) : list (option ascii) :=
  map (fun ch => if Chars.is_newline ch then None else Some ch)
      (PyStr.slice doc (selectionStart c) (selectionEnd c)).

(** Equality of a selected text with a text of the alphabet. *)
Fixpoint selected_eqb (sel : list (option ascii)) (s : text) : bool :=
  match sel, s with
  | [], [] => true
  | Some c :: sel', x :: s' => Ascii.eqb c x && selected_eqb sel' s'
  | _, _ => false
  end.

(** Search options; the backward flag is not used by the methods embedded
    here. *)
Record FindFlags : Type := mkFlags
  { FindCaseSensitively : bool; FindWholeWords : bool }.

(** The search compares a block's text after turning U+00A0 into a
    space. *)
Definition block_char (c : ascii) : ascii :=
  if Ascii.eqb c Chars.nbsp then Chars.space else c.

Definition char_eqb (case_sensitive : bool) (d t : ascii) : bool :=
  if case_sensitive then Ascii.eqb d t
  else Ascii.eqb (Chars.toCaseFolded d) (Chars.toCaseFolded t).

(** Does [term] occur at the head of the document text [d]? *)
Fixpoint starts_with (cs : bool) (term d : text) : bool :=
  match term, d with
  | [], _ => true
  | _ :: _, [] => false
  | t :: term', c :: d' => char_eqb cs (block_char c) t && starts_with cs term' d'
  end.

(** First index at or after [i] where [term] occurs; [d] is the text from
    index [i] on. *)
Fixpoint index_from (cs : bool) (term d : text) (i : nat) : option nat :=
  if starts_with cs term d then Some i
  else match d with
       | [] => None
       | _ :: d' => index_from cs term d' (S i)
       end.

(** [QString::indexOf(term, from, cs)]. *)
Definition indexOf (cs : bool) (term txt : text) (from : nat) : option nat :=
  if from <=? length txt then index_from cs term (skipn from txt) from
  else None.

Definition letter_or_number_at (txt : text) (i : nat) : bool :=
  match nth_error txt i with
  | Some c => Chars.isLetterOrNumber (block_char c)
  | None => false
  end.

(** The whole-word test of the search: the hit [start, end_) is refused
    when the character before it or the character after it, in the same
    block, is a letter or a number.  (A line break is neither.) *)
Definition not_whole_word (txt : text) (start end_ : nat) : bool :=
  (negb (start =? 0) && letter_or_number_at txt (start - 1))
  || (negb (end_ =? length txt) && letter_or_number_at txt end_).

(** The forward search loop.  The toolkit searches block after block,
    from [offset]; a hit refused by the whole-word test moves the search to
    [end_ + 1].  As a block's text holds no line break, the block-wise
    search of a term without line break is this search of the joined
    text. *)
Fixpoint find_loop (fuel : nat) (doc term : text) (flags : FindFlags)
         (offset : nat) : outcome (option (nat * nat)) :=
  match fuel with
  | O => OutOfFuel
  | S fuel' =>
      if offset <=? length doc then
        match indexOf (FindCaseSensitively flags) term doc offset with
        | None => Done None
        | Some idx =>
            let start := idx in
            let end_ := start + length term in
            if FindWholeWords flags && not_whole_word doc start end_
            then find_loop fuel' doc term flags (end_ + 1)
            else Done (Some (start, end_))
        end
      else Done None
  end.

(** [QTextDocument.find(subString, position, options)], forward: the
    cursor selecting the first hit at or after [from], or the null cursor
    ([None]).  An empty term is refused; a term with a line break, U+000A
    or U+000D, is never found, the text of a block holding neither. *)
Definition find_at (doc term : text) (from : nat) (flags : FindFlags)
  : option QTextCursor :=
  if negb (PyStr.truthy term) || existsb Chars.is_line_break term then None
  else match find_loop (S (length doc)) doc term flags from with
       | Done (Some (s, e)) => Some (mkCursor s e)
       | _ => None
       end.

(** [QTextDocument.find(subString, cursor, options)], forward: the search
    starts at the end of the cursor's selection. *)
Definition find (doc term : text) (cursor : QTextCursor) (flags : FindFlags)
  : option QTextCursor :=
  find_at doc term (selectionEnd cursor) flags.

(** What [insertText] puts into the document for the text [t].  The
    characters of [t] are inserted one run after the other, and a new block
    is started at every U+000A and at every U+000D, U+000D U+000A together
    starting one block only; in the text of the document each new block is
    one line break.  (So are U+2029, U+FDD0 and U+FDD1, which are outside
    the alphabet.) *)
Fixpoint inserted (t : text) : text :=
  match t with
  | [] => []
  | ch :: t' =>
      if Chars.is_carriage_return ch then
        Chars.newline ::
          match t' with
          | next :: t'' => if Chars.is_newline next then inserted t'' else inserted t'
          | [] => []
          end
      else ch :: inserted t'
  end.

(** [QTextCursor.insertText(t)]: the selection is removed, [t] is inserted
    in its place, block by block, and the cursor ends after it, without
    selection. *)
Definition insertText (doc : text) (c : QTextCursor) (t : text)
  : text * QTextCursor :=
  let s := selectionStart c in
  let e := selectionEnd c in
  let t := inserted t in
  (firstn s doc ++ t ++ skipn e doc, mkCursor (s + length t) (s + length t)).

(** How the toolkit moves the other cursors of a document when [start,
    end_) is removed and [n] characters are inserted at [start]. *)
Definition adjust_position (start end_ n : nat) (p : nat) : nat :=
  if p <? start then p
  else (if p <? end_ then start else p - (end_ - start)) + n.

Definition adjust_cursor (start end_ n : nat) (c : QTextCursor) : QTextCursor :=
  mkCursor (adjust_position start end_ n (anchor c))
           (adjust_position start end_ n (position c)).

End Qt.

(* ------------------------------------------------------------------ *)
(** ** The find / replace methods of [MainWindow] (src/ui/main_window.py) *)

Module UI.
Import Qt.

(** What the status bar is told to show. *)
Inductive StatusMessage : Type :=
| PleaseEnterText                 (* "Please enter text to search" *)
| FoundMatches (n : nat)          (* "Found {n} matches" *)
| NoMatchesFound                  (* "No matches found" *)
| MatchOf (i : Z) (n : nat)       (* "Match {i} of {n}" *)
| ReplacedOne                     (* "Replaced 1 occurrence" *)
| ReplacedOccurrences (count : nat) (* "Replaced {count} occurrences" *)
| NoMoreMatches.                  (* "No more matches found" *)

(** The part of an [EditorTab] the methods touch: its document, its
    visible cursor and its extra selections (the highlights). *)
Record EditorTab : Type := mkEditor
  { document : text;
    textCursor : QTextCursor;
    extraSelections : list QTextCursor }.

(** The input fields and check boxes of [FindReplaceDialog]. *)
Record FindReplaceDialog : Type := mkDialog
  { dialog_find_input : text;
    replace_input : text;
    case_sensitive : bool;
    whole_words : bool;
    wrap_around : bool }.

(** The part of [MainWindow] the inline find methods touch. *)
Record MainWindow : Type := mkWindow
  { current_editor : option EditorTab;   (* get_current_editor() *)
    find_input : text;
    find_case_sensitive : bool;
    find_matches : list nat;
    current_match_index : Z;
    statusBar : option StatusMessage }.

Definition set_editor (w : MainWindow) (ed : EditorTab) : MainWindow :=
  mkWindow (Some ed) (find_input w) (find_case_sensitive w)
           (find_matches w) (current_match_index w) (statusBar w).
Definition showMessage (w : MainWindow) (m : StatusMessage) : MainWindow :=
  mkWindow (current_editor w) (find_input w) (find_case_sensitive w)
           (find_matches w) (current_match_index w) (Some m).
Definition set_find_state (w : MainWindow) (ms : list nat) (i : Z) : MainWindow :=
  mkWindow (current_editor w) (find_input w) (find_case_sensitive w)
           ms i (statusBar w).

Definition setTextCursor (ed : EditorTab) (c : QTextCursor) : EditorTab :=
  mkEditor (document ed) c (extraSelections ed).
Definition setExtraSelections (ed : EditorTab) (l : list QTextCursor) : EditorTab :=
  mkEditor (document ed) (textCursor ed) l.

(** [cursor.insertText(t)] for a cursor [c] on the editor's document: the
    document changes and the editor's own cursors move with it. *)
Definition editor_insertText (ed : EditorTab) (c : QTextCursor) (t : text)
  : EditorTab * QTextCursor :=
  let '(doc', c') := insertText (document ed) c t in
  let adj := adjust_cursor (selectionStart c) (selectionEnd c)
                           (length (inserted t)) in
  (mkEditor doc' (adj (textCursor ed)) (map adj (extraSelections ed)), c').

(** Python's [l[i]]. *)
Definition py_index {A : Type} (l : list A) (i : Z) : outcome A :=
  let n := Z.of_nat (length l) in
  let j := if (i <? 0)%Z then (i + n)%Z else i in
  if (j <? 0)%Z then IndexError
  else match nth_error l (Z.to_nat j) with
       | Some a => Done a
       | None => IndexError
       end.

(** [MainWindow.jump_to_match]. *)
Definition jump_to_match (w : MainWindow) (index : Z) : outcome MainWindow :=
  match current_editor w with
  | None => Done w
  | Some editor =>
      match find_matches w with
      | [] => Done w
      | _ :: _ =>
          position <- py_index (find_matches w) index ;;
          let search_text := find_input w in
          let cursor := mkCursor 0 0 in
          let cursor := setPosition (document editor) position cursor in
          let cursor := setPosition_KeepAnchor (document editor)
                          (position + length search_text) cursor in
          let w := set_editor w (setTextCursor editor cursor) in
          Done (showMessage w (MatchOf (index + 1) (length (find_matches w))))
      end
  end.

(** The [while True] loop of [perform_find]: [matches] is
    [self.find_matches], [selections] is [extra_selections]. *)
Fixpoint perform_find_loop (fuel : nat) (doc search_text : text)
         (flags : FindFlags) (cursor : QTextCursor)
         (matches : list nat) (selections : list QTextCursor)
  : outcome (list nat * list QTextCursor) :=
  match fuel with
  | O => OutOfFuel
  | S fuel' =>
      match find doc search_text cursor flags with
      | None => Done (matches, selections)
      | Some cursor =>
          perform_find_loop fuel' doc search_text flags cursor
                            (matches ++ [selectionStart cursor])
                            (selections ++ [cursor])
      end
  end.

(** [MainWindow.perform_find]. *)
Definition perform_find (w : MainWindow) : outcome MainWindow :=
  match current_editor w with
  | None => Done w
  | Some editor =>
      let search_text := PyStr.strip (find_input w) in
      if negb (PyStr.truthy search_text) then
        Done (showMessage w PleaseEnterText)
      else
        let doc := document editor in
        let flags := mkFlags (find_case_sensitive w) false in
        let w := set_find_state w [] (-1)%Z in
        let cursor := setPosition doc 0 (mkCursor 0 0) in
        r <- perform_find_loop (S (length doc)) doc search_text flags cursor [] [] ;;
        let '(matches, extra_selections) := r in
        let w := set_find_state w matches (-1)%Z in
        let w := set_editor w (setExtraSelections editor extra_selections) in
        match find_matches w with
        | _ :: _ =>
            let w := set_find_state w (find_matches w) 0%Z in
            w <- jump_to_match w 0%Z ;;
            Done (showMessage w (FoundMatches (length (find_matches w))))
        | [] => Done (showMessage w NoMatchesFound)
        end
  end.

(** [MainWindow.find_next]. *)
Definition find_next (w : MainWindow) : outcome MainWindow :=
  match find_matches w with
  | [] => perform_find w
  | _ :: _ =>
      let n := Z.of_nat (length (find_matches w)) in
      let w := set_find_state w (find_matches w)
                              ((current_match_index w + 1) mod n)%Z in
      jump_to_match w (current_match_index w)
  end.

(** [MainWindow.find_previous]. *)
Definition find_previous (w : MainWindow) : outcome MainWindow :=
  match find_matches w with
  | [] => perform_find w
  | _ :: _ =>
      let n := Z.of_nat (length (find_matches w)) in
      let w := set_find_state w (find_matches w)
                              ((current_match_index w - 1) mod n)%Z in
      jump_to_match w (current_match_index w)
  end.

Definition dialog_flags (dialog : FindReplaceDialog) : FindFlags :=
  mkFlags (case_sensitive dialog) (whole_words dialog).

(** [MainWindow.dialog_find_next]; the status bar is threaded through. *)
Definition dialog_find_next (dialog : FindReplaceDialog)
           (editor : EditorTab) (status : option StatusMessage)
  : EditorTab * option StatusMessage :=
  let search_text := dialog_find_input dialog in
  if negb (PyStr.truthy search_text) then (editor, status)
  else
    let flags := dialog_flags dialog in
    let cursor := textCursor editor in
    let found_cursor := find (document editor) search_text cursor flags in
    let found_cursor :=
      match found_cursor with
      | None =>
          if wrap_around dialog then
            let cursor := setPosition (document editor) 0 cursor in
            find (document editor) search_text cursor flags
          else None
      | Some _ => found_cursor
      end in
    match found_cursor with
    | Some c => (setTextCursor editor c, status)
    | None => (editor, Some NoMoreMatches)
    end.

(** [MainWindow.dialog_replace]. *)
Definition dialog_replace (dialog : FindReplaceDialog)
           (editor : EditorTab) (status : option StatusMessage)
  : EditorTab * option StatusMessage :=
  let search_text := dialog_find_input dialog in
  let replace_text := replace_input dialog in
  if negb (PyStr.truthy search_text) then (editor, status)
  else
    let cursor := textCursor editor in
    let '(editor, status) :=
      if hasSelection cursor
         && selected_eqb (selectedText (document editor) cursor) search_text
      then (fst (editor_insertText editor cursor replace_text), Some ReplacedOne)
      else (editor, status) in
    dialog_find_next dialog editor status.

(** The [while True] loop of [dialog_replace_all]. *)
Fixpoint replace_all_loop (fuel : nat) (editor : EditorTab)
         (search_text replace_text : text) (flags : FindFlags)
         (cursor : QTextCursor) (count : nat) : outcome (EditorTab * nat) :=
  match fuel with
  | O => OutOfFuel
  | S fuel' =>
      match find (document editor) search_text cursor flags with
      | None => Done (editor, count)
      | Some cursor =>
          let '(editor, cursor) := editor_insertText editor cursor replace_text in
          replace_all_loop fuel' editor search_text replace_text flags
                           cursor (count + 1)
      end
  end.

(** [MainWindow.dialog_replace_all].  The edit block opened around the
    loop groups the changes for undo and does not change the text. *)
Definition dialog_replace_all (dialog : FindReplaceDialog)
           (editor : EditorTab) (status : option StatusMessage)
  : outcome (EditorTab * option StatusMessage) :=
  let search_text := dialog_find_input dialog in
  let replace_text := replace_input dialog in
  if negb (PyStr.truthy search_text) then Done (editor, status)
  else
    let flags := dialog_flags dialog in
    let cursor := setPosition (document editor) 0 (mkCursor 0 0) in
    r <- replace_all_loop (S (length (document editor))) editor
                          search_text replace_text flags cursor 0 ;;
    let '(editor, count) := r in
    Done (editor, Some (ReplacedOccurrences count)).

(** [MainWindow.close_find_widget]: the highlights and the selection go,
    the find state is reset. *)
Definition close_find_widget (w : MainWindow) : MainWindow :=
  let w :=
    match current_editor w with
    | Some editor =>
        let editor := setExtraSelections editor [] in
        let cursor := textCursor editor in
        let cursor := mkCursor (position cursor) (position cursor) in
        set_editor w (setTextCursor editor cursor)
    | None => w
    end in
  set_find_state w [] (-1)%Z.

(** The text that [MainWindow.update_status_bar] sets on the label
    [status_file_path], from [editor.get_file_path()], which is a path or
    [None]: a long path is cut to its last 57 characters, after three dots;
    without a path, or with an empty one, the label reads "Unsaved". *)
Definition status_file_path (file_path : option text) : text :=
  match file_path with
  | Some (c :: p) =>
      let file_path := c :: p in
      let display_path :=
        if 60 <? length file_path then str "..." ++ PyStr.slice_last file_path 57
        else file_path in
      display_path
  | _ => str "Unsaved"
  end.

End UI.

(* ------------------------------------------------------------------ *)
(** ** [BasicSpellChecker] (src/core/spell_checker.py) *)

Module SpellCheck.

(** The checker object: [spell] is the dictionary of the [SpellChecker]
    library, given by the test "[known([w])] is not empty", or [None] when
    the library failed to load. *)
Record BasicSpellChecker : Type := mkChecker
  { spell : option (text -> bool);
    enabled : bool }.

(** [BasicSpellChecker.check_word]. *)
Definition check_word (self : BasicSpellChecker) (word : text) : bool :=
  match spell self with
  | None => true
  | Some known =>
      if negb (enabled self) || negb (PyStr.truthy word) then true
      else if negb (PyStr.isalpha word) then true
      else
        let word_lower := PyStr.lower word in
        known word_lower
  end.

(** *** The regular expression \b[a-zA-Z]+\b *)

Definition word_at (txt : text) (i : nat) : bool :=
  match nth_error txt i with
  | Some c => Chars.re_word c
  | None => false
  end.

(** \b at position [i]: exactly one of the characters before and at [i]
    is a word character (no character counts as a non-word one). *)
Definition word_boundary (txt : text) (i : nat) : bool :=
  xorb (match i with O => false | S p => word_at txt p end) (word_at txt i).

(** The longest run of [[a-zA-Z]] at the head of [d]. *)
Fixpoint letters_run (d : text) : nat :=
  match d with
  | c :: d' => if Chars.is_ascii_letter c then S (letters_run d') else 0
  | [] => 0
  end.

(** The greedy [+] gives back one letter at a time, down to one, until
    the closing \b holds at [i + k]. *)
Fixpoint backtrack (txt : text) (i k : nat) : option nat :=
  match k with
  | O => None
  | S k' => if word_boundary txt (i + k) then Some (i + k)
            else backtrack txt i k'
  end.

(** A match of the pattern that starts at [i]: its end. *)
Definition match_at (txt : text) (i : nat) : option nat :=
  if word_boundary txt i then backtrack txt i (letters_run (skipn i txt))
  else None.

(** [re.finditer]: the leftmost match at or after [pos], then on from its
    end. *)
Fixpoint finditer_loop (fuel : nat) (txt : text) (pos : nat)
  : outcome (list (nat * nat)) :=
  match fuel with
  | O => OutOfFuel
  | S fuel' =>
      if length txt <? pos then Done []
      else match match_at txt pos with
           | Some e =>
               rest <- finditer_loop fuel' txt e ;;
               Done ((pos, e) :: rest)
           | None => finditer_loop fuel' txt (S pos)
           end
  end.

Definition finditer (txt : text) : outcome (list (nat * nat)) :=
  finditer_loop (length txt + 2) txt 0.

(** The [for] loop of [find_misspelled_words] over the matches. *)
Fixpoint collect (self : BasicSpellChecker) (txt : text)
         (matches : list (nat * nat)) : list (text * nat * nat) :=
  match matches with
  | [] => []
  | (s, e) :: rest =>
      let word := PyStr.slice txt s e in
      if negb (check_word self word)
      then (word, s, e) :: collect self txt rest
      else collect self txt rest
  end.

(** [BasicSpellChecker.find_misspelled_words]. *)
Definition find_misspelled_words (self : BasicSpellChecker) (txt : text)
  : outcome (list (text * nat * nat)) :=
  match spell self with
  | None => Done []
  | Some _ =>
      if negb (enabled self) || negb (PyStr.truthy txt) then Done []
      else
        matches <- finditer txt ;;
        Done (collect self txt matches)
  end.

(** [BasicSpellChecker.set_enabled] and [is_enabled]. *)
Definition set_enabled (self : BasicSpellChecker) (on : bool) : BasicSpellChecker :=
  mkChecker (spell self)
            (on && match spell self with Some _ => true | None => false end).
Definition is_enabled (self : BasicSpellChecker) : bool := enabled self.

End SpellCheck.

(* ------------------------------------------------------------------ *)
(** ** Recent files of [FileOperations] (src/core/file_ops.py) *)

Module FileOps.

(** The entry "recent_files" of the configuration dictionary: a list of
    paths, or no entry.  The methods below leave the other entries alone;
    [save_config] writes the dictionary to disk and changes nothing in
    memory. *)
Record Config : Type := mkConfig { recent_files : option (list text) }.

(** [config.get("recent_files", [])]. *)
Definition get_recent (c : Config) : list text :=
  match recent_files c with
  | Some l => l
  | None => []
  end.

(** [FileOperations.add_recent_file]. *)
Definition add_recent_file (c : Config) (file_path : text) : Config :=
  if negb (PyStr.truthy file_path) then c
  else
    let recent := get_recent c in
    let recent :=
      if PyStr.list_in file_path recent then PyStr.list_remove file_path recent
      else recent in
    let recent := file_path :: recent in
    mkConfig (Some (firstn 15 recent)).

(** [FileOperations.get_recent_files]; [path_exists] is [os.path.exists].
    The configuration after the call, and the list returned. *)
Definition get_recent_files (path_exists : text -> bool) (c : Config)
  : Config * list text :=
  let recent := get_recent c in
  let existing := filter path_exists recent in
  if negb (length existing =? length recent)
  then (mkConfig (Some existing), existing)
  else (c, existing).

(** [FileOperations.clear_recent_files]. *)
Definition clear_recent_files (c : Config) : Config := mkConfig (Some []).

End FileOps.

(* ------------------------------------------------------------------ *)
(** ** The name of a tab (src/ui/editor_tab.py) *)

Module Tab.

(** [EditorTab.get_display_name], from the tab's [custom_tab_name] and
    [file_path]. *)
Definition get_display_name (custom_tab_name file_path : option text) : text :=
  match custom_tab_name with
  | Some (c :: name) => c :: name
  | _ =>
      match file_path with
      | Some (c :: path) =>
          let after_slash := last (PyStr.split_on "/"%char (c :: path)) [] in
          last (PyStr.split_on "\"%char after_slash) []
      | _ => str "Untitled"
      end
  end.

End Tab.

(* ------------------------------------------------------------------ *)
(** ** The search engine as the specification words it

    Reference definitions, written from the words of the specification, for
    the comparison with [UI.dialog_replace_all].  [findAll] "scans left to
    right; matching is literal substring comparison, case-folded when
    case_sensitive=false"; with whole words "a candidate match is accepted
    only if the characters immediately preceding start and following end (if
    they exist) are not alphanumeric/underscore"; "after accepting a match at
    [start,end), the scan resumes at end"; it "returns empty MatchSet when
    term is empty".  [replaceAll] replaces those matches "in a single pass
    over the original buffer" and "returns the final buffer and the total
    substitution count".  The two options are given in the record of the
    toolkit's flags. *)

Module Spec.

(** Case folding is character by character; below U+0100 it is the
    lower-case mapping (see [Chars.toCaseFolded]). *)
Definition fold (case_sensitive : bool) (c : ascii) : ascii :=
  if case_sensitive then c else Chars.toCaseFolded c.

(** The buffer reads [term] at [start], literally or up to case. *)
Definition matches_at (case_sensitive : bool) (buffer term : text) (start : nat)
  : bool :=
  PyStr.eqb (map (fold case_sensitive)
                 (PyStr.slice buffer start (start + length term)))
            (map (fold case_sensitive) term).

(** An alphanumeric character or an underscore at index [i]. *)
Definition word_character_at (buffer : text) (i : nat) : bool :=
  match nth_error buffer i with
  | Some c => Chars.re_word c
  | None => false
  end.

(** The span [start, end_) sits on a word boundary. *)
Definition on_word_boundary (buffer : text) (start end_ : nat) : bool :=
  negb (match start with
        | O => false
        | S preceding => word_character_at buffer preceding
        end)
  && negb (word_character_at buffer end_).

(** A candidate match at [start] is accepted. *)
Definition accepted (options : Qt.FindFlags) (buffer term : text) (start : nat)
  : bool :=
  matches_at (Qt.FindCaseSensitively options) buffer term start
  && (negb (Qt.FindWholeWords options)
      || on_word_boundary buffer start (start + length term)).

(** The scan from [pos]: an accepted match is recorded and the scan
    resumes at its end; otherwise the scan moves one position on. *)
Fixpoint findAll_from (fuel : nat) (buffer term : text) (options : Qt.FindFlags)
         (pos : nat) : outcome (list (nat * nat)) :=
  match fuel with
  | O => OutOfFuel
  | S fuel' =>
      let end_ := pos + length term in
      if length buffer <? end_ then Done []
      else if accepted options buffer term pos then
        rest <- findAll_from fuel' buffer term options end_ ;;
        Done ((pos, end_) :: rest)
      else findAll_from fuel' buffer term options (S pos)
  end.

Definition findAll (buffer term : text) (options : Qt.FindFlags)
  : outcome (list (nat * nat)) :=
  if negb (PyStr.truthy term) then Done []
  else findAll_from (S (length buffer)) buffer term options 0.

(** The buffer from [pos] on, with every span replaced by [repl]. *)
Fixpoint substitute (buffer : text) (pos : nat) (spans : list (nat * nat))
         (repl : text) : text :=
  match spans with
  | [] => skipn pos buffer
  | (s, e) :: rest =>
      PyStr.slice buffer pos s ++ repl ++ substitute buffer e rest repl
  end.

Definition replaceAll (buffer term repl : text) (options : Qt.FindFlags)
  : outcome (text * nat) :=
  spans <- findAll buffer term options ;;
  Done (substitute buffer 0 spans repl, length spans).

End Spec.

(* ------------------------------------------------------------------ *)
(** ** Vocabulary of the statements *)

(** An offset clamped to [[0, len]]. *)
Definition clamp (offset : Z) (len : nat) : Z :=
  Z.max 0 (Z.min offset (Z.of_nat len)).

(** The text of the line/column scenario. *)
Definition sample_lines : text :=
  str "line1" ++ [Chars.newline] ++ str "line2" ++ [Chars.newline] ++ str "line3".


(** The class of the character that ends [a]: is it a letter or a number?
    ([false] for the empty text.) *)
Definition last_class (a : text) : bool :=
  Qt.letter_or_number_at a (length a - 1).

(** The class of the character that begins [a]. *)
Definition first_class (a : text) : bool := Qt.letter_or_number_at a 0.

(** The search loop seen from inside a document [a ++ rest]: offsets are
    relative to [rest], and of [a] only the class [prev] of its last
    character is known. *)
Definition not_whole_word_rel (prev : bool) (rest : text) (start end_ : nat) : bool :=
  (if start =? 0 then prev else Qt.letter_or_number_at rest (start - 1))
  || (negb (end_ =? length rest) && Qt.letter_or_number_at rest end_).

Fixpoint find_rel (fuel : nat) (prev : bool) (rest term : text)
         (flags : Qt.FindFlags) (offset : nat) : outcome (option (nat * nat)) :=
  match fuel with
  | O => OutOfFuel
  | S fuel' =>
      if offset <=? length rest then
        match Qt.indexOf (Qt.FindCaseSensitively flags) term rest offset with
        | None => Done None
        | Some idx =>
            let end_ := idx + length term in
            if Qt.FindWholeWords flags && not_whole_word_rel prev rest idx end_
            then find_rel fuel' prev rest term flags (end_ + 1)
            else Done (Some (idx, end_))
        end
      else Done None
  end.

(** A span moved [n] positions to the right. *)
Definition shift_span (n : nat) (r : option (nat * nat)) : option (nat * nat) :=
  match r with
  | Some (s, e) => Some (n + s, n + e)
  | None => None
  end.

Definition map_outcome {A B : Type} (f : A -> B) (m : outcome A) : outcome B :=
  match m with
  | Done a => Done (f a)
  | IndexError => IndexError
  | OutOfFuel => OutOfFuel
  end.

(** A term the toolkit's search can find at all: not empty, no line
    break. *)
Definition usable (term : text) : bool :=
  PyStr.truthy term && negb (existsb Chars.is_line_break term).

(** Consecutive hits of a scan that resumes at the end of each hit: every
    cursor selects [length term] characters of the document, and starts at
    or after [lo], the end of the hit before it. *)
Fixpoint chained (term_len doc_len lo : nat) (cs : list Qt.QTextCursor) : Prop :=
  match cs with
  | [] => True
  | c :: cs' =>
      lo <= Qt.anchor c
      /\ Qt.position c = Qt.anchor c + term_len
      /\ Qt.position c <= doc_len
      /\ chained term_len doc_len (Qt.position c) cs'
  end.

(** The spans highlighted in an editor. *)
Definition highlighted (ed : UI.EditorTab) : list (nat * nat) :=
  map Qt.span (UI.extraSelections ed).

(** A window on one editor holding [doc], with [input] in the find field
    and no search done yet. *)
Definition fresh_window (doc input : text) (match_case : bool) : UI.MainWindow :=
  UI.mkWindow (Some (UI.mkEditor doc (Qt.mkCursor 0 0) [])) input match_case
              [] (-1)%Z None.

(** The window with another text in the find field. *)
Definition with_find_input (w : UI.MainWindow) (input : text) : UI.MainWindow :=
  UI.mkWindow (UI.current_editor w) input (UI.find_case_sensitive w)
              (UI.find_matches w) (UI.current_match_index w) (UI.statusBar w).

(** The highlights of the window's current editor. *)
Definition window_highlights (w : UI.MainWindow) : option (list (nat * nat)) :=
  option_map highlighted (UI.current_editor w).

(** An editor that holds [doc], cursor at the start, nothing highlighted. *)
Definition fresh_editor (doc : text) : UI.EditorTab :=
  UI.mkEditor doc (Qt.mkCursor 0 0) [].

(** The buffer of the fox scenario. *)
Definition fox_buffer : text := str "The quick fox jumps over the lazy fox".

(** The fox dialog: "fox" by "cat", case-insensitive, whole words. *)
Definition fox_dialog : UI.FindReplaceDialog :=
  UI.mkDialog (str "fox") (str "cat") false true true.

(** The replace-all result as the specification returns it: the final
    buffer and the count shown in the status bar. *)
Definition replace_all_result (r : UI.EditorTab * option UI.StatusMessage)
  : text * option nat :=
  (UI.document (fst r),
   match snd r with
   | Some (UI.ReplacedOccurrences n) => Some n
   | _ => None
   end).

(** The toolkit's search run over a buffer that does not change, resumed
    at the end of each hit: the spans it finds from [pos] on. *)
Fixpoint scan_from (fuel : nat) (buffer term : text) (flags : Qt.FindFlags)
         (pos : nat) : outcome (list (nat * nat)) :=
  match fuel with
  | O => OutOfFuel
  | S fuel' =>
      match Qt.find_at buffer term pos flags with
      | None => Done []
      | Some c =>
          rest <- scan_from fuel' buffer term flags (Qt.selectionEnd c) ;;
          Done (Qt.span c :: rest)
      end
  end.

(** When does the search of the changing document find what the search of
    the unchanged buffer finds?  Without the whole-word option always; with
    it, when the replacement is not empty and ends in a character of the
    class of the term's last character, or when the term begins with a
    letter or a number. *)
Definition same_boundary (flags : Qt.FindFlags) (term repl : text) : Prop :=
  Qt.FindWholeWords flags = false
  \/ (repl <> [] /\ last_class repl = last_class term)
  \/ first_class term = true.

(** A text that is one line: it holds no line break. *)
Definition one_line (t : text) : Prop :=
  Forall (fun c => Chars.is_line_break c = false) t.

(** A word: letters and numbers only. *)
Definition letters_and_numbers (t : text) : Prop :=
  Forall (fun c => Chars.isLetterOrNumber c = true) t.

(** The toolkit's comparison finds [term] at the offset [i] of [doc]: it
    compares character by character, up to case when [cs] is off, and takes
    a U+00A0 of the document for a space. *)
Definition found_at (cs : bool) (term doc : text) (i : nat) : Prop :=
  Qt.starts_with cs term (skipn i doc) = true.

(** Two texts that are the same, up to case when [cs] is off. *)
Definition same_text (cs : bool) (a b : text) : Prop :=
  if cs then a = b else map Chars.toCaseFolded a = map Chars.toCaseFolded b.

(** The document reads [term] at the offset [i]. *)
Definition reads_at (cs : bool) (term doc : text) (i : nat) : Prop :=
  same_text cs (PyStr.slice doc i (i + length term)) term.


(** The cursor [c] selects a hit of the search for [term] from the offset
    [from]: it begins at or after [from], selects as many characters as the
    term has, inside the document, where the toolkit's comparison finds the
    term; with the whole-word option the hit passed the whole-word test,
    without it no hit begins between [from] and the cursor. *)
Definition selects_hit (flags : Qt.FindFlags) (term doc : text) (from : nat)
           (c : Qt.QTextCursor) : Prop :=
  from <= Qt.anchor c
  /\ Qt.position c = Qt.anchor c + length term
  /\ Qt.position c <= length doc
  /\ 0 < length term
  /\ found_at (Qt.FindCaseSensitively flags) term doc (Qt.anchor c)
  /\ (Qt.FindWholeWords flags = true ->
      Qt.not_whole_word doc (Qt.anchor c) (Qt.position c) = false)
  /\ (Qt.FindWholeWords flags = false ->
      forall i, from <= i < Qt.anchor c ->
                ~ found_at (Qt.FindCaseSensitively flags) term doc i).

(** What the toolkit's forward search for [term] gives from the offset
    [from]: a cursor that selects the hit, or nothing; without the
    whole-word option, nothing means that a term the search can find at all
    is found nowhere at or after [from]. *)
Definition next_hit (flags : Qt.FindFlags) (term doc : text) (from : nat)
           (r : option Qt.QTextCursor) : Prop :=
  Qt.find_at doc term from flags = r
  /\ match r with
     | Some c => selects_hit flags term doc from c
     | None =>
         Qt.FindWholeWords flags = false -> usable term = true ->
         forall i, from <= i -> ~ found_at (Qt.FindCaseSensitively flags) term doc i
     end.


(** The search takes some character of [b] for the character [x]. *)
Definition matched_in (cs : bool) (x : ascii) (b : text) : bool :=
  existsb (fun d => Qt.char_eqb cs (Qt.block_char d) x) b.

(** Wherever the search finds [term] in [b], the buffer reads [term]
    itself, character for character. *)
Definition verbatim_hits (cs : bool) (term b : text) : Prop :=
  forall i, found_at cs term b i -> PyStr.slice b i (i + length term) = term.

(** The dialog with its two input fields exchanged. *)
Definition swapped (d : UI.FindReplaceDialog) : UI.FindReplaceDialog :=
  UI.mkDialog (UI.replace_input d) (UI.dialog_find_input d)
              (UI.case_sensitive d) (UI.whole_words d) (UI.wrap_around d).

(** Replace all, then replace all back: the final buffer. *)
Definition round_trip (d : UI.FindReplaceDialog) (editor : UI.EditorTab)
           (status : option UI.StatusMessage) : outcome text :=
  r1 <- UI.dialog_replace_all d editor status ;;
  r2 <- UI.dialog_replace_all (swapped d) (fst r1) (snd r1) ;;
  Done (UI.document (fst r2)).

(** [x] is a prefix of [y], character by character. *)
Fixpoint prefixb (x y : text) : bool :=
  match x, y with
  | [], _ => true
  | _ :: _, [] => false
  | a :: x', b :: y' => Ascii.eqb a b && prefixb x' y'
  end.

(** [x] occurs in [y]. *)
Fixpoint substringb (x y : text) : bool :=
  prefixb x y || match y with [] => false | _ :: y' => substringb x y' end.

(** A proper, non-empty end of [x] begins [y]: the two overlap. *)
Fixpoint overlapb (x y : text) : bool :=
  match x with
  | [] => false
  | _ :: x' => (PyStr.truthy x' && prefixb x' y) || overlapb x' y
  end.

(** The condition of the round-trip property: the two texts do not overlap
    and neither occurs in the other. *)
Definition apart (term repl : text) : bool :=
  negb (overlapb term repl) && negb (overlapb repl term)
  && negb (substringb term repl) && negb (substringb repl term).

(** The parts of a reported triple (word, start, end). *)
Definition triple_word (t : text * nat * nat) : text := fst (fst t).
Definition triple_start (t : text * nat * nat) : nat := snd (fst t).
Definition triple_end (t : text * nat * nat) : nat := snd t.

(** Consecutive matches of the word pattern, each starting at or after
    [lo], the end of the match before it. *)
Fixpoint match_chain (txt : text) (lo : nat) (ms : list (nat * nat)) : Prop :=
  match ms with
  | [] => True
  | (s, e) :: ms' =>
      lo <= s /\ SpellCheck.match_at txt s = Some e /\ match_chain txt e ms'
  end.

(** What holds of a reported triple in [txt]. *)
Definition well_placed (txt : text) (t : text * nat * nat) : Prop :=
  triple_start t < triple_end t <= length txt
  /\ PyStr.slice txt (triple_start t) (triple_end t) = triple_word t
  /\ Forall (fun c => Chars.is_ascii_letter c = true) (triple_word t)
  /\ (forall c, 0 < triple_start t ->
                nth_error txt (triple_start t - 1) = Some c ->
                Chars.re_word c = false)
  /\ (forall c, nth_error txt (triple_end t) = Some c -> Chars.re_word c = false).

(** The round trip on a fresh editor that holds [b]. *)
Definition round_trip_on (b term repl : text) (match_case whole : bool)
  : outcome text :=
  round_trip (UI.mkDialog term repl match_case whole true) (fresh_editor b) None.

(** Concrete states of the examples: a window with two recorded matches
    and the second one current; a window over "a" with "a" in the find field
    and no search done yet; the dialog "fox" by "cat", case-insensitive,
    without the whole-word option. *)
Definition two_match_window : UI.MainWindow :=
  UI.mkWindow None (str "a") false [3; 8] 1%Z None.
Definition unsearched_window : UI.MainWindow :=
  fresh_window (str "a") (str "a") false.
Definition plain_fox_dialog : UI.FindReplaceDialog :=
  UI.mkDialog (str "fox") (str "cat") false false true.

(** A word: not empty, no whitespace in it. *)
Definition is_word (w : text) : Prop :=
  w <> [] /\ Forall (fun c => Chars.py_isspace c = false) w.

(** The order of positions in a text: by line, then by column. *)
Definition before (a b : Z * Z) : Prop :=
  (fst a < fst b)%Z \/ (fst a = fst b /\ snd a < snd b)%Z.

(** What a search leaves behind, the visible cursor apart: the match set,
    the current index, the highlights, the status bar and the document. *)
Definition search_result (w : UI.MainWindow)
  : list nat * Z * option (list (nat * nat)) * option UI.StatusMessage * option text :=
  (UI.find_matches w, UI.current_match_index w, window_highlights w,
   UI.statusBar w, option_map UI.document (UI.current_editor w)).

(** The state of a window after a search with a term as long as the text
    of the find field: the recorded positions are the starts of the
    highlights, every highlight has the length of the find field and lies in
    the document, and when there are matches the visible cursor selects the
    highlight of the current index. *)
Definition current_match_selected (w : UI.MainWindow) : Prop :=
  exists ed,
    UI.current_editor w = Some ed
    /\ UI.find_matches w = map fst (highlighted ed)
    /\ Forall (fun sp => snd sp = fst sp + length (UI.find_input w)
                         /\ snd sp <= length (UI.document ed)) (highlighted ed)
    /\ (UI.find_matches w <> [] ->
        (0 <= UI.current_match_index w)%Z
        /\ nth_error (highlighted ed) (Z.to_nat (UI.current_match_index w))
           = Some (Qt.span (UI.textCursor ed))).

(** A path separator of [get_display_name]. *)
Definition is_separator (c : ascii) : Prop := c = "/"%char \/ c = "\"%char.

(* ================================================================== *)
(** * Properties *)

(* ------------------------------------------------------------------ *)
(** ** Line and column *)

Section TextAnalyzerFacts.
Import PyStr.

Lemma count_count_occ (c : ascii) (s : text) :
  count c s = Z.of_nat (count_occ ascii_dec s c).
Proof.
  induction s as [|x s IH]; simpl; [reflexivity|].
  rewrite IH. destruct (Ascii.eqb_spec x c) as [->|ne].
  - destruct (ascii_dec c c); [lia | contradiction].
  - destruct (ascii_dec x c); [contradiction | lia].
Qed.

Lemma rfind_from_absent (c : ascii) (s : text) :
  ~ In c s -> forall i acc, rfind_from c s i acc = acc.
Proof.
  induction s as [|x s IH]; simpl; intros nin i acc; [reflexivity|].
  rewrite IH by tauto.
  destruct (Ascii.eqb_spec x c); [subst; tauto | reflexivity].
Qed.

Lemma rfind_from_present (c : ascii) (s : text) :
  In c s -> forall i acc,
  exists k : nat,
    nth_error s k = Some c /\
    (forall j, k < j -> nth_error s j <> Some c) /\
    rfind_from c s i acc = (i + Z.of_nat k)%Z.
Proof.
  induction s as [|x s IH]; simpl; intros hin i acc; [contradiction|].
  destruct (in_dec ascii_dec c s) as [later|nolater].
  - destruct (IH later (i + 1)%Z (if Ascii.eqb x c then i else acc))
      as (k & hk & hlast & hr).
    exists (S k). split; [exact hk|]. split.
    + intros [|j] lt; [lia|]. simpl. apply hlast. lia.
    + rewrite hr. lia.
  - destruct hin as [->|]; [|contradiction].
    exists 0. split; [reflexivity|]. split.
    + intros [|j] lt; [lia|]. simpl. intros hj.
      apply nolater. eapply nth_error_In; eassumption.
    + rewrite rfind_from_absent by assumption.
      rewrite Ascii.eqb_refl. lia.
Qed.

End TextAnalyzerFacts.

(** C5.  [get_line_col] agrees, at every buffer and every integer offset,
    with the offset clamped to [[0, len(buffer)]]: the line is one more than
    the number of line breaks before the clamped offset; the column is the
    clamped offset minus the index of the last line break before it, or the
    clamped offset plus one when there is none; a negative offset or an empty
    buffer gives (1, 1); the column is at least 1; and the scenario of the
    three lines at offset 7 gives (2, 2). *)
Theorem get_line_col_spec :
  (forall (buffer : text) (offset : Z),
     let o := clamp offset (length buffer) in
     let before := firstn (Z.to_nat o) buffer in
     let line := fst (TextAnalyzer.get_line_col buffer offset) in
     let column := snd (TextAnalyzer.get_line_col buffer offset) in
     line = (Z.of_nat (count_occ ascii_dec before Chars.newline) + 1)%Z
     /\ ((~ In Chars.newline before /\ column = (o + 1)%Z)
         \/ (exists i : nat,
               (Z.of_nat i < o)%Z
               /\ nth_error buffer i = Some Chars.newline
               /\ (forall j : nat, i < j -> (Z.of_nat j < o)%Z ->
                                   nth_error buffer j <> Some Chars.newline)
               /\ column = (o - Z.of_nat i)%Z))
     /\ ((offset < 0)%Z \/ buffer = [] -> (line, column) = (1, 1)%Z)
     /\ (1 <= column)%Z)
  /\ TextAnalyzer.get_line_col sample_lines 7 = (2, 2)%Z.
Proof.
  split; [|reflexivity].
  intros buffer offset o before line column.
  assert (main :
    line = (Z.of_nat (count_occ ascii_dec before Chars.newline) + 1)%Z
     /\ ((~ In Chars.newline before /\ column = (o + 1)%Z)
         \/ (exists i : nat,
               (Z.of_nat i < o)%Z
               /\ nth_error buffer i = Some Chars.newline
               /\ (forall j : nat, i < j -> (Z.of_nat j < o)%Z ->
                                   nth_error buffer j <> Some Chars.newline)
               /\ column = (o - Z.of_nat i)%Z))
     /\ ((offset < 0)%Z \/ buffer = [] -> (line, column) = (1, 1)%Z)).
  { subst line column. unfold TextAnalyzer.get_line_col.
    destruct buffer as [|b buffer].
    { simpl. subst before o. unfold clamp. simpl length.
      replace (Z.max 0 (Z.min offset (Z.of_nat 0))) with 0%Z by lia.
      simpl. split; [reflexivity|]. split; [left; split; [tauto|reflexivity]|reflexivity]. }
    cbn [PyStr.truthy negb orb].
    destruct (Z.ltb_spec offset 0) as [neg|nonneg].
    { subst before o. unfold clamp.
      replace (Z.max 0 (Z.min offset (Z.of_nat (length (b :: buffer))))) with 0%Z by lia.
      simpl. split; [reflexivity|]. split; [left; split; [tauto|reflexivity]|reflexivity]. }
    assert (ho : o = Z.min offset (Z.of_nat (length (b :: buffer))))
      by (subst o; unfold clamp; lia).
    rewrite <- ho. unfold PyStr.slice_to. fold before.
    cbn [fst snd].
    split; [rewrite count_count_occ; reflexivity|].
    split; [|intros [?|?]; [lia|discriminate]].
    assert (hlen : length before = Z.to_nat o).
    { subst before. rewrite length_firstn. lia. }
    destruct (in_dec ascii_dec Chars.newline before) as [hin|hnin].
    - right. unfold PyStr.rfind.
      destruct (rfind_from_present _ _ hin 0%Z (-1)%Z) as (k & hk & hlast & hr).
      rewrite hr.
      assert (klt : k < length before) by (apply nth_error_Some; congruence).
      replace (0 + Z.of_nat k =? -1)%Z with false by (symmetry; apply Z.eqb_neq; lia).
      exists k. split; [lia|]. split.
      { subst before. rewrite nth_error_firstn in hk.
        destruct (Nat.ltb_spec k (Z.to_nat o)); [exact hk|discriminate]. }
      split; [|lia].
      intros j lt jo hj. apply (hlast j lt).
      subst before. rewrite nth_error_firstn.
      destruct (Nat.ltb_spec j (Z.to_nat o)); [exact hj|lia].
    - left. split; [exact hnin|].
      unfold PyStr.rfind. rewrite rfind_from_absent by assumption. reflexivity. }
  destruct main as (hl & hc & h1). repeat split; try assumption.
  destruct hc as [[_ ->]|(i & lt & _ & _ & ->)]; [subst o; unfold clamp|]; lia.
Qed.

Section SearchFacts.
Import Qt.

Lemma starts_with_length cs term d :
  starts_with cs term d = true -> length term <= length d.
Proof.
  revert d; induction term as [|t term IH]; intros [|c d]; simpl;
    try lia; try discriminate.
  intros h. apply andb_true_iff in h as [_ h]. apply IH in h. lia.
Qed.

(** [index_from] only adds its start index to a relative result. *)
Lemma index_from_shift cs term d i :
  index_from cs term d i = option_map (Nat.add i) (index_from cs term d 0).
Proof.
  revert i. induction d as [|c d IH]; intros i; simpl.
  - destruct (starts_with cs term []); simpl; [f_equal; lia|reflexivity].
  - destruct (starts_with cs term (c :: d)); simpl; [f_equal; lia|].
    rewrite (IH (S i)), (IH 1).
    destruct (index_from cs term d 0); simpl; [f_equal; lia|reflexivity].
Qed.

(** What a hit is: the term occurs there, and nowhere before. *)
Lemma index_from_hit cs term d i k :
  index_from cs term d i = Some k ->
  exists j, k = i + j /\ j + length term <= length d
            /\ starts_with cs term (skipn j d) = true
            /\ (forall j', j' < j -> starts_with cs term (skipn j' d) = false).
Proof.
  revert i. induction d as [|c d IH]; intros i; simpl.
  - destruct (starts_with cs term []) eqn:sw; [|discriminate].
    intros [= <-]. exists 0. rewrite Nat.add_0_r. split; [reflexivity|].
    apply starts_with_length in sw. simpl in *. repeat split; try lia; try assumption.
    destruct term; [reflexivity | simpl in sw; lia].
  - destruct (starts_with cs term (c :: d)) eqn:sw.
    + intros [= <-]. exists 0. rewrite Nat.add_0_r. split; [reflexivity|].
      pose proof (starts_with_length _ _ _ sw) as le. simpl in le.
      repeat split; try lia; assumption.
    + intros h. apply IH in h as (j & -> & le & sw' & first).
      exists (S j). repeat split; simpl; try lia; try assumption.
      intros [|j'] lt; simpl; [assumption|]. apply first. lia.
Qed.

Lemma index_from_miss cs term d i :
  index_from cs term d i = None ->
  forall j, starts_with cs term (skipn j d) = false.
Proof.
  revert i. induction d as [|c d IH]; intros i; simpl.
  - destruct (starts_with cs term []) eqn:sw; [discriminate|].
    intros _ j. now rewrite skipn_nil.
  - destruct (starts_with cs term (c :: d)) eqn:sw; [discriminate|].
    intros h [|j]; simpl; [assumption|]. eapply IH; eassumption.
Qed.

Lemma indexOf_bounds cs term txt from idx :
  indexOf cs term txt from = Some idx ->
  from <= idx /\ idx + length term <= length txt.
Proof.
  unfold indexOf. destruct (Nat.leb_spec from (length txt)); [|discriminate].
  intros h. apply index_from_hit in h as (j & -> & le & _).
  rewrite length_skipn in le. lia.
Qed.

(** The search inside [a ++ rest], from an offset in [rest], is the
    search in [rest]. *)
Lemma indexOf_app cs term a rest k :
  indexOf cs term (a ++ rest) (length a + k)
  = option_map (Nat.add (length a)) (indexOf cs term rest k).
Proof.
  unfold indexOf. rewrite length_app.
  destruct (Nat.leb_spec k (length rest)).
  - replace (length a + k <=? length a + length rest) with true
      by (symmetry; apply Nat.leb_le; lia).
    rewrite skipn_app, skipn_all2 by lia.
    replace (length a + k - length a) with k by lia. simpl.
    rewrite index_from_shift, (index_from_shift _ _ _ k).
    destruct (index_from cs term (skipn k rest) 0); simpl; [f_equal; lia|reflexivity].
  - replace (length a + k <=? length a + length rest) with false
      by (symmetry; apply Nat.leb_gt; lia).
    reflexivity.
Qed.

Lemma letter_or_number_at_app a rest i :
  letter_or_number_at (a ++ rest) (length a + i) = letter_or_number_at rest i.
Proof.
  unfold letter_or_number_at. rewrite nth_error_app2 by lia.
  now replace (length a + i - length a) with i by lia.
Qed.

Lemma not_whole_word_app a rest j e :
  not_whole_word (a ++ rest) (length a + j) (length a + e)
  = not_whole_word_rel (last_class a) rest j e.
Proof.
  unfold not_whole_word, not_whole_word_rel.
  rewrite length_app, letter_or_number_at_app. f_equal.
  - destruct j as [|j].
    + rewrite Nat.add_0_r. simpl. unfold last_class.
      destruct a as [|c a]; [reflexivity|].
      cbn [length Nat.eqb negb andb].
      unfold letter_or_number_at.
      rewrite nth_error_app1 by (simpl; lia). reflexivity.
    + replace (length a + S j =? 0) with false by (symmetry; apply Nat.eqb_neq; lia).
      replace (length a + S j - 1) with (length a + j) by lia.
      rewrite letter_or_number_at_app. simpl. now rewrite Nat.sub_0_r.
  - f_equal. f_equal.
    destruct (Nat.eqb_spec e (length rest)), (Nat.eqb_spec (length a + e) (length a + length rest));
      try reflexivity; lia.
Qed.

Lemma find_loop_rel fuel a rest term flags k :
  find_loop fuel (a ++ rest) term flags (length a + k)
  = map_outcome (shift_span (length a))
                (find_rel fuel (last_class a) rest term flags k).
Proof.
  revert k. induction fuel as [|fuel IH]; intros k; simpl; [reflexivity|].
  rewrite length_app, indexOf_app.
  destruct (Nat.leb_spec k (length rest)).
  - replace (length a + k <=? length a + length rest) with true
      by (symmetry; apply Nat.leb_le; lia).
    destruct (indexOf _ term rest k) as [j|]; simpl; [|reflexivity].
    rewrite <- Nat.add_assoc, not_whole_word_app.
    destruct (FindWholeWords flags && _).
    + rewrite <- IH. f_equal. lia.
    + simpl. reflexivity.
  - replace (length a + k <=? length a + length rest) with false
      by (symmetry; apply Nat.leb_gt; lia).
    reflexivity.
Qed.

(** Fuel: for a non-empty term the loop ends as soon as the fuel exceeds
    what is left of the text, and more fuel does not change its result. *)
Lemma find_rel_fuel prev rest term flags :
  0 < length term ->
  forall fuel fuel' k,
    0 < fuel -> 0 < fuel' ->
    length rest < fuel + k -> length rest < fuel' + k ->
    find_rel fuel prev rest term flags k = find_rel fuel' prev rest term flags k
    /\ exists r, find_rel fuel prev rest term flags k = Done r.
Proof.
  intros nonempty.
  induction fuel as [|fuel IH]; intros fuel' k pos pos' lt lt'; [lia|].
  destruct fuel' as [|fuel']; [lia|].
  simpl. destruct (Nat.leb_spec k (length rest)); [|split; [reflexivity|eexists; reflexivity]].
  destruct (indexOf _ term rest k) as [j|] eqn:hj; [|split; [reflexivity|eexists; reflexivity]].
  apply indexOf_bounds in hj.
  destruct (FindWholeWords flags && _); [|split; [reflexivity|eexists; reflexivity]].
  apply IH; lia.
Qed.

Lemma indexOf_hit cs term txt from idx :
  indexOf cs term txt from = Some idx ->
  starts_with cs term (skipn idx txt) = true
  /\ (forall i, from <= i < idx -> starts_with cs term (skipn i txt) = false).
Proof.
  unfold indexOf. destruct (Nat.leb_spec from (length txt)); [|discriminate].
  intros h. apply index_from_hit in h as (j & -> & le & sw & first).
  rewrite skipn_skipn in sw. rewrite (Nat.add_comm from j). split; [exact sw|].
  intros i [lo hi]. specialize (first (i - from) ltac:(lia)).
  rewrite skipn_skipn in first. now replace (i - from + from) with i in first by lia.
Qed.

Lemma find_rel_bounds prev rest term flags :
  forall fuel k s e,
    find_rel fuel prev rest term flags k = Done (Some (s, e)) ->
    k <= s /\ e = s + length term /\ e <= length rest
    /\ starts_with (FindCaseSensitively flags) term (skipn s rest) = true.
Proof.
  induction fuel as [|fuel IH]; intros k s e; simpl; [discriminate|].
  destruct (Nat.leb_spec k (length rest)); [|discriminate].
  destruct (indexOf _ term rest k) as [j|] eqn:hj; [|discriminate].
  pose proof (indexOf_bounds _ _ _ _ _ hj) as [b1 b2].
  destruct (FindWholeWords flags && _).
  - intros h. apply IH in h. intuition lia.
  - intros [= <- <-]. apply indexOf_hit in hj as [sw _]. intuition lia.
Qed.

(** The search of a non-empty term always ends on the fuel [find_at]
    gives it: a null cursor is a search that found nothing. *)
Lemma find_loop_ends doc term flags from :
  0 < length term ->
  exists r, find_loop (S (length doc)) doc term flags from = Done r.
Proof.
  intros nonempty.
  pose proof (find_loop_rel (S (length doc)) [] doc term flags from) as h.
  cbn [app length Nat.add] in h. rewrite h.
  destruct (Nat.le_gt_cases from (length doc)) as [inside|past].
  - destruct (find_rel_fuel (last_class []) doc term flags nonempty
                (S (length doc)) (S (length doc)) from) as [_ [r ->]]; try lia.
    eexists. reflexivity.
  - exists None. cbn [find_rel].
    replace (from <=? length doc) with false by (symmetry; apply Nat.leb_gt; lia).
    reflexivity.
Qed.

(** Without the whole-word option the context plays no part. *)
Lemma find_rel_prev fuel p p' rest term flags k :
  FindWholeWords flags = false \/ p = p' ->
  find_rel fuel p rest term flags k = find_rel fuel p' rest term flags k.
Proof.
  intros [ww| ->]; [|reflexivity].
  revert k. induction fuel as [|fuel IH]; intros k; simpl; [reflexivity|].
  rewrite ww. reflexivity.
Qed.

Lemma usable_length term : usable term = true -> 0 < length term.
Proof. destruct term; simpl; [discriminate|lia]. Qed.

(** [find_at] inside [a ++ rest], from an offset in [rest]. *)
Lemma find_at_rel a rest term flags k :
  find_at (a ++ rest) term (length a + k) flags
  = if usable term then
      match find_rel (S (length rest)) (last_class a) rest term flags k with
      | Done (Some (s, e)) => Some (mkCursor (length a + s) (length a + e))
      | _ => None
      end
    else None.
Proof.
  unfold find_at, usable.
  destruct (PyStr.truthy term) eqn:tr; [|reflexivity].
  destruct (existsb Chars.is_line_break term) eqn:nl; [reflexivity|].
  cbn [negb orb andb].
  assert (0 < length term) as nonempty by (destruct term; [discriminate|simpl; lia]).
  rewrite find_loop_rel.
  destruct (find_rel_fuel (last_class a) rest term flags nonempty
              (S (length (a ++ rest))) (S (length rest)) k) as [-> _];
    try rewrite length_app; try lia.
  destruct (find_rel _ _ rest term flags k) as [[[s e]|]| |]; reflexivity.
Qed.

Lemma find_at_bounds doc term from flags c :
  find_at doc term from flags = Some c ->
  from <= anchor c /\ position c = anchor c + length term
  /\ position c <= length doc /\ 0 < length term
  /\ starts_with (FindCaseSensitively flags) term (skipn (anchor c) doc) = true.
Proof.
  pose proof (find_at_rel [] doc term flags from) as h.
  cbn [app length Nat.add] in h. rewrite h.
  destruct (usable term) eqn:us; [|discriminate].
  destruct (find_rel _ _ doc term flags from) as [[[s e]|]| |] eqn:fr; try discriminate.
  intros [= <-]. simpl. apply find_rel_bounds in fr. apply usable_length in us.
  intuition lia.
Qed.

(** The search on small documents: case folding, the whole-word test
    (which lets "fox_" through, an underscore being no letter or number),
    the restart after a refused hit, U+00A0 taken for a space. *)
Example find_at_examples :
  find_at (str "a Fox") (str "fox") 0 (mkFlags false false) = Some (mkCursor 2 5)
  /\ find_at (str "a Fox") (str "fox") 0 (mkFlags true false) = None
  /\ find_at (str "foxy fox_ fox") (str "fox") 0 (mkFlags true true)
     = Some (mkCursor 5 8)
  /\ find_at (str "aa a") (str "a") 0 (mkFlags true true) = Some (mkCursor 3 4)
  /\ find_at [Chars.nbsp] (str " ") 0 (mkFlags true false) = Some (mkCursor 0 1)
  /\ find_at (str "abab") (str "ab") 1 (mkFlags true false) = Some (mkCursor 2 4).
Proof. repeat split. Qed.

End SearchFacts.

(* ------------------------------------------------------------------ *)
(** ** The search: hits, readings, inserted text *)

Section SearchHits.
Import Qt.

Lemma one_line_spec (t : text) :
  one_line t <-> existsb Chars.is_line_break t = false.
Proof.
  unfold one_line. induction t as [|c t IH]; simpl.
  - split; [reflexivity|constructor].
  - rewrite orb_false_iff, <- IH. split.
    + intros h. inversion h; subst. tauto.
    + intros [h1 h2]. now constructor.
Qed.

Lemma usable_one_line (t : text) : usable t = true <-> t <> [] /\ one_line t.
Proof.
  unfold usable. rewrite andb_true_iff, negb_true_iff, <- one_line_spec.
  destruct t; simpl; split; intros [h1 h2]; split;
    try discriminate; try reflexivity; try assumption; contradiction.
Qed.

Lemma one_line_no_return (t : text) :
  one_line t -> ~ In Chars.carriage_return t.
Proof.
  intros ol hin. unfold one_line in ol. rewrite Forall_forall in ol.
  specialize (ol _ hin). unfold Chars.is_line_break, Chars.is_carriage_return in ol.
  rewrite Ascii.eqb_refl, orb_true_r in ol. discriminate.
Qed.

(** A text without U+000D is inserted as it is. *)
Lemma inserted_plain (t : text) :
  ~ In Chars.carriage_return t -> inserted t = t.
Proof.
  induction t as [|c t IH]; simpl; [reflexivity|].
  intros nin. unfold Chars.is_carriage_return.
  destruct (Ascii.eqb_spec c Chars.carriage_return) as [->|ne]; [tauto|].
  f_equal. apply IH. tauto.
Qed.

Lemma inserted_usable (t : text) : usable t = true -> inserted t = t.
Proof.
  intros us. apply inserted_plain, one_line_no_return.
  now apply usable_one_line in us.
Qed.

(** Without the whole-word option the search is [indexOf]. *)
Lemma find_at_plain doc term from cs :
  usable term = true ->
  find_at doc term from (mkFlags cs false)
  = option_map (fun j => mkCursor j (j + length term)) (indexOf cs term doc from).
Proof.
  intros us. unfold find_at. unfold usable in us.
  apply andb_true_iff in us as [tr nl]. apply negb_true_iff in nl.
  rewrite tr, nl. cbn [negb orb find_loop FindWholeWords FindCaseSensitively andb].
  destruct (Nat.leb_spec from (length doc)) as [inside|past].
  - destruct (indexOf cs term doc from); reflexivity.
  - unfold indexOf. replace (from <=? length doc) with false
      by (symmetry; apply Nat.leb_gt; lia).
    reflexivity.
Qed.

Lemma indexOf_miss cs term doc from :
  0 < length term ->
  indexOf cs term doc from = None ->
  forall i, from <= i -> starts_with cs term (skipn i doc) = false.
Proof.
  intros tpos hi i ge.
  destruct (starts_with cs term (skipn i doc)) eqn:swi; [exfalso|reflexivity].
  unfold indexOf in hi.
  destruct (Nat.leb_spec from (length doc)) as [le|gt].
  - pose proof (index_from_miss _ _ _ _ hi (i - from)) as miss.
    rewrite skipn_skipn in miss.
    replace (i - from + from) with i in miss by lia. congruence.
  - apply starts_with_length in swi. rewrite length_skipn in swi. lia.
Qed.

(** A hit of the search with whole words passed the whole-word test. *)
Lemma find_rel_accepts prev rest term flags :
  forall fuel k s e,
    find_rel fuel prev rest term flags k = Done (Some (s, e)) ->
    FindWholeWords flags = true ->
    not_whole_word_rel prev rest s e = false.
Proof.
  induction fuel as [|fuel IH]; intros k s e; simpl; [discriminate|].
  destruct (Nat.leb_spec k (length rest)); [|discriminate].
  destruct (indexOf _ term rest k) as [j|] eqn:hj; [|discriminate].
  intros run ww. rewrite ww in run. cbn [andb] in run.
  destruct (not_whole_word_rel prev rest j (j + length term)) eqn:test.
  - eapply IH; eassumption.
  - injection run as <- <-. exact test.
Qed.

Lemma not_whole_word_start doc j e :
  not_whole_word doc j e = not_whole_word_rel (last_class []) doc j e.
Proof. exact (not_whole_word_app [] doc j e). Qed.

Lemma find_at_accepts doc term from flags c :
  find_at doc term from flags = Some c ->
  FindWholeWords flags = true ->
  not_whole_word doc (anchor c) (position c) = false.
Proof.
  pose proof (find_at_rel [] doc term flags from) as h.
  cbn [app length Nat.add] in h. rewrite h.
  destruct (usable term); [|discriminate].
  destruct (find_rel _ _ doc term flags from) as [[[s e]|]| |] eqn:fr; try discriminate.
  intros [= <-] ww. cbn [anchor position]. rewrite not_whole_word_start.
  eapply find_rel_accepts; eassumption.
Qed.

(** What the search returns, read off the document. *)
Lemma find_at_next_hit flags term doc from :
  next_hit flags term doc from (find_at doc term from flags).
Proof.
  split; [reflexivity|].
  destruct (find_at doc term from flags) as [c|] eqn:hit.
  - pose proof (find_at_bounds _ _ _ _ _ hit) as (lo & hpos & hi & tpos & sw).
    repeat (split; [assumption|]). split.
    + intros ww. eapply find_at_accepts; eassumption.
    + intros ww i rng. destruct flags as [cs w]. cbn in ww. subst w.
      cbn [FindCaseSensitively] in *. unfold found_at.
      rewrite find_at_plain in hit.
      * destruct (indexOf cs term doc from) as [j|] eqn:hj; [|discriminate].
        injection hit as <-. cbn [anchor] in rng.
        apply indexOf_hit in hj as [_ first]. rewrite first by lia. discriminate.
      * unfold find_at in hit. unfold usable.
        destruct (PyStr.truthy term); [|discriminate].
        destruct (existsb Chars.is_line_break term); [discriminate|reflexivity].
  - intros ww us i ge. destruct flags as [cs w]. cbn in ww. subst w.
    cbn [FindCaseSensitively]. unfold found_at.
    rewrite find_at_plain in hit by exact us.
    destruct (indexOf cs term doc from) as [j|] eqn:hj; [discriminate|].
    rewrite (indexOf_miss _ _ _ _ (usable_length _ us) hj) by exact ge. discriminate.
Qed.

(** The toolkit's comparison against the reading of the document. *)
Lemma char_eqb_fold cs d t :
  char_eqb cs d t = true <-> Spec.fold cs d = Spec.fold cs t.
Proof. unfold char_eqb, Spec.fold. destruct cs; apply Ascii.eqb_eq. Qed.

Lemma same_text_fold cs a b :
  same_text cs a b <-> map (Spec.fold cs) a = map (Spec.fold cs) b.
Proof.
  unfold same_text, Spec.fold. destruct cs; [|reflexivity].
  now rewrite !map_id.
Qed.

Lemma block_char_other c : c <> Chars.nbsp -> block_char c = c.
Proof.
  unfold block_char. destruct (Ascii.eqb_spec c Chars.nbsp); [contradiction|reflexivity].
Qed.

Lemma starts_with_reads cs term d :
  ~ In Chars.nbsp d ->
  starts_with cs term d = true <-> same_text cs (firstn (length term) d) term.
Proof.
  rewrite same_text_fold. revert d.
  induction term as [|t term IH]; intros [|c d] nn; simpl;
    try (split; [reflexivity|reflexivity]); try (split; discriminate).
  rewrite andb_true_iff, char_eqb_fold, (IH d) by (intros h; apply nn; now right).
  rewrite block_char_other by (intros ->; apply nn; now left).
  split; [intros [-> ->]; reflexivity|intros [= -> ->]; split; reflexivity].
Qed.

Lemma slice_from (doc : text) i n :
  PyStr.slice doc i (i + n) = firstn n (skipn i doc).
Proof. unfold PyStr.slice. now replace (i + n - i) with n by lia. Qed.

Lemma in_skipn (c : ascii) n (l : text) : In c (skipn n l) -> In c l.
Proof. intros h. rewrite <- (firstn_skipn n l). apply in_or_app. now right. Qed.

Lemma found_reads cs term doc i :
  ~ In Chars.nbsp doc ->
  found_at cs term doc i <-> reads_at cs term doc i.
Proof.
  intros nn. unfold found_at, reads_at. rewrite slice_from.
  apply starts_with_reads. intros h. apply nn. eapply in_skipn; eassumption.
Qed.

Lemma eqb_spec_text (a b : text) : PyStr.eqb a b = true <-> a = b.
Proof.
  unfold PyStr.eqb. destruct (list_eq_dec ascii_dec a b); split;
    try reflexivity; try discriminate; tauto.
Qed.

Lemma matches_at_reads cs buffer term i :
  Spec.matches_at cs buffer term i = true <-> reads_at cs term buffer i.
Proof.
  unfold Spec.matches_at, reads_at. now rewrite eqb_spec_text, same_text_fold.
Qed.

End SearchHits.

(* ------------------------------------------------------------------ *)
(** ** The highlight-all scan *)

Section HighlightAll.
Import Qt UI.

Lemma perform_find_loop_chain doc term flags :
  forall fuel cursor matches selections,
    0 < fuel -> length doc < fuel + selectionEnd cursor ->
    exists cs,
      perform_find_loop fuel doc term flags cursor matches selections
      = Done (matches ++ map selectionStart cs, selections ++ cs)
      /\ chained (length term) (length doc) (selectionEnd cursor) cs.
Proof.
  induction fuel as [|fuel IH]; intros cursor matches selections pos lt; [lia|].
  simpl. unfold find.
  destruct (find_at doc term (selectionEnd cursor) flags) as [c|] eqn:hit.
  - apply find_at_bounds in hit as (lo & hpos & hi & nonempty & _).
    assert (selectionEnd c = position c) as se by (unfold selectionEnd; lia).
    assert (selectionStart c = anchor c) as ss by (unfold selectionStart; lia).
    destruct (IH c (matches ++ [selectionStart c]) (selections ++ [c]))
      as (cs & run & chain); try lia.
    exists (c :: cs). split.
    + rewrite run. simpl. now rewrite <- !app_assoc.
    + simpl. rewrite se in chain. auto.
  - exists []. simpl. rewrite !app_nil_r. auto.
Qed.

Lemma chained_spans term_len doc_len :
  0 < term_len ->
  forall cs lo,
    chained term_len doc_len lo cs ->
    map selectionStart cs = map fst (map span cs)
    /\ Forall (fun sp => lo <= fst sp /\ fst sp < snd sp <= doc_len
                         /\ snd sp = fst sp + term_len) (map span cs)
    /\ ForallOrdPairs (fun a b => snd a <= fst b) (map span cs)
    /\ StronglySorted (fun a b => fst a < fst b) (map span cs).
Proof.
  intros nonempty. induction cs as [|c cs IH]; intros lo; simpl.
  - intros _. repeat split; constructor.
  - intros (hlo & hpos & hi & chain).
    destruct (IH _ chain) as (starts & each & apart & sorted).
    assert (span c = (anchor c, position c)) as sp
      by (unfold span, selectionStart, selectionEnd; f_equal; lia).
    rewrite sp. cbn [fst snd]. split; [|split; [|split]].
    + rewrite <- starts. reflexivity.
    + constructor; [cbn [fst snd]; lia|].
      eapply Forall_impl; [|exact each]. cbn beta. intros [s e]. cbn [fst snd]. lia.
    + constructor; [|exact apart].
      eapply Forall_impl; [|exact each]. cbn beta. intros [s e]. cbn [fst snd]. lia.
    + constructor; [exact sorted|].
      eapply Forall_impl; [|exact each]. cbn beta. intros [s e]. cbn [fst snd]. lia.
Qed.

(** [perform_find] with an editor and a term that is not blank: the loop
    ends, and the window holds the chained hits of the stripped term. *)
Lemma perform_find_hits w editor :
  current_editor w = Some editor ->
  PyStr.strip (find_input w) <> [] ->
  exists cs w' c',
    perform_find w = Done w'
    /\ chained (length (PyStr.strip (find_input w))) (length (document editor)) 0 cs
    /\ find_matches w' = map selectionStart cs
    /\ current_editor w' = Some (mkEditor (document editor) c' cs)
    /\ current_match_index w' = match cs with [] => (-1)%Z | _ :: _ => 0%Z end
    /\ find_input w' = find_input w
    /\ find_case_sensitive w' = find_case_sensitive w.
Proof.
  intros hed hterm. unfold perform_find. rewrite hed.
  destruct (PyStr.strip (find_input w)) as [|t term] eqn:st; [contradiction|].
  cbn [PyStr.truthy negb].
  set (doc := document editor).
  destruct (perform_find_loop_chain doc (t :: term)
              (mkFlags (find_case_sensitive w) false)
              (S (length doc)) (setPosition doc 0 (mkCursor 0 0)) [] [])
    as (cs & run & chain); try lia.
  rewrite run. cbn [bind app].
  assert (selectionEnd (setPosition doc 0 (mkCursor 0 0)) = 0) as z
    by (unfold setPosition; destruct (0 <=? length doc); reflexivity).
  rewrite z in chain.
  destruct cs as [|c cs].
  - exists [], (showMessage
                  (set_editor (set_find_state (set_find_state w [] (-1)%Z) [] (-1)%Z)
                              (setExtraSelections editor [])) NoMatchesFound),
           (textCursor editor).
    cbn. repeat split; auto.
  - cbn [map find_matches set_editor set_find_state].
    unfold jump_to_match. cbn [current_editor find_matches set_find_state].
    cbn [py_index length nth_error Z.ltb Z.to_nat Z.compare bind].
    eexists (c :: cs), _, _. split; [reflexivity|].
    split; [exact chain|]. cbn. repeat split; auto.
Qed.

(** C1.  For every buffer and every term that is not blank, the
    highlight-all scan ends and its match set is made of spans of the
    length of the (stripped) term, inside the buffer, where of any two spans
    the earlier ends at or before the start of the later (no overlap) and
    the starts are strictly ascending; the recorded match positions are the
    starts of these spans.  In "abcabcabc" the term "abcabc" has exactly one
    match, the span (0, 6). *)
Theorem find_all_non_overlapping :
  (forall w editor,
      current_editor w = Some editor ->
      PyStr.strip (find_input w) <> [] ->
      exists w' editor',
        perform_find w = Done w'
        /\ current_editor w' = Some editor'
        /\ document editor' = document editor
        /\ find_matches w' = map fst (highlighted editor')
        /\ Forall (fun sp => fst sp < snd sp <= length (document editor)
                             /\ snd sp = fst sp + length (PyStr.strip (find_input w)))
                  (highlighted editor')
        /\ ForallOrdPairs (fun a b => snd a <= fst b) (highlighted editor')
        /\ StronglySorted (fun a b => fst a < fst b) (highlighted editor'))
  /\ (forall match_case,
         exists w',
           perform_find (fresh_window (str "abcabcabc") (str "abcabc") match_case)
           = Done w'
           /\ find_matches w' = [0]
           /\ window_highlights w' = Some [(0, 6)]).
Proof.
  split.
  - intros w editor hed hterm.
    destruct (perform_find_hits w editor hed hterm)
      as (cs & w' & c' & run & chain & hm & he & _).
    assert (0 < length (PyStr.strip (find_input w))) as nonempty
      by (destruct (PyStr.strip (find_input w)); [contradiction|simpl; lia]).
    destruct (chained_spans _ _ nonempty cs 0 chain) as (starts & each & apart & sorted).
    exists w', (mkEditor (document editor) c' cs).
    unfold highlighted. cbn [extraSelections document].
    repeat (split; [first [assumption | reflexivity | congruence]|]).
    split; [|split; assumption].
    eapply Forall_impl; [|exact each]. cbn beta. intros [s e]. cbn [fst snd]. lia.
  - intros [|]; eexists; (split; [vm_compute; reflexivity|]); split; reflexivity.
Qed.

Lemma find_all_non_overlapping_witness :
  exists w' editor',
    perform_find (fresh_window (str "abcabcabc") (str "abcabc") false) = Done w'
    /\ current_editor w' = Some editor'
    /\ document editor' = str "abcabcabc"
    /\ find_matches w' = map fst (highlighted editor')
    /\ Forall (fun sp => fst sp < snd sp <= 9 /\ snd sp = fst sp + 6)
              (highlighted editor')
    /\ ForallOrdPairs (fun a b => snd a <= fst b) (highlighted editor')
    /\ StronglySorted (fun a b => fst a < fst b) (highlighted editor').
Proof.
  apply (proj1 find_all_non_overlapping
               (fresh_window (str "abcabcabc") (str "abcabc") false)
               (mkEditor (str "abcabcabc") (mkCursor 0 0) [])).
  - reflexivity.
  - vm_compute. discriminate.
Defined.

(** *** Blank terms *)

Lemma lstrip_blank s :
  Forall (fun c => Chars.py_isspace c = true) s -> PyStr.lstrip s = [].
Proof.
  induction 1 as [|c s hc _ IH]; simpl; [reflexivity|]. now rewrite hc.
Qed.

Lemma strip_blank s :
  Forall (fun c => Chars.py_isspace c = true) s -> PyStr.strip s = [].
Proof.
  intros h. unfold PyStr.strip. now rewrite (lstrip_blank s h).
Qed.

Lemma lstrip_head s :
  match PyStr.lstrip s with
  | [] => True
  | c :: _ => Chars.py_isspace c = false
  end.
Proof.
  induction s as [|c s IH]; simpl; [exact I|].
  destruct (Chars.py_isspace c) eqn:sp; [exact IH|exact sp].
Qed.

Lemma lstrip_fixed s :
  match s with [] => True | c :: _ => Chars.py_isspace c = false end ->
  PyStr.lstrip s = s.
Proof. destruct s as [|c s]; simpl; [reflexivity|]. now intros ->. Qed.

Lemma lstrip_idempotent s : PyStr.lstrip (PyStr.lstrip s) = PyStr.lstrip s.
Proof. apply lstrip_fixed, lstrip_head. Qed.

(** Dropping blanks at the end keeps the first character of a text that
    does not start with a blank. *)
Lemma lstrip_snoc_head s c x :
  Chars.py_isspace c = false ->
  exists y, PyStr.lstrip (s ++ [c] ++ x) = y ++ [c] ++ x.
Proof.
  intros hc. induction s as [|d s [y IH]]; simpl.
  - rewrite hc. now exists [].
  - destruct (Chars.py_isspace d); [now exists y | now exists (d :: s)].
Qed.

Lemma rstrip_head c s :
  Chars.py_isspace c = false ->
  exists y, PyStr.rstrip (c :: s) = c :: y.
Proof.
  intros hc. unfold PyStr.rstrip. simpl.
  destruct (lstrip_snoc_head (rev s) c [] hc) as [y hy].
  simpl in hy. rewrite hy, rev_app_distr. simpl. now exists (rev y).
Qed.

Lemma strip_idempotent s : PyStr.strip (PyStr.strip s) = PyStr.strip s.
Proof.
  unfold PyStr.strip.
  pose proof (lstrip_head s) as hd.
  destruct (PyStr.lstrip s) as [|c x] eqn:ls.
  - reflexivity.
  - destruct (rstrip_head c x hd) as [y hy]. rewrite hy.
    rewrite (lstrip_fixed (c :: y)) by exact hd.
    rewrite <- hy. unfold PyStr.rstrip.
    now rewrite rev_involutive, lstrip_idempotent.
Qed.

(** C10.  The highlight-all search works on the stripped term: a find
    field that is empty or holds only whitespace makes [perform_find] return
    before any search, with the match set, the current index and the
    editor (document, cursor, highlights) as they were; and searching with a
    term or with the same term stripped gives the same match set, index and
    highlights. *)
Theorem perform_find_blank_term :
  (forall w,
      Forall (fun c => Chars.py_isspace c = true) (find_input w) ->
      exists w',
        perform_find w = Done w'
        /\ find_matches w' = find_matches w
        /\ current_match_index w' = current_match_index w
        /\ current_editor w' = current_editor w)
  /\ (forall w,
         let ws := with_find_input w (PyStr.strip (find_input w)) in
         map_outcome (fun w' => (find_matches w', current_match_index w',
                                 window_highlights w', statusBar w'))
                     (perform_find w)
         = map_outcome (fun w' => (find_matches w', current_match_index w',
                                   window_highlights w', statusBar w'))
                       (perform_find ws)).
Proof.
  split.
  - intros w blank. unfold perform_find.
    destruct (current_editor w) as [editor|] eqn:hed.
    + rewrite (strip_blank _ blank). cbn. eexists. split; [reflexivity|].
      cbn. auto.
    + exists w. auto.
  - intros w ws. subst ws. unfold perform_find, with_find_input.
    cbn [current_editor find_input find_case_sensitive].
    destruct (current_editor w) as [editor|] eqn:hed;
      [|cbn; unfold window_highlights; cbn; now rewrite hed].
    rewrite strip_idempotent.
    destruct (PyStr.strip (find_input w)) as [|t term];
      [cbn; unfold window_highlights; cbn; now rewrite hed|].
    cbn [PyStr.truthy negb].
    destruct (perform_find_loop _ _ _ _ _ _ _) as [[ms sels]| |]; [|reflexivity..].
    cbn [bind]. destruct ms as [|m ms]; reflexivity.
Qed.

Lemma perform_find_blank_term_witness :
  exists w',
    perform_find (fresh_window (str "a b") (str "  ") false) = Done w'
    /\ find_matches w' = []
    /\ current_match_index w' = (-1)%Z
    /\ current_editor w' = Some (mkEditor (str "a b") (mkCursor 0 0) []).
Proof.
  apply (proj1 perform_find_blank_term (fresh_window (str "a b") (str "  ") false)).
  repeat constructor.
Defined.

End HighlightAll.

(* ------------------------------------------------------------------ *)
(** ** Next and previous match *)

Section Navigation.
Import Qt UI.

Lemma py_index_in_range {A : Type} (l : list A) (i : Z) :
  (0 <= i < Z.of_nat (length l))%Z -> exists a, py_index l i = Done a.
Proof.
  intros rng. unfold py_index.
  replace (i <? 0)%Z with false by (symmetry; apply Z.ltb_ge; lia).
  replace (i <? 0)%Z with false by (symmetry; apply Z.ltb_ge; lia).
  destruct (nth_error l (Z.to_nat i)) as [a|] eqn:hn; [now exists a|].
  apply nth_error_None in hn. lia.
Qed.

Lemma jump_to_match_state w i :
  (0 <= i < Z.of_nat (length (find_matches w)))%Z ->
  exists w',
    jump_to_match w i = Done w'
    /\ find_matches w' = find_matches w
    /\ current_match_index w' = current_match_index w.
Proof.
  intros rng. unfold jump_to_match.
  destruct (current_editor w) as [editor|]; [|now exists w].
  destruct (find_matches w) as [|m ms] eqn:hm; [now exists w|].
  destruct (py_index_in_range (m :: ms) i rng) as [p ->].
  cbn [bind]. eexists. split; [reflexivity|]. cbn. auto.
Qed.

(** The first turn of the loop of [perform_find] decides whether there
    are matches. *)
Lemma perform_find_loop_head doc term flags fuel cursor :
  length doc < S fuel + selectionEnd cursor ->
  exists cs,
    perform_find_loop (S fuel) doc term flags cursor [] [] = Done (map selectionStart cs, cs)
    /\ match find_at doc term (selectionEnd cursor) flags with
       | Some c => exists cs', cs = c :: cs'
       | None => cs = []
       end.
Proof.
  intros lt. cbn [perform_find_loop]. unfold find.
  destruct (find_at doc term (selectionEnd cursor) flags) as [c|] eqn:hit.
  - apply find_at_bounds in hit as (lo & hpos & hi & nonempty & _).
    assert (selectionEnd c = position c) as se by (unfold selectionEnd; lia).
    destruct fuel as [|fuel]; [lia|].
    destruct (perform_find_loop_chain doc term flags (S fuel) c
                ([] ++ [selectionStart c]) ([] ++ [c])) as (cs & run & _); try lia.
    exists (c :: cs). split; [|now exists cs]. rewrite run. reflexivity.
  - exists []. split; reflexivity.
Qed.

(** [perform_find] with an editor and a term that is not blank is a
    fresh search: what it leaves depends on the hit of the search from the
    start of the document. *)
Lemma perform_find_fresh w editor :
  current_editor w = Some editor ->
  PyStr.strip (find_input w) <> [] ->
  exists w' editor',
    perform_find w = Done w'
    /\ current_editor w' = Some editor'
    /\ document editor' = document editor
    /\ find_matches w' = map fst (highlighted editor')
    /\ match find_at (document editor) (PyStr.strip (find_input w)) 0
                    (mkFlags (find_case_sensitive w) false) with
       | Some c =>
           exists rest,
             find_matches w' = anchor c :: rest
             /\ current_match_index w' = 0%Z
             /\ statusBar w' = Some (FoundMatches (S (length rest)))
       | None =>
           find_matches w' = []
           /\ current_match_index w' = (-1)%Z
           /\ statusBar w' = Some NoMatchesFound
           /\ textCursor editor' = textCursor editor
       end.
Proof.
  intros hed hterm. unfold perform_find. rewrite hed.
  destruct (PyStr.strip (find_input w)) as [|t term] eqn:st; [contradiction|].
  cbn [PyStr.truthy negb].
  set (doc := document editor). set (flags := mkFlags _ false).
  assert (selectionEnd (setPosition doc 0 (mkCursor 0 0)) = 0) as z
    by (unfold setPosition; destruct (0 <=? length doc); reflexivity).
  destruct (perform_find_loop_head doc (t :: term) flags (length doc)
              (setPosition doc 0 (mkCursor 0 0))) as (cs & run & head); [lia|].
  rewrite z in head. rewrite run. cbn [bind].
  destruct (find_at doc (t :: term) 0 flags) as [c|] eqn:hit.
  - destruct head as [cs' ->].
    apply find_at_bounds in hit as (_ & hpos & _).
    cbn [map find_matches set_editor set_find_state].
    unfold jump_to_match. cbn [current_editor find_matches set_find_state set_editor].
    change (py_index (selectionStart c :: map selectionStart cs') 0%Z)
      with (Done (selectionStart c)). cbn [bind].
    eexists _, _. split; [reflexivity|].
    cbn [current_editor showMessage set_editor document setTextCursor setExtraSelections
         find_matches current_match_index statusBar set_find_state].
    split; [reflexivity|]. split; [reflexivity|]. split.
    + unfold highlighted. cbn [extraSelections map]. unfold span. cbn [fst].
      f_equal. rewrite map_map. reflexivity.
    + exists (map selectionStart cs'). split; [|split; reflexivity].
      f_equal. unfold selectionStart. lia.
  - subst cs. cbn [map find_matches set_editor set_find_state].
    eexists _, _. split; [reflexivity|].
    cbn [current_editor showMessage set_editor document setTextCursor setExtraSelections
         find_matches current_match_index statusBar set_find_state].
    repeat split.
Qed.

(** C6, as the code has it.  On a match set that is not empty, [find_next]
    sets the current index to (current + 1) mod count, which is 0 past the
    last match, and [find_previous] sets it to (current - 1) mod count,
    which is the last match from index 0; the match set stays.  On an empty
    match set the two do the same thing, the highlight-all search of
    [perform_find].  Without an editor nothing changes.  With an editor and
    a blank find field nothing is searched: match set, index and editor stay
    as they were and only "Please enter text to search" is shown.  With an
    editor and a find field that is not blank the state is that of a fresh
    search of the stripped field, decided by the toolkit's search from the
    start of the document: when it has a hit, the match set begins with that
    hit, the index is 0 and "Found n matches" is shown; when it has none,
    the match set is empty, the index is -1, "No matches found" is shown and
    the cursor stays.  Either way the recorded matches are the starts of the
    highlights. *)
Theorem find_next_previous_cycle :
  (forall w,
      find_matches w <> [] ->
      let n := Z.of_nat (length (find_matches w)) in
      exists wn wp,
        find_next w = Done wn
        /\ find_previous w = Done wp
        /\ find_matches wn = find_matches w
        /\ find_matches wp = find_matches w
        /\ current_match_index wn = ((current_match_index w + 1) mod n)%Z
        /\ current_match_index wp = ((current_match_index w - 1) mod n)%Z
        /\ (current_match_index w = (n - 1)%Z -> current_match_index wn = 0%Z)
        /\ (current_match_index w = 0%Z -> current_match_index wp = (n - 1)%Z))
  /\ (forall w,
         find_matches w = [] ->
         find_previous w = find_next w
         /\ (current_editor w = None -> find_next w = Done w)
         /\ (forall editor,
                current_editor w = Some editor ->
                PyStr.strip (find_input w) = [] ->
                exists w',
                  find_next w = Done w'
                  /\ find_matches w' = find_matches w
                  /\ current_match_index w' = current_match_index w
                  /\ current_editor w' = current_editor w
                  /\ statusBar w' = Some PleaseEnterText)
         /\ (forall editor,
                current_editor w = Some editor ->
                PyStr.strip (find_input w) <> [] ->
                let term := PyStr.strip (find_input w) in
                let flags := mkFlags (find_case_sensitive w) false in
                let doc := document editor in
                exists w' editor',
                  find_next w = Done w'
                  /\ current_editor w' = Some editor'
                  /\ document editor' = doc
                  /\ find_matches w' = map fst (highlighted editor')
                  /\ ((exists c rest,
                          next_hit flags term doc 0 (Some c)
                          /\ find_matches w' = anchor c :: rest
                          /\ current_match_index w' = 0%Z
                          /\ statusBar w' = Some (FoundMatches (S (length rest))))
                      \/ (next_hit flags term doc 0 None
                          /\ find_matches w' = []
                          /\ current_match_index w' = (-1)%Z
                          /\ statusBar w' = Some NoMatchesFound
                          /\ textCursor editor' = textCursor editor)))).
Proof.
  split.
  - intros w nonempty n.
    assert (0 < n)%Z as npos
        by (subst n; destruct (find_matches w); [contradiction|simpl length; lia]).
    unfold find_next, find_previous.
    destruct (find_matches w) as [|m ms] eqn:hm; [contradiction|].
    fold n.
    destruct (jump_to_match_state
                (set_find_state w (m :: ms) ((current_match_index w + 1) mod n)%Z)
                ((current_match_index w + 1) mod n)%Z) as (wn & hn & mn & inx);
      [cbn [find_matches set_find_state]; fold n; apply Z.mod_pos_bound; lia|].
    destruct (jump_to_match_state
                (set_find_state w (m :: ms) ((current_match_index w - 1) mod n)%Z)
                ((current_match_index w - 1) mod n)%Z) as (wp & hp & mp & ipx);
      [cbn [find_matches set_find_state]; fold n; apply Z.mod_pos_bound; lia|].
    exists wn, wp. cbn [current_match_index set_find_state] in *.
    rewrite hn, hp, inx, ipx. repeat split; try assumption.
    + intros ->. replace (n - 1 + 1)%Z with (1 * n)%Z by lia. apply Z.mod_mul. lia.
    + intros ->. replace (0 - 1)%Z with (n - 1 + (-1) * n)%Z by lia.
      rewrite Z.mod_add by lia. apply Z.mod_small. lia.
  - intros w empty.
    assert (find_next w = perform_find w) as next
        by (unfold find_next; now rewrite empty).
    assert (find_previous w = perform_find w) as prev
        by (unfold find_previous; now rewrite empty).
    rewrite prev, next. split; [reflexivity|]. split; [|split].
    + intros none. unfold perform_find. now rewrite none.
    + intros editor hed blank. unfold perform_find. rewrite hed, blank.
      cbn [PyStr.truthy negb]. eexists. split; [reflexivity|].
      cbn. rewrite hed. auto.
    + intros editor hed hterm term flags doc.
      destruct (perform_find_fresh w editor hed hterm)
        as (w' & editor' & run & hed' & hdoc & hm & state).
      exists w', editor'. repeat (split; [assumption|]).
      fold term flags doc in state.
      pose proof (find_at_next_hit flags term doc 0) as hit.
      destruct (find_at doc term 0 flags) as [c|].
      * left. destruct state as (rest & ? & ? & ?). exists c, rest. auto.
      * right. tauto.
Qed.

Lemma find_next_previous_cycle_witness :
  exists wn wp,
    find_next two_match_window = Done wn
    /\ find_previous two_match_window = Done wp
    /\ find_matches wn = [3; 8]
    /\ find_matches wp = [3; 8]
    /\ current_match_index wn = ((1 + 1) mod 2)%Z
    /\ current_match_index wp = ((1 - 1) mod 2)%Z
    /\ (1%Z = (2 - 1)%Z -> current_match_index wn = 0%Z)
    /\ (1%Z = 0%Z -> current_match_index wp = (2 - 1)%Z).
Proof.
  apply (proj1 find_next_previous_cycle two_match_window).
  simpl. discriminate.
Defined.

(** C6, the empty match set: a window whose find field holds "a", over
    the document "a", with no search done yet.  Both operations search, and
    leave one match and the index 0. *)
Lemma find_next_on_empty_searches :
  find_matches unsearched_window = []
  /\ current_match_index unsearched_window = (-1)%Z
  /\ (exists w', find_next unsearched_window = Done w'
                 /\ find_matches w' = [0] /\ current_match_index w' = 0%Z)
  /\ (exists w', find_previous unsearched_window = Done w'
                 /\ find_matches w' = [0] /\ current_match_index w' = 0%Z).
Proof.
  split; [reflexivity|]. split; [reflexivity|].
  split; eexists; (split; [vm_compute; reflexivity|]); split; reflexivity.
Qed.

End Navigation.

(* ------------------------------------------------------------------ *)
(** ** Replace all *)

Section ReplaceAll.
Import Qt UI.

Lemma isLetterOrNumber_block_char c :
  Chars.isLetterOrNumber (block_char c) = Chars.isLetterOrNumber c.
Proof. destruct c as [[] [] [] [] [] [] [] []]; reflexivity. Qed.

Lemma isLetterOrNumber_folded c :
  Chars.isLetterOrNumber (Chars.toCaseFolded c) = Chars.isLetterOrNumber c.
Proof. destruct c as [[] [] [] [] [] [] [] []]; reflexivity. Qed.

(** Characters the search takes for equal are of the same class. *)
Lemma char_eqb_class cs c t :
  char_eqb cs (block_char c) t = true ->
  Chars.isLetterOrNumber (block_char c) = Chars.isLetterOrNumber (block_char t).
Proof.
  unfold char_eqb. destruct cs; intros h; apply Ascii.eqb_eq in h.
  - rewrite h. symmetry. apply isLetterOrNumber_block_char.
  - rewrite (isLetterOrNumber_block_char t).
    rewrite <- (isLetterOrNumber_folded (block_char c)), h.
    apply isLetterOrNumber_folded.
Qed.

Lemma starts_with_nth cs term d :
  starts_with cs term d = true ->
  forall k t, nth_error term k = Some t ->
              exists c, nth_error d k = Some c
                        /\ char_eqb cs (block_char c) t = true.
Proof.
  revert d. induction term as [|t0 term IH]; intros d h k t hk.
  - destruct k; discriminate.
  - destruct d as [|c0 d]; simpl in h; [discriminate|].
    apply andb_true_iff in h as [h1 h2]. destruct k as [|k]; simpl in hk.
    + injection hk as <-. exists c0. split; [reflexivity|exact h1].
    + simpl. eapply IH; eassumption.
Qed.

Lemma last_class_app a b : b <> [] -> last_class (a ++ b) = last_class b.
Proof.
  intros nonempty. unfold last_class, letter_or_number_at.
  assert (0 < length b) by (destruct b; [contradiction|simpl; lia]).
  rewrite length_app, nth_error_app2 by lia.
  now replace (length a + length b - 1 - length a) with (length b - 1) by lia.
Qed.

(** The character that ends a hit is of the class of the character that
    ends the term. *)
Lemma hit_last_class cs term rest j :
  0 < length term ->
  starts_with cs term (skipn j rest) = true ->
  letter_or_number_at rest (j + length term - 1) = last_class term.
Proof.
  intros nonempty sw.
  destruct (nth_error term (length term - 1)) as [t|] eqn:ht;
    [|apply nth_error_None in ht; lia].
  destruct (starts_with_nth _ _ _ sw _ _ ht) as (c & hc & same).
  rewrite nth_error_skipn in hc.
  unfold last_class, letter_or_number_at. rewrite ht.
  replace (j + length term - 1) with (j + (length term - 1)) by lia.
  rewrite hc. eapply char_eqb_class; eassumption.
Qed.

Lemma selectionStart_ordered a b :
  a <= b -> selectionStart (mkCursor a b) = a.
Proof. unfold selectionStart. simpl. lia. Qed.

Lemma selectionEnd_ordered a b :
  a <= b -> selectionEnd (mkCursor a b) = b.
Proof. unfold selectionEnd. simpl. lia. Qed.

Lemma find_at_rel_here a rest term flags :
  find_at (a ++ rest) term (length a) flags
  = if usable term then
      match find_rel (S (length rest)) (last_class a) rest term flags 0 with
      | Done (Some (s, e)) => Some (mkCursor (length a + s) (length a + e))
      | _ => None
      end
    else None.
Proof. rewrite <- find_at_rel. f_equal. lia. Qed.

(** The first and the last character of a hit are of the classes of the
    first and the last character of the term. *)
Lemma hit_first_class cs term rest j :
  0 < length term ->
  starts_with cs term (skipn j rest) = true ->
  letter_or_number_at rest j = first_class term.
Proof.
  intros nonempty sw.
  destruct (nth_error term 0) as [t|] eqn:ht;
    [|apply nth_error_None in ht; lia].
  destruct (starts_with_nth _ _ _ sw _ _ ht) as (c & hc & same).
  rewrite nth_error_skipn, Nat.add_0_r in hc.
  unfold first_class, letter_or_number_at. rewrite ht, hc.
  eapply char_eqb_class; eassumption.
Qed.

Lemma first_class_skipn rest e :
  first_class (skipn e rest) = letter_or_number_at rest e.
Proof.
  unfold first_class, letter_or_number_at.
  now rewrite nth_error_skipn, Nat.add_0_r.
Qed.

(** What follows a hit that passed the whole-word test is no letter and
    no number. *)
Lemma accepted_then_no_word prev rest j e :
  not_whole_word_rel prev rest j e = false ->
  first_class (skipn e rest) = false
  /\ (if j =? 0 then prev else letter_or_number_at rest (j - 1)) = false.
Proof.
  unfold not_whole_word_rel. intros h. apply orb_false_iff in h as [h1 h2].
  split; [|exact h1]. rewrite first_class_skipn.
  destruct (Nat.eqb_spec e (length rest)) as [->|ne]; [|exact h2].
  unfold letter_or_number_at.
  now replace (nth_error rest (length rest)) with (@None ascii)
    by (symmetry; apply nth_error_None; lia).
Qed.

(** From an offset past the start, or when the term is not found at the
    start, the context plays no part in the search. *)
Lemma find_rel_inside fuel p p' rest term flags k :
  0 < k \/ starts_with (FindCaseSensitively flags) term rest = false ->
  find_rel fuel p rest term flags k = find_rel fuel p' rest term flags k.
Proof.
  revert k. induction fuel as [|fuel IH]; intros k inside; simpl; [reflexivity|].
  destruct (Nat.leb_spec k (length rest)); [|reflexivity].
  destruct (indexOf _ term rest k) as [j|] eqn:hj; [|reflexivity].
  assert (0 < j) as jpos.
  { pose proof (indexOf_bounds _ _ _ _ _ hj) as [lo _].
    destruct inside as [kpos|miss]; [lia|].
    destruct j as [|j]; [|lia]. apply indexOf_hit in hj as [sw _].
    simpl in sw. congruence. }
  unfold not_whole_word_rel.
  replace (j =? 0) with false by (symmetry; apply Nat.eqb_neq; lia).
  destruct (FindWholeWords flags && _); [|reflexivity].
  apply IH. left. lia.
Qed.

Lemma find_rel_context fuel p p' rest term flags :
  0 < length term ->
  FindWholeWords flags = false \/ p = p'
  \/ (first_class term = true /\ first_class rest = false) ->
  find_rel fuel p rest term flags 0 = find_rel fuel p' rest term flags 0.
Proof.
  intros tpos [ww|[same|[tc rc]]].
  - apply find_rel_prev. now left.
  - apply find_rel_prev. now right.
  - apply find_rel_inside. right.
    destruct (starts_with _ term rest) eqn:sw; [exfalso|reflexivity].
    pose proof (hit_first_class _ term rest 0 tpos sw) as cl.
    unfold first_class in rc. congruence.
Qed.

(** One turn of the loop of [dialog_replace_all], whatever the flags:
    either the search finds nothing and the loop ends, or a hit
    [j, j + length term) of [rest] is replaced by the inserted text and the
    cursor is put after it. *)
Lemma replace_all_loop_turn fuel editor out rest term repl flags count :
  document editor = out ++ rest ->
  (find_at (out ++ rest) term (length out) flags = None
   /\ replace_all_loop (S fuel) editor term repl flags
                       (mkCursor (length out) (length out)) count
      = Done (editor, count))
  \/ exists j editor1,
      usable term = true
      /\ find_rel (S (length rest)) (last_class out) rest term flags 0
         = Done (Some (j, j + length term))
      /\ j + length term <= length rest
      /\ starts_with (FindCaseSensitively flags) term (skipn j rest) = true
      /\ document editor1
         = (out ++ firstn j rest ++ inserted repl) ++ skipn (j + length term) rest
      /\ replace_all_loop (S fuel) editor term repl flags
                          (mkCursor (length out) (length out)) count
         = replace_all_loop fuel editor1 term repl flags
             (mkCursor (length (out ++ firstn j rest ++ inserted repl))
                       (length (out ++ firstn j rest ++ inserted repl)))
             (count + 1).
Proof.
  intros hdoc. cbn [replace_all_loop]. unfold find.
  rewrite selectionEnd_ordered, hdoc by lia.
  destruct (find_at (out ++ rest) term (length out) flags) as [c|] eqn:hit;
    [|left; split; reflexivity].
  right. rewrite find_at_rel_here in hit.
  destruct (usable term) eqn:us; [|discriminate].
  destruct (find_rel (S (length rest)) (last_class out) rest term flags 0)
    as [[[j e]|]| |] eqn:fr; try discriminate.
  injection hit as <-.
  apply find_rel_bounds in fr as (_ & -> & hi & sw).
  unfold editor_insertText, insertText.
  rewrite selectionStart_ordered, selectionEnd_ordered by lia.
  eexists j, _. split; [reflexivity|]. split; [reflexivity|].
  split; [exact hi|]. split; [exact sw|]. split.
  2:{ replace (length (out ++ firstn j rest ++ inserted repl))
        with (length out + j + length (inserted repl))
        by (rewrite !length_app, length_firstn; lia).
      reflexivity. }
  cbn [document]. rewrite hdoc.
  rewrite firstn_app_2, skipn_app, skipn_all2 by lia.
  replace (length out + (j + length term) - length out) with (j + length term) by lia.
  simpl. now rewrite <- !app_assoc.
Qed.

(** The loop of [dialog_replace_all], with the document [out ++ rest]
    and the cursor between [out] and [rest], against the toolkit's search
    run over the unchanged buffer [consumed ++ rest], from the end of
    [consumed]. *)
Lemma replace_all_loop_one_pass term repl flags :
  usable term = true ->
  same_boundary flags term (inserted repl) ->
  forall fuel editor out consumed rest count,
    document editor = out ++ rest ->
    FindWholeWords flags = false \/ last_class out = last_class consumed
    \/ (first_class term = true /\ first_class rest = false) ->
    length rest < fuel ->
    exists spans editor',
      scan_from fuel (consumed ++ rest) term flags (length consumed) = Done spans
      /\ replace_all_loop fuel editor term repl flags
                          (mkCursor (length out) (length out)) count
         = Done (editor', count + length spans)
      /\ document editor'
         = out ++ Spec.substitute (consumed ++ rest) (length consumed) spans
                                  (inserted repl).
Proof.
  intros us boundary.
  pose proof (usable_length _ us) as nonempty.
  induction fuel as [|fuel IH]; intros editor out consumed rest count hdoc ctx lt; [lia|].
  cbn [scan_from]. rewrite find_at_rel_here, us.
  rewrite <- (find_rel_context _ (last_class out) (last_class consumed))
    by assumption.
  destruct (replace_all_loop_turn fuel editor out rest term repl flags count hdoc)
    as [[none stop]|(j & editor1 & _ & fr & hi & sw & hdoc1 & turn)].
  - rewrite find_at_rel_here, us in none.
    destruct (find_rel (S (length rest)) (last_class out) rest term flags 0)
      as [[[j e]|]| |] eqn:fr; try discriminate.
    + exists [], editor. split; [reflexivity|]. rewrite stop.
      split; [f_equal; f_equal; simpl; lia|].
      cbn [Spec.substitute]. rewrite skipn_app, skipn_all2 by lia.
      rewrite Nat.sub_diag. simpl. exact hdoc.
    + exfalso.
      destruct (find_rel_fuel (last_class out) rest term flags nonempty
                  (S (length rest)) (S (length rest)) 0) as [_ [r hr]]; try lia.
      congruence.
    + exfalso.
      destruct (find_rel_fuel (last_class out) rest term flags nonempty
                  (S (length rest)) (S (length rest)) 0) as [_ [r hr]]; try lia.
      congruence.
  - rewrite fr, turn. set (e := j + length term) in *.
    rewrite selectionEnd_ordered by lia. unfold span.
    rewrite selectionStart_ordered, selectionEnd_ordered by lia.
    destruct (IH editor1 (out ++ firstn j rest ++ inserted repl)
                 (consumed ++ firstn e rest) (skipn e rest) (count + 1))
      as (spans & editor' & scan & run & hdoc').
    + exact hdoc1.
    + destruct (FindWholeWords flags) eqn:ww; [right|now left].
      destruct boundary as [?|[[rne rcl]|tc]]; [congruence|left|right].
      * rewrite app_assoc, (last_class_app _ (inserted repl) rne), rcl.
        unfold last_class at 2. rewrite length_app, length_firstn.
        unfold letter_or_number_at.
        rewrite nth_error_app2 by lia.
        replace (length consumed + Nat.min e (length rest) - 1 - length consumed)
          with (e - 1) by lia.
        rewrite nth_error_firstn.
        replace (e - 1 <? e) with true by (symmetry; apply Nat.ltb_lt; lia).
        symmetry. apply (hit_last_class _ _ _ j nonempty sw).
      * split; [exact tc|].
        pose proof (find_rel_accepts _ _ _ _ _ _ _ _ fr ww) as ok.
        now apply accepted_then_no_word in ok as [ok _].
    + rewrite length_skipn. lia.
    + assert ((consumed ++ firstn e rest) ++ skipn e rest = consumed ++ rest) as whole
          by (now rewrite <- app_assoc, firstn_skipn).
      assert (length (consumed ++ firstn e rest) = length consumed + e) as len
          by (rewrite length_app, length_firstn; lia).
      rewrite whole, len in scan, hdoc'.
      rewrite scan. cbn [bind].
      exists ((length consumed + j, length consumed + e) :: spans), editor'.
      split; [reflexivity|]. split.
      * rewrite run. f_equal. f_equal. simpl. lia.
      * rewrite hdoc'. cbn [Spec.substitute]. unfold PyStr.slice.
        rewrite skipn_app, skipn_all2 by lia.
        replace (length consumed + j - length consumed) with j by lia.
        rewrite Nat.sub_diag. simpl. now rewrite <- !app_assoc.
Qed.

(** *** The toolkit's search against the scan of the specification *)

Lemma word_character_plain buffer i :
  ~ In Chars.nbsp buffer -> ~ In Chars.underscore buffer ->
  Spec.word_character_at buffer i = letter_or_number_at buffer i.
Proof.
  unfold Spec.word_character_at, letter_or_number_at.
  destruct (nth_error buffer i) as [c|] eqn:hc; [|reflexivity].
  apply nth_error_In in hc. intros nn nu.
  rewrite block_char_other by (intros ->; contradiction).
  unfold Chars.re_word, Chars.py_isalnum, Chars.isLetterOrNumber.
  destruct (Ascii.eqb_spec c Chars.underscore) as [->|]; [contradiction|].
  now rewrite orb_false_r.
Qed.

Lemma on_word_boundary_plain buffer s e :
  ~ In Chars.nbsp buffer -> ~ In Chars.underscore buffer ->
  Spec.on_word_boundary buffer s e = negb (not_whole_word buffer s e).
Proof.
  intros nn nu. unfold Spec.on_word_boundary, not_whole_word.
  rewrite negb_orb. f_equal.
  - destruct s as [|s]; [reflexivity|]. cbn [Nat.eqb negb andb].
    rewrite word_character_plain by assumption.
    now replace (S s - 1) with s by lia.
  - rewrite word_character_plain by assumption.
    destruct (Nat.eqb_spec e (length buffer)) as [->|ne]; [|reflexivity].
    unfold letter_or_number_at.
    now replace (nth_error buffer (length buffer)) with (@None ascii)
      by (symmetry; apply nth_error_None; lia).
Qed.

Lemma not_found_not_accepted flags buffer term i :
  ~ In Chars.nbsp buffer ->
  starts_with (FindCaseSensitively flags) term (skipn i buffer) = false ->
  Spec.accepted flags buffer term i = false.
Proof.
  intros nn miss. unfold Spec.accepted.
  destruct (Spec.matches_at _ buffer term i) eqn:m; [exfalso|reflexivity].
  apply matches_at_reads, found_reads in m; [|exact nn].
  unfold found_at in m. congruence.
Qed.

Lemma found_matches flags buffer term i :
  ~ In Chars.nbsp buffer ->
  starts_with (FindCaseSensitively flags) term (skipn i buffer) = true ->
  Spec.matches_at (FindCaseSensitively flags) buffer term i = true.
Proof. intros nn sw. now apply matches_at_reads, found_reads. Qed.

(** A position inside a hit of a word, or right after it, is preceded by
    a letter or a number. *)
Lemma inside_word_not_accepted flags buffer term idx i :
  ~ In Chars.nbsp buffer -> ~ In Chars.underscore buffer ->
  letters_and_numbers term ->
  FindWholeWords flags = true ->
  starts_with (FindCaseSensitively flags) term (skipn idx buffer) = true ->
  idx < i <= idx + length term ->
  Spec.accepted flags buffer term i = false.
Proof.
  intros nn nu word ww sw rng. unfold Spec.accepted. rewrite ww.
  cbn [negb orb]. apply andb_false_iff. right. unfold Spec.on_word_boundary.
  destruct i as [|p]; [lia|].
  rewrite word_character_plain by assumption.
  destruct (nth_error term (p - idx)) as [t|] eqn:ht;
    [|apply nth_error_None in ht; lia].
  destruct (starts_with_nth _ _ _ sw _ _ ht) as (c & hc & same).
  rewrite nth_error_skipn in hc. replace (idx + (p - idx)) with p in hc by lia.
  unfold letter_or_number_at. rewrite hc.
  rewrite (char_eqb_class _ _ _ same), isLetterOrNumber_block_char.
  unfold letters_and_numbers in word. rewrite Forall_forall in word.
  rewrite (word t) by (eapply nth_error_In; eassumption). reflexivity.
Qed.

(** Under the conditions of the comparison, the toolkit's search from
    [k] returns the first candidate at or after [k] that the specification
    accepts. *)
Lemma find_rel_first_accepted buffer term flags :
  usable term = true ->
  ~ In Chars.nbsp buffer ->
  FindWholeWords flags = false
  \/ (letters_and_numbers term /\ ~ In Chars.underscore buffer) ->
  forall fuel k r,
    find_rel fuel (last_class []) buffer term flags k = Done r ->
    match r with
    | Some (s, e) =>
        k <= s /\ e = s + length term /\ e <= length buffer
        /\ Spec.accepted flags buffer term s = true
        /\ forall i, k <= i < s -> Spec.accepted flags buffer term i = false
    | None => forall i, k <= i -> Spec.accepted flags buffer term i = false
    end.
Proof.
  intros us nn cond. pose proof (usable_length _ us) as tpos.
  induction fuel as [|fuel IH]; intros k r; simpl; [discriminate|].
  destruct (Nat.leb_spec k (length buffer)) as [inside|past].
  - destruct (indexOf _ term buffer k) as [idx|] eqn:hj.
    + pose proof (indexOf_bounds _ _ _ _ _ hj) as [lo hi].
      pose proof (indexOf_hit _ _ _ _ _ hj) as [sw first].
      rewrite <- not_whole_word_start.
      destruct (FindWholeWords flags) eqn:ww; cbn [andb].
      * destruct cond as [|[word nu]]; [discriminate|].
        destruct (not_whole_word buffer idx (idx + length term)) eqn:test.
        -- intros run. apply IH in run.
           assert (forall i, k <= i <= idx + length term ->
                             Spec.accepted flags buffer term i = false) as skipped.
           { intros i rng.
             destruct (Nat.lt_trichotomy i idx) as [lt|[->|gt]].
             - apply not_found_not_accepted; [exact nn|]. apply first. lia.
             - unfold Spec.accepted. rewrite ww. cbn [negb orb].
               rewrite on_word_boundary_plain, test by assumption.
               apply andb_false_r.
             - apply (inside_word_not_accepted flags buffer term idx); auto. lia. }
           destruct r as [[s e]|].
           ++ destruct run as (lo' & -> & hi' & acc & none).
              repeat split; try lia; try assumption.
              intros i rng.
              destruct (Nat.le_gt_cases i (idx + length term));
                [apply skipped|apply none]; lia.
           ++ intros i ge.
              destruct (Nat.le_gt_cases i (idx + length term));
                [apply skipped|apply run]; lia.
        -- intros [= <-]. repeat split; try lia.
           ++ unfold Spec.accepted. rewrite ww, found_matches by assumption.
              cbn [negb orb andb].
              now rewrite on_word_boundary_plain, test by assumption.
           ++ intros i rng. apply not_found_not_accepted; [exact nn|].
              apply first. lia.
      * intros [= <-]. repeat split; try lia.
        -- unfold Spec.accepted. rewrite ww, found_matches by assumption. reflexivity.
        -- intros i rng. apply not_found_not_accepted; [exact nn|].
           apply first. lia.
    + intros [= <-] i ge. apply not_found_not_accepted; [exact nn|].
      now apply (indexOf_miss _ _ _ _ tpos hj).
  - intros [= <-] i ge. apply not_found_not_accepted; [exact nn|].
    destruct (starts_with _ term (skipn i buffer)) eqn:sw; [exfalso|reflexivity].
    apply starts_with_length in sw. rewrite length_skipn in sw. lia.
Qed.

(** The scan of the specification passes over candidates it does not
    accept, and ends when there are none left. *)
Lemma findAll_from_skip buffer term options :
  forall n fuel pos,
    (forall i, pos <= i < pos + n -> Spec.accepted options buffer term i = false) ->
    pos + n + length term <= length buffer ->
    Spec.findAll_from (n + fuel) buffer term options pos
    = Spec.findAll_from fuel buffer term options (pos + n).
Proof.
  induction n as [|n IH]; intros fuel pos none room.
  - now rewrite Nat.add_0_r.
  - cbn [Nat.add Spec.findAll_from].
    replace (length buffer <? pos + length term) with false
      by (symmetry; apply Nat.ltb_ge; lia).
    rewrite none by lia. rewrite IH.
    + f_equal. lia.
    + intros i rng. apply none. lia.
    + lia.
Qed.

Lemma findAll_from_none buffer term options :
  0 < length term ->
  forall fuel pos,
    0 < fuel -> length buffer < fuel + pos ->
    (forall i, pos <= i -> Spec.accepted options buffer term i = false) ->
    Spec.findAll_from fuel buffer term options pos = Done [].
Proof.
  intros tpos.
  induction fuel as [|fuel IH]; intros pos fpos lt none; [lia|].
  cbn [Spec.findAll_from].
  destruct (Nat.ltb_spec (length buffer) (pos + length term)) as [short|room];
    [reflexivity|].
  rewrite none by lia.
  apply IH; [lia|lia|]. intros i ge. apply none. lia.
Qed.

(** Under the conditions of the comparison, the toolkit's search run
    over the unchanged buffer finds the matches of the specification. *)
Lemma scan_is_findAll buffer term flags :
  usable term = true ->
  ~ In Chars.nbsp buffer ->
  FindWholeWords flags = false
  \/ (letters_and_numbers term /\ ~ In Chars.underscore buffer) ->
  forall ft fs pos,
    0 < ft -> 0 < fs ->
    length buffer < ft + pos -> length buffer < fs + pos ->
    exists spans,
      scan_from ft buffer term flags pos = Done spans
      /\ Spec.findAll_from fs buffer term flags pos = Done spans.
Proof.
  intros us nn cond. pose proof (usable_length _ us) as tpos.
  induction ft as [|ft IH]; intros fs pos ftpos fspos ltt lts; [lia|].
  cbn [scan_from].
  pose proof (find_at_rel [] buffer term flags pos) as h.
  cbn [app length Nat.add] in h. rewrite h, us. clear h.
  destruct (find_rel_fuel (last_class []) buffer term flags tpos
              (S (length buffer)) (S (length buffer)) pos) as [_ [r hr]]; try lia.
  rewrite hr.
  pose proof (find_rel_first_accepted buffer term flags us nn cond _ _ _ hr) as first.
  destruct r as [[s e]|].
  - destruct first as (lo & -> & hi & acc & none).
    rewrite selectionEnd_ordered by lia. unfold span.
    rewrite selectionStart_ordered, selectionEnd_ordered by lia.
    replace fs with ((s - pos) + (fs - (s - pos))) by lia.
    rewrite findAll_from_skip;
      [|intros i rng; apply none; lia|lia].
    replace (pos + (s - pos)) with s by lia.
    destruct (fs - (s - pos)) as [|fs'] eqn:hf; [lia|].
    cbn [Spec.findAll_from].
    replace (length buffer <? s + length term) with false
      by (symmetry; apply Nat.ltb_ge; lia).
    rewrite acc.
    destruct (IH fs' (s + length term)) as (spans & scan & spec); try lia.
    rewrite scan, spec. cbn [bind]. eexists. split; reflexivity.
  - exists []. split; [reflexivity|].
    now apply findAll_from_none.
Qed.

Lemma first_class_word (t : ascii) (term : text) :
  letters_and_numbers (t :: term) -> first_class (t :: term) = true.
Proof.
  intros word. inversion word; subst. unfold first_class, letter_or_number_at.
  cbn [nth_error]. now rewrite isLetterOrNumber_block_char.
Qed.

(** [dialog_replace_all] against [Spec.replaceAll]. *)
Lemma dialog_replace_all_one_pass dialog editor status :
  dialog_find_input dialog <> [] ->
  one_line (dialog_find_input dialog) ->
  ~ In Chars.nbsp (document editor) ->
  whole_words dialog = false
  \/ (letters_and_numbers (dialog_find_input dialog)
      /\ ~ In Chars.underscore (document editor)) ->
  exists editor' count,
    dialog_replace_all dialog editor status
    = Done (editor', Some (ReplacedOccurrences count))
    /\ Spec.replaceAll (document editor) (dialog_find_input dialog)
                       (inserted (replace_input dialog)) (dialog_flags dialog)
       = Done (document editor', count).
Proof.
  intros nonempty ol nn cond.
  unfold dialog_replace_all, Spec.replaceAll, Spec.findAll.
  destruct (dialog_find_input dialog) as [|t term] eqn:ht; [contradiction|].
  cbn [PyStr.truthy negb]. unfold setPosition. cbn [Nat.leb].
  assert (usable (t :: term) = true) as us
      by (apply usable_one_line; split; [discriminate|exact ol]).
  assert (same_boundary (dialog_flags dialog) (t :: term)
                        (inserted (replace_input dialog))) as boundary.
  { destruct cond as [ww|[word _]]; [now left|].
    right. right. now apply first_class_word. }
  destruct (replace_all_loop_one_pass (t :: term) (replace_input dialog)
              (dialog_flags dialog) us boundary
              (S (length (document editor))) editor [] [] (document editor) 0)
    as (spans & editor' & scan & run & hdoc); auto.
  cbn [app length] in *. rewrite run. cbn [bind].
  destruct (scan_is_findAll (document editor) (t :: term) (dialog_flags dialog)
              us nn cond (S (length (document editor)))
              (S (length (document editor))) 0)
    as (spans' & scan' & spec); try lia.
  rewrite scan in scan'. injection scan' as <-.
  rewrite spec. cbn [bind].
  exists editor', (length spans). split; [reflexivity|]. now rewrite hdoc.
Qed.

(** C2, as the code has it.  For every buffer without U+00A0, every
    non-empty term of one line and every replacement, in either case mode,
    [dialog_replace_all], which searches the changing document from the end
    of each inserted replacement, ends and gives the buffer and the count of
    the one-pass scan-and-substitute of the specification over the original
    buffer: without the whole-word option always, and with it when the term
    is made of letters and numbers and the buffer holds no underscore.  What
    is substituted is the text the toolkit inserts for the replacement, which
    is the replacement itself unless it holds U+000D.  The inserted text is
    not searched again: replacing "a" by "aa" in "a a" gives "aa aa" and the
    count 2. *)
Theorem replace_all_single_pass :
  (forall dialog editor status,
      let term := dialog_find_input dialog in
      let repl := replace_input dialog in
      let buffer := document editor in
      term <> [] ->
      one_line term ->
      ~ In Chars.nbsp buffer ->
      whole_words dialog = false
      \/ (letters_and_numbers term /\ ~ In Chars.underscore buffer) ->
      exists editor' count,
        dialog_replace_all dialog editor status
        = Done (editor', Some (ReplacedOccurrences count))
        /\ Spec.replaceAll buffer term (inserted repl) (dialog_flags dialog)
           = Done (document editor', count)
        /\ (~ In Chars.carriage_return repl ->
            Spec.replaceAll buffer term repl (dialog_flags dialog)
            = Done (document editor', count)))
  /\ map_outcome replace_all_result
       (dialog_replace_all (mkDialog (str "a") (str "aa") true false true)
                           (fresh_editor (str "a a")) None)
     = Done (str "aa aa", Some 2).
Proof.
  split; [|reflexivity].
  intros dialog editor status term repl buffer nonempty ol nn cond.
  destruct (dialog_replace_all_one_pass dialog editor status nonempty ol nn cond)
    as (editor' & count & run & spec).
  exists editor', count. split; [exact run|]. split; [exact spec|].
  intros plain. subst repl. now rewrite <- (inserted_plain _ plain).
Qed.

Lemma replace_all_single_pass_witness :
  exists editor' count,
    dialog_replace_all fox_dialog (fresh_editor fox_buffer) None
    = Done (editor', Some (ReplacedOccurrences count))
    /\ Spec.replaceAll fox_buffer (str "fox") (inserted (str "cat")) (mkFlags false true)
       = Done (document editor', count)
    /\ (~ In Chars.carriage_return (str "cat") ->
        Spec.replaceAll fox_buffer (str "fox") (str "cat") (mkFlags false true)
        = Done (document editor', count)).
Proof.
  apply (proj1 replace_all_single_pass fox_dialog (fresh_editor fox_buffer) None).
  - simpl. discriminate.
  - repeat constructor.
  - simpl. intuition discriminate.
  - right. split; [repeat constructor|]. simpl. intuition discriminate.
Defined.

(** C2 as stated.  Each case sets what the code does against the
    one-pass scan-and-substitute of the specification over the original
    buffer:
    - "--", "-" by "x", whole words: the scan takes both dashes; the code,
      which searches the changed document, refuses the second one, now
      preceded by the letter it has just inserted;
    - "ba-a-", "a-" by "x", whole words: the toolkit refuses "a-" after
      "b" and resumes one character past its end, beyond the second "a-";
    - "fox_ fox", "fox" by "cat", whole words: for the toolkit an underscore
      is no letter and no number, so "fox_" holds a whole word;
    - U+00A0, " " by "b": the toolkit takes U+00A0 for a space;
    - "a", "a" by U+000D U+000A: the toolkit inserts one line break;
    - "a", line break, "b", the line break by "x": the toolkit never finds
      a term with a line break. *)
Lemma replace_all_differs :
  (map_outcome replace_all_result
     (dialog_replace_all (mkDialog (str "-") (str "x") false true true)
                         (fresh_editor (str "--")) None)
   = Done (str "x-", Some 1)
   /\ Spec.replaceAll (str "--") (str "-") (str "x") (mkFlags false true)
      = Done (str "xx", 2))
  /\ (map_outcome replace_all_result
        (dialog_replace_all (mkDialog (str "a-") (str "x") true true true)
                            (fresh_editor (str "ba-a-")) None)
      = Done (str "ba-a-", Some 0)
      /\ Spec.replaceAll (str "ba-a-") (str "a-") (str "x") (mkFlags true true)
         = Done (str "ba-x", 1))
  /\ (map_outcome replace_all_result
        (dialog_replace_all (mkDialog (str "fox") (str "cat") true true true)
                            (fresh_editor (str "fox_ fox")) None)
      = Done (str "cat_ cat", Some 2)
      /\ Spec.replaceAll (str "fox_ fox") (str "fox") (str "cat") (mkFlags true true)
         = Done (str "fox_ cat", 1))
  /\ (map_outcome replace_all_result
        (dialog_replace_all (mkDialog (str " ") (str "b") true false true)
                            (fresh_editor [Chars.nbsp]) None)
      = Done (str "b", Some 1)
      /\ Spec.replaceAll [Chars.nbsp] (str " ") (str "b") (mkFlags true false)
         = Done ([Chars.nbsp], 0))
  /\ (map_outcome replace_all_result
        (dialog_replace_all
           (mkDialog (str "a") [Chars.carriage_return; Chars.newline] true false true)
           (fresh_editor (str "a")) None)
      = Done ([Chars.newline], Some 1)
      /\ Spec.replaceAll (str "a") (str "a") [Chars.carriage_return; Chars.newline]
                         (mkFlags true false)
         = Done ([Chars.carriage_return; Chars.newline], 1))
  /\ (map_outcome replace_all_result
        (dialog_replace_all (mkDialog [Chars.newline] (str "x") true false true)
                            (fresh_editor (str "a" ++ [Chars.newline] ++ str "b")) None)
      = Done (str "a" ++ [Chars.newline] ++ str "b", Some 0)
      /\ Spec.replaceAll (str "a" ++ [Chars.newline] ++ str "b") [Chars.newline]
                         (str "x") (mkFlags true false)
         = Done (str "axb", 1)).
Proof. repeat split. Qed.


(** C3, with the offsets the buffer has.  In the fox buffer the term
    "fox", case-insensitive and whole-word, has exactly the two matches
    (10, 13) and (34, 37), for the highlight-all scan and for the scan of
    the specification alike, and replace-all by "cat" gives "The quick cat
    jumps over the lazy cat" with the count 2. *)
Theorem fox_scenario :
  Spec.findAll fox_buffer (str "fox") (mkFlags false true) = Done [(10, 13); (34, 37)]
  /\ map_outcome (fun w => (find_matches w, window_highlights w))
       (perform_find (fresh_window fox_buffer (str "fox") false))
     = Done ([10; 34], Some [(10, 13); (34, 37)])
  /\ map_outcome replace_all_result
       (dialog_replace_all fox_dialog (fresh_editor fox_buffer) None)
     = Done (str "The quick cat jumps over the lazy cat", Some 2).
Proof. repeat split; vm_compute; reflexivity. Qed.

(** C3 as stated: the second match is not at (35, 38), a span that ends
    past the 37 characters of the buffer. *)
Lemma fox_second_match_not_at_35 :
  length fox_buffer = 37
  /\ Spec.findAll fox_buffer (str "fox") (mkFlags false true)
     <> Done [(10, 13); (35, 38)]
  /\ PyStr.slice fox_buffer 35 38 = str "ox"
  /\ PyStr.slice fox_buffer 34 37 = str "fox".
Proof. repeat split; try reflexivity. vm_compute. discriminate. Qed.

End ReplaceAll.

(* ------------------------------------------------------------------ *)
(** ** Replace all, there and back *)

Section RoundTrip.
Import Qt UI.

Lemma char_eqb_same cs c : char_eqb cs c c = true.
Proof. now apply char_eqb_fold. Qed.

Lemma char_eqb_chain cs a y x :
  char_eqb cs a y = true -> char_eqb cs y x = true -> char_eqb cs a x = true.
Proof. rewrite !char_eqb_fold. congruence. Qed.

Lemma starts_with_self cs x y :
  ~ In Chars.nbsp x -> starts_with cs x (x ++ y) = true.
Proof.
  induction x as [|a x IH]; simpl; [reflexivity|].
  intros nn. rewrite block_char_other by tauto.
  rewrite char_eqb_same. apply IH. tauto.
Qed.

(** The first character of a text that has a given property. *)
Lemma first_with (p : ascii -> bool) (l : text) :
  existsb p l = true ->
  exists k c, nth_error l k = Some c /\ p c = true
              /\ forall m c', m < k -> nth_error l m = Some c' -> p c' = false.
Proof.
  induction l as [|a l IH]; simpl; [discriminate|].
  destruct (p a) eqn:pa.
  - intros _. exists 0, a. split; [reflexivity|]. split; [exact pa|]. intros m c' lt. lia.
  - intros ex. destruct (IH ex) as (k & c & hk & pc & first).
    exists (S k), c. split; [exact hk|]. split; [exact pc|].
    intros [|m] c' lt; simpl; [congruence|]. apply first. lia.
Qed.

Lemma matched_in_spec cs x b :
  matched_in cs x b = false ->
  forall d, In d b -> char_eqb cs (block_char d) x = false.
Proof.
  unfold matched_in. intros none d hin.
  destruct (char_eqb cs (block_char d) x) eqn:m; [|reflexivity].
  assert (existsb (fun d => char_eqb cs (block_char d) x) b = true) as ex
      by (apply existsb_exists; now exists d).
  congruence.
Qed.

Lemma matched_in_skipn cs x b n :
  matched_in cs x b = false -> matched_in cs x (skipn n b) = false.
Proof.
  intros none. unfold matched_in.
  destruct (existsb _ (skipn n b)) eqn:ex; [exfalso|reflexivity].
  apply existsb_exists in ex as (d & hin & m).
  rewrite (matched_in_spec _ _ _ none d) in m; [discriminate|].
  eapply in_skipn; eassumption.
Qed.

(** A term with a character that the search matches with nothing in the
    text is found nowhere in it. *)
Lemma no_occurrence cs x repl rest :
  In x repl -> matched_in cs x rest = false ->
  forall j, starts_with cs repl (skipn j rest) = false.
Proof.
  intros hin none j.
  destruct (starts_with cs repl (skipn j rest)) eqn:sw; [exfalso|reflexivity].
  destruct (In_nth_error _ _ hin) as [k hk].
  destruct (starts_with_nth _ _ _ sw _ _ hk) as (ch & hch & same).
  rewrite nth_error_skipn in hch. apply nth_error_In in hch.
  rewrite (matched_in_spec _ _ _ none ch hch) in same. discriminate.
Qed.

(** In [firstn j rest ++ repl ++ r], the inserted [repl] is the leftmost
    hit of [repl]. *)
Lemma inserted_is_leftmost cs x repl rest r j :
  In x repl -> matched_in cs x rest = false -> ~ In Chars.nbsp repl ->
  j <= length rest ->
  forall i, i < j ->
            starts_with cs repl (skipn i (firstn j rest ++ repl ++ r)) = false.
Proof.
  intros hin none nr le i lt.
  destruct (starts_with cs repl _) eqn:sw; [exfalso|reflexivity].
  assert (existsb (fun c => char_eqb cs (block_char c) x) repl = true) as ex.
  { apply existsb_exists. exists x. split; [exact hin|].
    rewrite block_char_other by (intros ->; contradiction).
    apply char_eqb_same. }
  destruct (first_with _ repl ex) as (k & y & hk & py & first).
  destruct (starts_with_nth _ _ _ sw _ _ hk) as (ch & hch & same).
  rewrite nth_error_skipn in hch.
  assert (y <> Chars.nbsp) as plain
      by (intros ->; apply nr; eapply nth_error_In; eassumption).
  rewrite (block_char_other y plain) in py.
  pose proof (char_eqb_chain _ _ _ _ same py) as px.
  assert (length (firstn j rest) = j) as lj by (rewrite length_firstn; lia).
  destruct (Nat.lt_ge_cases (i + k) j) as [inside|beyond].
  - rewrite nth_error_app1 in hch by lia.
    rewrite nth_error_firstn in hch.
    destruct (i + k <? j); [|discriminate].
    apply nth_error_In in hch.
    rewrite (matched_in_spec _ _ _ none ch hch) in px. discriminate.
  - rewrite nth_error_app2 in hch by lia. rewrite lj in hch.
    assert (k < length repl) as kl by (apply nth_error_Some; congruence).
    rewrite nth_error_app1 in hch by lia.
    rewrite (first (i + k - j) ch) in px; [discriminate|lia|exact hch].
Qed.

Lemma index_from_first cs term d j :
  starts_with cs term (skipn j d) = true ->
  (forall i, i < j -> starts_with cs term (skipn i d) = false) ->
  index_from cs term d 0 = Some j.
Proof.
  intros here before.
  destruct (index_from cs term d 0) as [k|] eqn:hk.
  - apply index_from_hit in hk as (j' & -> & _ & sw & first). simpl. f_equal.
    destruct (Nat.lt_trichotomy j' j) as [lt|[e|gt]]; [|exact e|].
    + rewrite (before _ lt) in sw. discriminate.
    + rewrite (first _ gt) in here. discriminate.
  - rewrite (index_from_miss _ _ _ _ hk j) in here. discriminate.
Qed.

Lemma verbatim_hits_skipn cs term b n :
  verbatim_hits cs term b -> verbatim_hits cs term (skipn n b).
Proof.
  unfold verbatim_hits, found_at. intros all i sw.
  rewrite skipn_skipn in sw. specialize (all _ sw).
  rewrite slice_from in *. now rewrite skipn_skipn.
Qed.

(** Case-sensitive hits in a text without U+00A0 are copies of the
    term. *)
Lemma verbatim_case_sensitive term b :
  ~ In Chars.nbsp b -> verbatim_hits true term b.
Proof.
  intros nn i sw. apply found_reads in sw; [|exact nn]. exact sw.
Qed.

Lemma matched_in_absent x b :
  ~ In Chars.nbsp b -> ~ In x b -> matched_in true x b = false.
Proof.
  intros nn nx. unfold matched_in.
  destruct (existsb _ b) eqn:ex; [exfalso|reflexivity].
  apply existsb_exists in ex as (d & hin & m).
  rewrite block_char_other in m by (intros ->; contradiction).
  apply Ascii.eqb_eq in m. subst d. contradiction.
Qed.

(** [verbatim_hits], decided position by position. *)
Lemma verbatim_hits_decide cs term b :
  term <> [] ->
  forallb (fun i => implb (starts_with cs term (skipn i b))
                          (PyStr.eqb (PyStr.slice b i (i + length term)) term))
          (seq 0 (S (length b))) = true ->
  verbatim_hits cs term b.
Proof.
  intros ne all i sw. unfold found_at in sw.
  rewrite forallb_forall in all.
  assert (i <= length b) as le.
  { apply starts_with_length in sw. rewrite length_skipn in sw.
    destruct term; [contradiction|]. simpl in sw. lia. }
  specialize (all i). rewrite sw in all. apply eqb_spec_text, all.
  apply in_seq. lia.
Qed.

(** A loop that finds nothing returns at once. *)
Lemma replace_all_loop_absent fuel editor out rest term repl flags count :
  document editor = out ++ rest ->
  (forall j, starts_with (FindCaseSensitively flags) term (skipn j rest) = false) ->
  replace_all_loop (S fuel) editor term repl flags
                   (mkCursor (length out) (length out)) count
  = Done (editor, count).
Proof.
  intros hdoc absent.
  destruct (replace_all_loop_turn fuel editor out rest term repl flags count hdoc)
    as [[_ stop]|(j & editor1 & _ & _ & _ & sw & _)]; [exact stop|].
  rewrite absent in sw. discriminate.
Qed.

Lemma first_class_app_nonempty (a b : text) :
  a <> [] -> first_class (a ++ b) = first_class a.
Proof. destruct a; [contradiction|reflexivity]. Qed.

(** The two loops, one after the other.  The first turns [rest] into
    some [r]; the second, run on any document that ends in [r], turns [r]
    back into [rest]. *)
Lemma replace_all_loop_back term repl flags x :
  usable term = true -> usable repl = true ->
  In x repl -> ~ In Chars.nbsp repl ->
  (FindWholeWords flags = true ->
   first_class repl = first_class term /\ last_class repl = last_class term) ->
  forall fuel editor out rest count,
    document editor = out ++ rest ->
    matched_in (FindCaseSensitively flags) x rest = false ->
    verbatim_hits (FindCaseSensitively flags) term rest ->
    length rest < fuel ->
    exists editor' n r,
      replace_all_loop fuel editor term repl flags
                       (mkCursor (length out) (length out)) count
      = Done (editor', n)
      /\ document editor' = out ++ r
      /\ (FindWholeWords flags = true -> first_class r = first_class rest)
      /\ forall fuel2 editor2 out2 count2,
          document editor2 = out2 ++ r ->
          (FindWholeWords flags = true -> last_class out2 = last_class out) ->
          length r < fuel2 ->
          exists editor2' n2,
            replace_all_loop fuel2 editor2 repl term flags
                             (mkCursor (length out2) (length out2)) count2
            = Done (editor2', n2)
            /\ document editor2' = out2 ++ rest.
Proof.
  intros ut ur hin nr classes.
  pose proof (usable_length _ ut) as tpos.
  pose proof (usable_length _ ur) as rpos.
  assert (repl <> []) as rne by (intros ->; simpl in rpos; lia).
  assert (term <> []) as tne by (intros ->; simpl in tpos; lia).
  set (cs := FindCaseSensitively flags).
  induction fuel as [|fuel IH]; intros editor out rest count hdoc none verb lt; [lia|].
  destruct (replace_all_loop_turn fuel editor out rest term repl flags count hdoc)
    as [[_ stop]|(j & editor1 & _ & fr & hi & sw & hdoc1 & turn)].
  - (* no hit *)
    exists editor, count, rest. split; [exact stop|]. split; [exact hdoc|].
    split; [reflexivity|].
    intros fuel2 editor2 out2 count2 hdoc2 _ lt2.
    destruct fuel2 as [|fuel2]; [lia|].
    exists editor2, count2. split; [|exact hdoc2].
    apply (replace_all_loop_absent fuel2 editor2 out2 rest); [exact hdoc2|].
    now apply (no_occurrence cs x).
  - (* a hit at [j] *)
    set (e := j + length term) in *.
    rewrite (inserted_usable _ ur) in hdoc1, turn.
    assert (length (firstn j rest) = j) as lj by (rewrite length_firstn; lia).
    destruct (IH editor1 (out ++ firstn j rest ++ repl) (skipn e rest) (count + 1))
      as (editor' & n & r & run & hdoc' & fc & back).
    + exact hdoc1.
    + now apply matched_in_skipn.
    + now apply verbatim_hits_skipn.
    + rewrite length_skipn. lia.
    + exists editor', n, (firstn j rest ++ repl ++ r).
      split; [rewrite turn; exact run|].
      split; [rewrite hdoc'; now rewrite <- !app_assoc|].
      split.
      { intros ww. destruct (classes ww) as [fcl _].
        destruct j as [|j].
        - cbn [firstn app]. rewrite first_class_app_nonempty by exact rne.
          rewrite fcl. symmetry.
          apply (hit_first_class cs term rest 0 tpos sw).
        - unfold first_class, letter_or_number_at.
          rewrite nth_error_app1 by lia.
          rewrite nth_error_firstn. reflexivity. }
      intros fuel2 editor2 out2 count2 hdoc2 ctx2 lt2.
      destruct fuel2 as [|fuel2]; [lia|].
      set (R := firstn j rest ++ repl ++ r) in *.
      (* the search on the way back stops at the inserted replacement *)
      assert (find_rel (S (length R)) (last_class out2) R repl flags 0
              = Done (Some (j, j + length repl))) as fr2.
      { cbn [find_rel Nat.leb]. fold cs.
        assert (indexOf cs repl R 0 = Some j) as ->.
        { unfold indexOf. cbn [Nat.leb skipn]. apply index_from_first.
          - subst R. rewrite skipn_app, skipn_all2, lj, Nat.sub_diag by lia.
            simpl. now apply starts_with_self.
          - subst R. apply (inserted_is_leftmost cs x); auto. lia. }
        assert (FindWholeWords flags = true \/ FindWholeWords flags = false)
          as [ww|ww] by (destruct (FindWholeWords flags); auto);
          rewrite ww; [|reflexivity].
        cbn [andb].
        pose proof (find_rel_accepts _ _ _ _ _ _ _ _ fr ww) as ok.
        apply accepted_then_no_word in ok as [after before].
        assert (not_whole_word_rel (last_class out2) R j (j + length repl) = false)
          as ->; [|reflexivity].
        unfold not_whole_word_rel. apply orb_false_iff. split.
        - destruct j as [|j]; cbn [Nat.eqb] in *.
          + now rewrite ctx2.
          + rewrite <- before. unfold letter_or_number_at. subst R.
            rewrite nth_error_app1 by lia.
            rewrite nth_error_firstn.
            now replace (S j - 1 <? S j) with true
              by (symmetry; apply Nat.ltb_lt; lia).
        - apply andb_false_iff. right.
          rewrite <- after, <- (fc ww), <- first_class_skipn. subst R.
          rewrite skipn_app, skipn_all2, lj by lia.
          replace (j + length repl - j) with (length repl) by lia.
          rewrite skipn_app, skipn_all, Nat.sub_diag. reflexivity. }
      destruct (replace_all_loop_turn fuel2 editor2 out2 R repl term flags count2 hdoc2)
        as [[miss _]|(j2 & editor3 & _ & fr2' & _ & _ & hdoc3 & turn2)].
      { rewrite find_at_rel_here, ur, fr2 in miss. discriminate. }
      rewrite fr2 in fr2'. injection fr2' as <-.
      rewrite (inserted_usable _ ut) in hdoc3, turn2.
      assert (firstn j R = firstn j rest) as front.
      { subst R. rewrite firstn_app, lj, Nat.sub_diag. simpl.
        rewrite app_nil_r. apply firstn_all2. lia. }
      assert (skipn (j + length repl) R = r) as tail.
      { subst R. rewrite skipn_app, skipn_all2, lj by lia.
        replace (j + length repl - j) with (length repl) by lia.
        rewrite skipn_app, skipn_all, Nat.sub_diag. reflexivity. }
      rewrite front, tail in hdoc3. rewrite front in turn2.
      destruct (back fuel2 editor3 (out2 ++ firstn j rest ++ term) (count2 + 1))
        as (editor2' & n2 & run2 & hdoc2').
      * exact hdoc3.
      * intros ww. destruct (classes ww) as [_ lcl].
        rewrite !app_assoc, (last_class_app _ term tne), (last_class_app _ repl rne).
        now symmetry.
      * subst R. rewrite !length_app, lj in lt2. lia.
      * exists editor2', n2. split; [rewrite turn2; exact run2|].
        rewrite hdoc2', <- !app_assoc. f_equal.
        rewrite <- (firstn_skipn j rest) at 3. f_equal.
        rewrite <- (firstn_skipn (length term) (skipn j rest)).
        rewrite skipn_skipn, (Nat.add_comm (length term) j). fold e. f_equal.
        symmetry. rewrite <- slice_from. apply verb. exact sw.
Qed.

(** Replace-all of a term that is found nowhere changes nothing. *)
Lemma dialog_replace_all_absent dialog ed st x :
  In x (dialog_find_input dialog) ->
  matched_in (case_sensitive dialog) x (document ed) = false ->
  exists ed' st',
    dialog_replace_all dialog ed st = Done (ed', st')
    /\ document ed' = document ed.
Proof.
  intros hin none. unfold dialog_replace_all.
  destruct (dialog_find_input dialog) as [|r0 repl] eqn:hr; [contradiction|].
  cbn [PyStr.truthy negb]. unfold setPosition. cbn [Nat.leb].
  rewrite (replace_all_loop_absent _ ed [] (document ed)).
  - cbn [bind]. eexists _, _. split; reflexivity.
  - reflexivity.
  - now apply (no_occurrence _ x).
Qed.

(** C4, as the code has it.  Under any setting of the options,
    replace-all of [term] by [repl] followed by replace-all of [repl] by
    [term] restores the buffer B whenever
    - [repl] holds a character that the search takes for no character of
      B (under the case option, a U+00A0 of B counting as a space),
    - [repl] holds no U+00A0 and no line break,
    - wherever the search finds [term] in B, B reads [term] itself,
    - and, with the whole-word option, [repl] and [term] begin with
      characters of the same class (letter or number, or neither) and end
      with characters of the same class.
    With case-sensitive matching and a buffer without U+00A0 the first
    condition asks for a character of [repl] that does not occur in B, and
    the third one always holds.  (The term is arbitrary: nothing is asked of
    how term and repl overlap.) *)
Theorem replace_all_round_trip :
  (forall dialog editor status,
      let term := dialog_find_input dialog in
      let repl := replace_input dialog in
      let b := document editor in
      let cs := case_sensitive dialog in
      (exists x, In x repl /\ matched_in cs x b = false) ->
      ~ In Chars.nbsp repl ->
      one_line repl ->
      verbatim_hits cs term b ->
      (whole_words dialog = true ->
       first_class repl = first_class term /\ last_class repl = last_class term) ->
      round_trip dialog editor status = Done b)
  /\ (forall (b : text) (x : ascii),
         ~ In Chars.nbsp b -> ~ In x b -> matched_in true x b = false)
  /\ (forall term b : text, ~ In Chars.nbsp b -> verbatim_hits true term b).
Proof.
  split; [|split; [intros b x; apply matched_in_absent|exact verbatim_case_sensitive]].
  intros [term repl cs ww wrap] editor status.
  cbn [dialog_find_input replace_input case_sensitive whole_words].
  intros (x & hin & none) nr ol verb classes.
  assert (repl <> []) as rne by (intros ->; contradiction).
  assert (usable repl = true) as ur by (apply usable_one_line; now split).
  (* the way back over a document where [repl] is found nowhere *)
  assert (forall ed st, document ed = document editor ->
            exists ed' st', dialog_replace_all (mkDialog repl term cs ww wrap) ed st
                            = Done (ed', st')
                            /\ document ed' = document editor) as back_absent.
  { intros ed st same.
    destruct (dialog_replace_all_absent (mkDialog repl term cs ww wrap) ed st x)
      as (ed' & st' & run & hdoc); [exact hin|cbn; now rewrite same|].
    exists ed', st'. split; [exact run|congruence]. }
  unfold round_trip, swapped.
  cbn [dialog_find_input replace_input case_sensitive whole_words wrap_around].
  destruct term as [|t0 term].
  - (* nothing to search *)
    unfold dialog_replace_all at 1. cbn [dialog_find_input PyStr.truthy negb bind fst snd].
    destruct (back_absent editor status eq_refl) as (ed' & st' & -> & same).
    cbn [bind fst]. now rewrite same.
  - unfold dialog_replace_all at 1. unfold dialog_flags.
    cbn [dialog_find_input replace_input case_sensitive whole_words
         PyStr.truthy negb].
    unfold setPosition. cbn [Nat.leb].
    destruct (usable (t0 :: term)) eqn:ut.
    + destruct (replace_all_loop_back (t0 :: term) repl (mkFlags cs ww) x ut ur hin nr
                  classes (S (length (document editor))) editor []
                  (document editor) 0)
        as (e1 & n1 & r & run & hdoc1 & _ & back); auto.
      cbn [length app] in run, hdoc1. rewrite run. cbn [bind fst snd].
      unfold dialog_replace_all, dialog_flags.
      cbn [dialog_find_input replace_input case_sensitive whole_words].
      destruct repl as [|r0 repl]; [contradiction|]. cbn [PyStr.truthy negb].
      unfold setPosition. cbn [Nat.leb].
      destruct (back (S (length (document e1))) e1 [] 0) as (e2 & n2 & run2 & hdoc2);
        [exact hdoc1 | reflexivity | rewrite hdoc1; lia |].
      cbn [length app] in run2, hdoc2. rewrite run2. cbn [bind fst].
      now rewrite hdoc2.
    + destruct (replace_all_loop_turn (length (document editor)) editor []
                  (document editor) (t0 :: term) repl (mkFlags cs ww) 0 eq_refl)
        as [[_ stop]|(j & editor1 & us & _)]; [|congruence].
      cbn [length] in stop. rewrite stop. cbn [bind fst snd].
      destruct (back_absent editor (Some (ReplacedOccurrences 0)) eq_refl)
        as (ed' & st' & -> & same).
      cbn [bind fst]. now rewrite same.
Qed.

Lemma replace_all_round_trip_witness :
  round_trip (mkDialog (str "cat") (str "dog") false true true)
             (fresh_editor (str "a cat sat")) None
  = Done (str "a cat sat").
Proof.
  apply (proj1 replace_all_round_trip
               (mkDialog (str "cat") (str "dog") false true true)
               (fresh_editor (str "a cat sat")) None).
  - exists "d"%char. split; [simpl; tauto|reflexivity].
  - simpl. intuition discriminate.
  - repeat constructor.
  - apply verbatim_hits_decide; [discriminate|reflexivity].
  - intros _. split; reflexivity.
Defined.

(** C4 as stated.  In each case below the term and the replacement do
    not overlap and neither occurs in the other, and yet the round trip does
    not give the buffer back:
    - "b", with "a" by "b": the buffer already holds the replacement;
    - "bca", with "a" by "bcb": the buffer holds no "bcb", but the first
      pass makes one across the place of insertion;
    - "A", with "a" by "b", case-insensitive: the way back writes "a";
    - "-+-+", with "-+" by "a!", whole words: on the way back no "a!" is
      a whole word;
    - "-a-a", with "-a" by "-!", whole words: on the way back the second
      "-!" follows the letter just written;
    - U+00A0, with " " by "b": the way back writes a space;
    - "a", with "a" by U+000D: the toolkit inserts a line break, and a term
      with a line break is never found. *)
Lemma round_trip_fails :
  (apart (str "a") (str "b") = true
   /\ round_trip_on (str "b") (str "a") (str "b") true false = Done (str "a")
   /\ round_trip_on (str "b") (str "a") (str "b") true false <> Done (str "b"))
  /\ (apart (str "a") (str "bcb") = true
      /\ substringb (str "bcb") (str "bca") = false
      /\ round_trip_on (str "bca") (str "a") (str "bcb") true false = Done (str "acb"))
  /\ (apart (str "a") (str "b") = true
      /\ round_trip_on (str "A") (str "a") (str "b") false false = Done (str "a"))
  /\ (apart (str "-+") (str "a!") = true
      /\ round_trip_on (str "-+-+") (str "-+") (str "a!") true true
         = Done (str "a!a!"))
  /\ (apart (str "-a") (str "-!") = true
      /\ round_trip_on (str "-a-a") (str "-a") (str "-!") true true
         = Done (str "-a-!"))
  /\ (apart (str " ") (str "b") = true
      /\ round_trip_on [Chars.nbsp] (str " ") (str "b") true false = Done (str " "))
  /\ (apart (str "a") [Chars.carriage_return] = true
      /\ round_trip_on (str "a") (str "a") [Chars.carriage_return] true false
         = Done [Chars.newline]).
Proof.
  repeat split; try (vm_compute; reflexivity). vm_compute. discriminate.
Qed.

End RoundTrip.

(* ------------------------------------------------------------------ *)
(** ** Replace one *)

Section ReplaceOne.
Import Qt UI.

Lemma selected_eqb_spec sel s : selected_eqb sel s = true <-> sel = map Some s.
Proof.
  revert s. induction sel as [|[c|] sel IH]; intros [|x s]; simpl;
    try (split; [discriminate|discriminate]); try (split; reflexivity).
  - rewrite andb_true_iff, IH. split.
    + intros [h ->]. apply Ascii.eqb_eq in h. now subst.
    + intros [= -> ->]. split; [apply Ascii.eqb_refl|reflexivity].
Qed.

(** A selected text that equals a text of the alphabet holds no line
    break, and is the selected slice of the document. *)
Lemma selectedText_slice doc c s :
  selectedText doc c = map Some s ->
  PyStr.slice doc (selectionStart c) (selectionEnd c) = s.
Proof.
  unfold selectedText.
  generalize (PyStr.slice doc (selectionStart c) (selectionEnd c)). intros l.
  revert s. induction l as [|a l IH]; intros [|x s]; simpl; try discriminate;
    [reflexivity|].
  destruct (Chars.is_newline a); [discriminate|].
  intros [= -> h]. f_equal. now apply IH.
Qed.

Lemma selected_hasSelection doc c s :
  s <> [] -> selectedText doc c = map Some s -> hasSelection c = true.
Proof.
  intros ne h. apply selectedText_slice in h.
  unfold hasSelection. apply negb_true_iff. apply Nat.eqb_neq. intros same.
  unfold PyStr.slice, selectionStart, selectionEnd in h. rewrite same in h.
  rewrite Nat.max_id, Nat.min_id, Nat.sub_diag in h. simpl in h. congruence.
Qed.

Lemma dialog_find_next_document dialog editor status :
  document (fst (dialog_find_next dialog editor status)) = document editor.
Proof.
  unfold dialog_find_next.
  destruct (negb (PyStr.truthy (dialog_find_input dialog))); [reflexivity|].
  destruct (find _ _ (textCursor editor) _); [reflexivity|].
  destruct (wrap_around dialog); [|reflexivity].
  destruct (find _ _ _ _); reflexivity.
Qed.

(** The guard of [dialog_replace], decided. *)
Lemma replace_guard dialog editor :
  dialog_find_input dialog <> [] ->
  hasSelection (textCursor editor)
  && selected_eqb (selectedText (document editor) (textCursor editor))
                  (dialog_find_input dialog)
  = true
  <-> selectedText (document editor) (textCursor editor)
      = map Some (dialog_find_input dialog).
Proof.
  intros ne. rewrite andb_true_iff, selected_eqb_spec. split; [tauto|].
  intros h. split; [|exact h]. eapply selected_hasSelection; eassumption.
Qed.

(** A selection that is not the term: nothing is replaced. *)
Lemma dialog_replace_skips dialog editor status :
  dialog_find_input dialog <> [] ->
  selectedText (document editor) (textCursor editor)
  <> map Some (dialog_find_input dialog) ->
  dialog_replace dialog editor status = dialog_find_next dialog editor status
  /\ document (fst (dialog_replace dialog editor status)) = document editor.
Proof.
  intros ne differ.
  assert (dialog_replace dialog editor status = dialog_find_next dialog editor status)
    as same.
  { unfold dialog_replace.
    destruct (dialog_find_input dialog) as [|t term] eqn:ht; [contradiction|].
    cbn [PyStr.truthy negb].
    destruct (hasSelection (textCursor editor) && _) eqn:guard; [|reflexivity].
    rewrite <- ht in guard. apply replace_guard in guard; [|congruence].
    rewrite ht in guard. contradiction. }
  split; [exact same|]. rewrite same. apply dialog_find_next_document.
Qed.





(** C7 on an example: in "a fox, a fox" with the first "fox" selected,
    replace-one by "cat" gives "a cat, a fox" and selects the second "fox",
    at (9, 12); with "a" selected instead it replaces nothing and selects
    the first "fox", at (2, 5). *)
Example replace_one_moves_on :
  dialog_replace plain_fox_dialog (mkEditor (str "a fox, a fox") (mkCursor 2 5) []) None
  = (mkEditor (str "a cat, a fox") (mkCursor 9 12) [], Some ReplacedOne)
  /\ dialog_replace plain_fox_dialog (mkEditor (str "a fox, a fox") (mkCursor 0 1) []) None
     = (mkEditor (str "a fox, a fox") (mkCursor 2 5) [], None).
Proof. split; reflexivity. Qed.

(** C8.  The guard of [dialog_replace] compares the selected text with the
    term character by character, whatever the case option of the dialog: a
    selection that the search found (from any position, with the flags of
    the dialog) but whose characters are not those of the term is not
    replaced; the document stays as it is and [dialog_replace] only does what
    [dialog_find_next] does. *)
Theorem replace_one_guard_ignores_case_option :
  forall dialog editor status from,
    dialog_find_input dialog <> [] ->
    find_at (document editor) (dialog_find_input dialog) from (dialog_flags dialog)
    = Some (textCursor editor) ->
    PyStr.slice (document editor) (selectionStart (textCursor editor))
                (selectionEnd (textCursor editor))
    <> dialog_find_input dialog ->
    dialog_replace dialog editor status = dialog_find_next dialog editor status
    /\ document (fst (dialog_replace dialog editor status)) = document editor.
Proof.
  intros dialog editor status from ne _ differ.
  apply dialog_replace_skips; [exact ne|].
  intros same. apply differ. now apply selectedText_slice.
Qed.

Lemma replace_one_guard_ignores_case_option_witness :
  dialog_replace plain_fox_dialog (mkEditor (str "a Fox") (mkCursor 2 5) []) None
  = dialog_find_next plain_fox_dialog (mkEditor (str "a Fox") (mkCursor 2 5) []) None
  /\ document (fst (dialog_replace plain_fox_dialog
                                   (mkEditor (str "a Fox") (mkCursor 2 5) []) None))
     = str "a Fox".
Proof.
  apply (replace_one_guard_ignores_case_option
           plain_fox_dialog (mkEditor (str "a Fox") (mkCursor 2 5) []) None 0).
  - simpl. discriminate.
  - reflexivity.
  - vm_compute. discriminate.
Defined.

End ReplaceOne.

(* ------------------------------------------------------------------ *)
(** ** Misspelled words *)

Section Misspelled.
Import SpellCheck.

Lemma ascii_letter_word c :
  Chars.is_ascii_letter c = true -> Chars.re_word c = true.
Proof. destruct c as [[] [] [] [] [] [] [] []]; simpl; intros h; (reflexivity || discriminate). Qed.

Lemma letters_run_letters d :
  forall k, k < letters_run d ->
            exists c, nth_error d k = Some c /\ Chars.is_ascii_letter c = true.
Proof.
  induction d as [|a d IH]; simpl; intros k lt; [lia|].
  destruct (Chars.is_ascii_letter a) eqn:la; [|lia].
  destruct k as [|k]; [now exists a|]. simpl. apply IH. lia.
Qed.

Lemma backtrack_end txt i k e :
  backtrack txt i k = Some e ->
  exists m, 1 <= m <= k /\ e = i + m /\ word_boundary txt e = true.
Proof.
  induction k as [|k IH]; simpl; [discriminate|].
  destruct (word_boundary txt (i + S k)) eqn:wb.
  - intros [= <-]. exists (S k). repeat split; try lia. exact wb.
  - intros h. destruct (IH h) as (m & rng & -> & wb'). exists m. repeat split; try lia.
    exact wb'.
Qed.

(** A match of the pattern at [i]: a run of letters between two word
    boundaries. *)
Lemma match_at_run txt i e :
  match_at txt i = Some e ->
  i < e <= length txt
  /\ (forall k, i <= k < e ->
                exists c, nth_error txt k = Some c /\ Chars.is_ascii_letter c = true)
  /\ word_boundary txt i = true
  /\ word_boundary txt e = true.
Proof.
  unfold match_at. destruct (word_boundary txt i) eqn:wb; [|discriminate].
  intros h. apply backtrack_end in h as (m & rng & -> & wbe).
  assert (forall k, i <= k < i + m ->
            exists c, nth_error txt k = Some c /\ Chars.is_ascii_letter c = true) as run.
  { intros k rk. destruct (letters_run_letters (skipn i txt) (k - i)) as (c & hc & lc);
      [lia|]. rewrite nth_error_skipn in hc.
    replace (i + (k - i)) with k in hc by lia. now exists c. }
  repeat split; try lia; try assumption.
  destruct (run (i + m - 1)) as (c & hc & _); [lia|].
  assert (i + m - 1 < length txt) by (apply nth_error_Some; congruence). lia.
Qed.

(** [finditer] ends, with a chain of matches. *)
Lemma finditer_loop_chain txt :
  forall fuel pos,
    0 < fuel -> length txt + 1 < fuel + pos ->
    exists ms, finditer_loop fuel txt pos = Done ms /\ match_chain txt pos ms.
Proof.
  induction fuel as [|fuel IH]; intros pos fpos lt; [lia|].
  simpl. destruct (Nat.ltb_spec (length txt) pos) as [past|inside].
  - exists []. split; [reflexivity|exact I].
  - destruct (match_at txt pos) as [e|] eqn:hm.
    + pose proof (match_at_run _ _ _ hm) as (rng & _).
      destruct (IH e) as (ms & run & chain); try lia.
      exists ((pos, e) :: ms). rewrite run. split; [reflexivity|].
      simpl. auto.
    + destruct (IH (S pos)) as (ms & run & chain); try lia.
      exists ms. split; [exact run|].
      destruct ms as [|[s e] ms]; [exact I|]. simpl in *. intuition lia.
Qed.

Lemma slice_letters txt s e :
  (forall k, s <= k < e ->
             exists c, nth_error txt k = Some c /\ Chars.is_ascii_letter c = true) ->
  Forall (fun c => Chars.is_ascii_letter c = true) (PyStr.slice txt s e).
Proof.
  intros run. apply Forall_forall. intros c hin.
  apply In_nth_error in hin as [k hk]. unfold PyStr.slice in hk.
  assert (k < e - s) as lt.
  { assert (k < length (firstn (e - s) (skipn s txt))) as l
        by (apply nth_error_Some; congruence).
    rewrite length_firstn in l. lia. }
  rewrite nth_error_firstn in hk.
  replace (k <? e - s) with true in hk by (symmetry; apply Nat.ltb_lt; lia).
  rewrite nth_error_skipn in hk.
  destruct (run (s + k)) as (c' & hc' & lc); [lia|]. congruence.
Qed.

(** A match is well placed, whatever word is made of it. *)
Lemma match_well_placed txt s e :
  match_at txt s = Some e -> well_placed txt (PyStr.slice txt s e, s, e).
Proof.
  intros hm. destruct (match_at_run _ _ _ hm) as (rng & run & wbs & wbe).
  unfold well_placed, triple_start, triple_end, triple_word. cbn [fst snd].
  split; [exact rng|]. split; [reflexivity|]. split; [now apply slice_letters|].
  split.
  - intros c spos hc. unfold word_boundary in wbs.
    destruct s as [|p]; [lia|]. replace (S p - 1) with p in hc by lia.
    destruct (run (S p)) as (c1 & hc1 & l1); [lia|].
    unfold word_at in wbs. rewrite hc, hc1, (ascii_letter_word _ l1) in wbs.
    destruct (Chars.re_word c); [discriminate|reflexivity].
  - intros c hc. unfold word_boundary in wbe.
    destruct e as [|p]; [lia|].
    destruct (run p) as (c1 & hc1 & l1); [lia|].
    unfold word_at in wbe. rewrite hc, hc1, (ascii_letter_word _ l1) in wbe.
    destruct (Chars.re_word c); [discriminate|reflexivity].
Qed.

Lemma collect_chain self txt :
  forall ms lo,
    match_chain txt lo ms ->
    Forall (fun t => lo <= triple_start t /\ well_placed txt t
                     /\ check_word self (triple_word t) = false)
           (collect self txt ms)
    /\ StronglySorted (fun a b => triple_start a < triple_start b)
                      (collect self txt ms).
Proof.
  induction ms as [|[s e] ms IH]; intros lo; simpl.
  - intros _. split; constructor.
  - intros (le & hm & chain).
    destruct (IH _ chain) as (each & sorted).
    pose proof (match_at_run _ _ _ hm) as (rng & _).
    assert (Forall (fun t => S s <= triple_start t /\ well_placed txt t
                             /\ check_word self (triple_word t) = false)
                   (collect self txt ms)) as later
        by (eapply Forall_impl; [|exact each]; cbn beta; intros t; intuition lia).
    destruct (check_word self (PyStr.slice txt s e)) eqn:ok; cbn [negb].
    + split; [|exact sorted].
      eapply Forall_impl; [|exact later]. cbn beta. intros t. intuition lia.
    + split.
      * constructor.
        -- unfold triple_start, triple_word. cbn [fst snd].
           split; [exact le|]. split; [now apply match_well_placed|exact ok].
        -- eapply Forall_impl; [|exact later]. cbn beta. intros t. intuition lia.
      * constructor; [exact sorted|].
        eapply Forall_impl; [|exact later]. cbn beta. intros t.
        unfold triple_start at 2. cbn [fst snd]. intuition lia.
Qed.

(** A word with a character that is not alphabetic passes the check. *)
Lemma check_word_not_alpha self word :
  (exists c, In c word /\ Chars.py_isalpha c = false) ->
  check_word self word = true.
Proof.
  intros (c & hin & na). unfold check_word.
  destruct (spell self) as [known|]; [|reflexivity].
  destruct (negb (enabled self) || negb (PyStr.truthy word)); [reflexivity|].
  assert (PyStr.isalpha word = false) as not_alpha.
  { unfold PyStr.isalpha. apply andb_false_iff. right.
    destruct (forallb Chars.py_isalpha word) eqn:all; [|reflexivity].
    rewrite forallb_forall in all. rewrite (all c hin) in na. discriminate. }
  now rewrite not_alpha.
Qed.

(** C9.  For every checker and every text, [find_misspelled_words] ends,
    and every triple (word, start, end) it returns has
    start < end <= len(text) and text[start:end] = word; the word is made of
    ASCII letters only and is not continued by a word character on either
    side (so a token with a digit or an underscore in it is never
    reported); the word fails the check; and the starts are strictly
    increasing.  The word check accepts every word that holds a character
    that is not alphabetic. *)
Theorem misspelled_words_spans :
  (forall self txt,
      exists triples,
        find_misspelled_words self txt = Done triples
        /\ Forall (fun t => well_placed txt t
                            /\ check_word self (triple_word t) = false) triples
        /\ StronglySorted (fun a b => triple_start a < triple_start b) triples)
  /\ (forall self word c,
         In c word -> Chars.py_isalpha c = false -> check_word self word = true).
Proof.
  split.
  - intros self txt. unfold find_misspelled_words.
    destruct (spell self) as [known|] eqn:hs;
      [|exists []; repeat split; constructor].
    destruct (negb (enabled self) || negb (PyStr.truthy txt));
      [exists []; repeat split; constructor|].
    unfold finditer.
    destruct (finditer_loop_chain txt (length txt + 2) 0) as (ms & run & chain);
      try lia.
    rewrite run. cbn [bind]. exists (collect self txt ms).
    destruct (collect_chain self txt ms 0 chain) as (each & sorted).
    split; [reflexivity|]. split; [|exact sorted].
    eapply Forall_impl; [|exact each]. cbn beta. tauto.
  - intros self word c hin na. apply check_word_not_alpha. now exists c.
Qed.

Lemma misspelled_words_spans_witness :
  check_word (mkChecker (Some (fun _ => false)) true) (str "ab1") = true.
Proof.
  apply (proj2 misspelled_words_spans
               (mkChecker (Some (fun _ => false)) true) (str "ab1") "1"%char).
  - simpl. tauto.
  - reflexivity.
Defined.

(** A dictionary that knows "the" and "cat" only: "teh" and "dgo" are
    reported, with their places; "c4t" and "a_b" are not words of the
    pattern; "The" is looked up in lower case. *)
Example misspelled_words_example :
  find_misspelled_words
    (mkChecker (Some (fun w => PyStr.eqb w (str "the") || PyStr.eqb w (str "cat"))) true)
    (str "The teh cat c4t a_b dgo")
  = Done [(str "teh", 4, 7); (str "dgo", 20, 23)].
Proof. reflexivity. Qed.

End Misspelled.

(* ------------------------------------------------------------------ *)
(** ** Words, characters and lines *)

Section Statistics.
Import PyStr TextAnalyzer.

Lemma split_from_whitespace cur a ws b :
  Chars.py_isspace ws = true ->
  split_from cur (a ++ ws :: b) = split_from cur a ++ split_from [] b.
Proof.
  intros hws. revert cur. induction a as [|c a IH]; intros cur; simpl.
  - rewrite hws. destruct cur; reflexivity.
  - destruct (Chars.py_isspace c); [destruct cur; simpl; now rewrite IH|apply IH].
Qed.

Lemma split_from_concat s :
  forall cur, concat (split_from cur s) = rev cur ++ remove_whitespace s.
Proof.
  induction s as [|c s IH]; intros cur; simpl.
  - destruct cur; simpl; now rewrite ?app_nil_r.
  - destruct (Chars.py_isspace c) eqn:sp; simpl.
    + destruct cur; simpl; now rewrite IH.
    + rewrite IH. simpl. now rewrite <- app_assoc.
Qed.

Lemma split_from_words s :
  forall cur, Forall (fun c => Chars.py_isspace c = false) cur ->
              Forall is_word (split_from cur s).
Proof.
  assert (forall cur, cur <> [] -> Forall (fun c => Chars.py_isspace c = false) cur ->
                      is_word (rev cur)) as word.
  { intros cur ne fc. split.
    - intros e. apply ne. now rewrite <- (rev_involutive cur), e.
    - now apply Forall_rev. }
  induction s as [|c s IH]; intros cur fc; simpl.
  - destruct cur; constructor; [apply word; [discriminate|exact fc]|constructor].
  - destruct (Chars.py_isspace c) eqn:sp.
    + destruct cur; [apply IH; constructor|].
      constructor; [apply word; [discriminate|exact fc]|apply IH; constructor].
    + apply IH. now constructor.
Qed.

Lemma count_words_length txt : count_words txt = Z.of_nat (length (split txt)).
Proof. destruct txt; reflexivity. Qed.

Lemma count_characters_without txt :
  count_characters txt false = Z.of_nat (length (remove_whitespace txt)).
Proof. destruct txt; reflexivity. Qed.

Lemma count_characters_with txt : count_characters txt true = Z.of_nat (length txt).
Proof. destruct txt; reflexivity. Qed.

Lemma length_concat_words (ws : list text) :
  Forall is_word ws -> length ws <= length (concat ws).
Proof.
  induction 1 as [|w ws [ne _] _ IH]; simpl; [lia|].
  rewrite length_app. destruct w; [contradiction|simpl; lia].
Qed.

(** X1.  The two character counts differ by the number of whitespace
    characters: counting with spaces is never less than counting
    without. *)
Theorem count_characters_whitespace :
  forall txt,
    count_characters txt true
    = (count_characters txt false
       + Z.of_nat (length (filter Chars.py_isspace txt)))%Z
    /\ (count_characters txt false <= count_characters txt true)%Z.
Proof.
  intros txt. rewrite count_characters_with, count_characters_without.
  assert (length txt
          = length (remove_whitespace txt) + length (filter Chars.py_isspace txt)) as e.
  { unfold remove_whitespace. induction txt as [|c txt IH]; simpl; [reflexivity|].
    destruct (Chars.py_isspace c); simpl; lia. }
  lia.
Qed.

(** X2.  The words of [str.split()] are not empty, hold no whitespace,
    and put end to end they are the text without its whitespace: the count
    of characters without spaces is the total length of the words, the word
    count is at most that count, and both are zero together. *)
Theorem words_are_the_text_without_whitespace :
  forall txt,
    Forall (fun w => w <> [] /\ Forall (fun c => Chars.py_isspace c = false) w)
           (split txt)
    /\ concat (split txt) = remove_whitespace txt
    /\ count_characters txt false = Z.of_nat (length (concat (split txt)))
    /\ (count_words txt <= count_characters txt false)%Z
    /\ (count_words txt = 0%Z <-> count_characters txt false = 0%Z).
Proof.
  intros txt.
  pose proof (split_from_words txt [] (Forall_nil _)) as words.
  pose proof (split_from_concat txt []) as cat. simpl in cat. fold (split txt) in *.
  split; [exact words|]. split; [exact cat|].
  rewrite count_characters_without, count_words_length, <- cat.
  split; [reflexivity|].
  pose proof (length_concat_words _ words) as le.
  split; [lia|].
  split; intros h.
  - assert (split txt = []) as e by (destruct (split txt); [reflexivity|simpl in h; lia]).
    now rewrite e.
  - lia.
Qed.

(** X3.  A whitespace character between two texts separates their words:
    the words of [a], then the words of [b]. *)
Theorem count_words_joined :
  forall a b ws,
    Chars.py_isspace ws = true ->
    split (a ++ ws :: b) = split a ++ split b
    /\ count_words (a ++ ws :: b) = (count_words a + count_words b)%Z.
Proof.
  intros a b ws hws.
  assert (split (a ++ ws :: b) = split a ++ split b) as e
      by (now apply split_from_whitespace).
  split; [exact e|]. rewrite !count_words_length, e, length_app. lia.
Qed.

Lemma count_words_joined_witness :
  split (str "to be" ++ " "%char :: str "or not") = split (str "to be") ++ split (str "or not")
  /\ count_words (str "to be" ++ " "%char :: str "or not")
     = (count_words (str "to be") + count_words (str "or not"))%Z.
Proof. apply (count_words_joined (str "to be") (str "or not") " "%char). reflexivity. Defined.

End Statistics.

(* ------------------------------------------------------------------ *)
(** ** Lines and columns along the text *)

Section LinesAndColumns.
Import PyStr TextAnalyzer.

Lemma count_app c a b : count c (a ++ b) = (count c a + count c b)%Z.
Proof. induction a as [|x a IH]; simpl; [reflexivity|]. rewrite IH. lia. Qed.

Lemma count_nonneg c s : (0 <= count c s)%Z.
Proof. induction s as [|x s IH]; simpl; [lia|]. destruct (Ascii.eqb x c); lia. Qed.

Lemma rfind_from_snoc c s x :
  forall i acc,
    rfind_from c (s ++ [x]) i acc
    = if Ascii.eqb x c then (i + Z.of_nat (length s))%Z else rfind_from c s i acc.
Proof.
  induction s as [|y s IH]; intros i acc; simpl.
  - destruct (Ascii.eqb x c); [lia|reflexivity].
  - rewrite IH. destruct (Ascii.eqb x c); [lia|reflexivity].
Qed.

Lemma firstn_succ (txt : text) o c :
  nth_error txt o = Some c -> firstn (S o) txt = firstn o txt ++ [c].
Proof.
  revert txt. induction o as [|o IH]; intros [|x txt] h; try discriminate.
  - simpl in h. injection h as ->. reflexivity.
  - simpl in h. change (x :: firstn (S o) txt = x :: (firstn o txt ++ [c])).
    f_equal. now apply IH.
Qed.

Lemma rfind_bounds c s : (-1 <= rfind c s < Z.of_nat (length s))%Z.
Proof.
  unfold rfind. destruct (in_dec ascii_dec c s) as [hin|nin].
  - destruct (rfind_from_present c s hin 0%Z (-1)%Z) as (k & hk & _ & ->).
    assert (k < length s) by (apply nth_error_Some; congruence). lia.
  - rewrite rfind_from_absent by assumption. lia.
Qed.

(** The position at a non-negative offset inside a text that is not
    empty, as the body of [get_line_col] computes it. *)
Lemma get_line_col_inside txt (o : nat) :
  txt <> [] -> o <= length txt ->
  get_line_col txt (Z.of_nat o)
  = ((count Chars.newline (firstn o txt) + 1)%Z,
     if (rfind Chars.newline (firstn o txt) =? -1)%Z then (Z.of_nat o + 1)%Z
     else (Z.of_nat o - rfind Chars.newline (firstn o txt))%Z).
Proof.
  intros ne le. unfold get_line_col.
  destruct txt as [|x txt]; [contradiction|]. cbn [truthy negb orb].
  replace (Z.of_nat o <? 0)%Z with false by (symmetry; apply Z.ltb_ge; lia).
  replace (Z.min (Z.of_nat o) (Z.of_nat (length (x :: txt)))) with (Z.of_nat o) by lia.
  unfold slice_to. now rewrite Nat2Z.id.
Qed.

(** X4.  One character to the right: after a line break the position is
    the first column of the next line, after any other character it is the
    next column of the same line; offset 0 is line 1, column 1. *)
Theorem get_line_col_step :
  forall txt (o : nat) c,
    nth_error txt o = Some c ->
    get_line_col txt 0 = (1, 1)%Z
    /\ get_line_col txt (Z.of_nat o + 1)
       = if Chars.is_newline c
         then ((fst (get_line_col txt (Z.of_nat o)) + 1)%Z, 1%Z)
         else (fst (get_line_col txt (Z.of_nat o)),
               (snd (get_line_col txt (Z.of_nat o)) + 1)%Z).
Proof.
  intros txt o c hc.
  assert (o < length txt) as lt by (apply nth_error_Some; congruence).
  assert (txt <> []) as ne by (intros ->; simpl in lt; lia).
  split; [destruct txt; [contradiction|reflexivity]|].
  replace (Z.of_nat o + 1)%Z with (Z.of_nat (S o)) by lia.
  rewrite !get_line_col_inside by (assumption || lia).
  rewrite (firstn_succ _ _ _ hc), count_app. cbn [fst snd count].
  unfold rfind at 1 2. rewrite rfind_from_snoc, length_firstn.
  replace (Nat.min o (length txt)) with o by lia.
  fold (rfind Chars.newline (firstn o txt)).
  pose proof (rfind_bounds Chars.newline (firstn o txt)) as rb.
  rewrite length_firstn in rb.
  unfold Chars.is_newline. destruct (Ascii.eqb c Chars.newline).
  - replace (0 + Z.of_nat o =? -1)%Z with false by (symmetry; apply Z.eqb_neq; lia).
    f_equal; lia.
  - destruct (Z.eqb_spec (rfind Chars.newline (firstn o txt)) (-1)); f_equal; lia.
Qed.

Lemma get_line_col_step_witness :
  get_line_col sample_lines 0 = (1, 1)%Z
  /\ get_line_col sample_lines (Z.of_nat 5 + 1)
     = if Chars.is_newline Chars.newline
       then ((fst (get_line_col sample_lines (Z.of_nat 5)) + 1)%Z, 1%Z)
       else (fst (get_line_col sample_lines (Z.of_nat 5)),
             (snd (get_line_col sample_lines (Z.of_nat 5)) + 1)%Z).
Proof. apply (get_line_col_step sample_lines 5 Chars.newline). reflexivity. Defined.

Lemma get_line_col_positive txt (o : nat) :
  o <= length txt -> (1 <= snd (get_line_col txt (Z.of_nat o)))%Z.
Proof.
  intros le. destruct txt as [|x txt]; [simpl; lia|].
  rewrite get_line_col_inside by (discriminate || assumption). cbn [snd].
  pose proof (rfind_bounds Chars.newline (firstn o (x :: txt))) as rb.
  rewrite length_firstn in rb.
  destruct (Z.eqb_spec (rfind Chars.newline (firstn o (x :: txt))) (-1)); lia.
Qed.

(** X5.  Positions grow with the offset: of two offsets inside the text,
    the later one is on a later line, or on the same line at a later column.
    So (line, column) tells the offsets of a text apart. *)
Theorem get_line_col_increasing :
  forall txt (o1 o2 : Z),
    (0 <= o1 < o2)%Z -> (o2 <= Z.of_nat (length txt))%Z ->
    before (get_line_col txt o1) (get_line_col txt o2).
Proof.
  intros txt o1 o2 [nonneg lt] hi.
  replace o1 with (Z.of_nat (Z.to_nat o1)) by lia.
  replace o2 with (Z.of_nat (Z.to_nat o2)) by lia.
  assert (Z.to_nat o1 < Z.to_nat o2 <= length txt) as rng by lia.
  generalize dependent (Z.to_nat o2). generalize (Z.to_nat o1).
  clear o1 o2 nonneg lt hi. intros a b.
  induction b as [|b IH]; intros rng; [lia|].
  assert (exists c, nth_error txt b = Some c) as [c hc].
  { destruct (nth_error txt b) eqn:h; [eauto|]. apply nth_error_None in h. lia. }
  destruct (get_line_col_step txt b c hc) as [_ step].
  replace (Z.of_nat (S b)) with (Z.of_nat b + 1)%Z by lia. rewrite step.
  pose proof (get_line_col_positive txt b ltac:(lia)) as colb.
  pose proof (get_line_col_positive txt a ltac:(lia)) as cola.
  assert (a = b \/ a < b) as [->|ab] by lia.
  - unfold before. destruct (Chars.is_newline c); cbn [fst snd]; lia.
  - specialize (IH ltac:(lia)). unfold before in *.
    destruct (Chars.is_newline c); cbn [fst snd]; lia.
Qed.

Lemma get_line_col_increasing_witness :
  before (get_line_col sample_lines 4) (get_line_col sample_lines 9).
Proof.
  apply (get_line_col_increasing sample_lines 4 9); [lia|simpl; lia].
Defined.

(** X6.  What the status bar shows: the current line is between 1 and the
    number of lines, which the cursor reaches at the end of the text (or
    past it); the column is at least 1; there are no more words than
    characters, with either way of counting them. *)
Theorem get_statistics_consistent :
  forall txt cursor_position with_spaces,
    let stats := get_statistics txt cursor_position with_spaces in
    (1 <= current_line stats <= total_lines stats)%Z
    /\ (1 <= current_col stats)%Z
    /\ ((Z.of_nat (length txt) <= cursor_position)%Z ->
        current_line stats = total_lines stats)
    /\ (0 <= words stats <= characters stats)%Z
    /\ total_lines stats = (count Chars.newline txt + 1)%Z.
Proof.
  intros txt pos ws stats. subst stats. unfold get_statistics.
  destruct (get_line_col txt pos) as [line col] eqn:lc. cbn.
  assert (count_lines txt = (count Chars.newline txt + 1)%Z) as cl
      by (destruct txt; reflexivity).
  assert ((0 <= count_words txt <= count_characters txt ws)%Z) as wc.
  { destruct (words_are_the_text_without_whitespace txt) as (_ & _ & _ & le & _).
    destruct (count_characters_whitespace txt) as [_ le2].
    rewrite count_words_length in *. destruct ws; lia. }
  destruct txt as [|x txt].
  { simpl in lc. injection lc as <- <-. simpl in *. repeat split; lia. }
  destruct (Z.ltb_spec pos 0) as [neg|nonneg].
  { unfold get_line_col in lc. cbn [truthy negb orb] in lc.
    replace (pos <? 0)%Z with true in lc by (symmetry; apply Z.ltb_lt; lia).
    injection lc as <- <-. rewrite cl.
    pose proof (count_nonneg Chars.newline (x :: txt)).
    repeat split; try lia. }
  set (o := Z.to_nat (Z.min pos (Z.of_nat (length (x :: txt))))).
  assert (get_line_col (x :: txt) pos = get_line_col (x :: txt) (Z.of_nat o)) as same.
  { unfold get_line_col. cbn [truthy negb orb].
    replace (pos <? 0)%Z with false by (symmetry; apply Z.ltb_ge; lia).
    replace (Z.of_nat o <? 0)%Z with false by (symmetry; apply Z.ltb_ge; lia).
    replace (Z.min (Z.of_nat o) (Z.of_nat (length (x :: txt))))
      with (Z.min pos (Z.of_nat (length (x :: txt)))) by (subst o; lia).
    reflexivity. }
  assert (o <= length (x :: txt)) as ole by (subst o; lia).
  pose proof (get_line_col_positive (x :: txt) o ole) as colpos.
  rewrite <- same, lc in colpos. cbn [snd] in colpos.
  rewrite same, get_line_col_inside in lc by (discriminate || assumption).
  injection lc as <- _.
  rewrite cl.
  assert (count Chars.newline (x :: txt)
          = (count Chars.newline (firstn o (x :: txt))
             + count Chars.newline (skipn o (x :: txt)))%Z) as parts
      by (now rewrite <- count_app, firstn_skipn).
  pose proof (count_nonneg Chars.newline (firstn o (x :: txt))).
  pose proof (count_nonneg Chars.newline (skipn o (x :: txt))).
  repeat split; try lia.
  intros past.
  assert (skipn o (x :: txt) = []) as e by (apply skipn_all2; lia).
  rewrite e in parts. simpl count at 3 in parts. lia.
Qed.

Lemma get_statistics_consistent_witness :
  current_line (get_statistics sample_lines 17 true)
  = total_lines (get_statistics sample_lines 17 true).
Proof.
  apply (proj1 (proj2 (proj2 (get_statistics_consistent sample_lines 17 true)))).
  simpl. lia.
Defined.

End LinesAndColumns.

(* ------------------------------------------------------------------ *)
(** ** The word check and the words it is asked about *)

Section WordCheck.
Import SpellCheck.

(** X7.  The word check looks at a word only through [str.isalpha] and
    [str.lower]: two words with the same lower-case form that are both
    alphabetic, or both not, get the same answer; so among alphabetic words
    the answer does not depend on the case of the letters. *)
Theorem check_word_ignores_case :
  forall self w w',
    PyStr.lower w = PyStr.lower w' ->
    PyStr.isalpha w = PyStr.isalpha w' ->
    check_word self w = check_word self w'.
Proof.
  intros self w w' same alpha. unfold check_word.
  destruct (spell self) as [known|]; [|reflexivity].
  assert (PyStr.truthy w = PyStr.truthy w') as tr.
  { apply (f_equal (@length ascii)) in same. unfold PyStr.lower in same.
    rewrite !length_map in same. destruct w, w'; simpl in *; congruence. }
  rewrite same, tr, alpha. reflexivity.
Qed.

Lemma check_word_ignores_case_witness :
  check_word (mkChecker (Some (fun w => PyStr.eqb w (str "the"))) true) (str "The")
  = check_word (mkChecker (Some (fun w => PyStr.eqb w (str "the"))) true) (str "tHE").
Proof.
  apply (check_word_ignores_case
           (mkChecker (Some (fun w => PyStr.eqb w (str "the"))) true)
           (str "The") (str "tHE")).
  - reflexivity.
  - reflexivity.
Defined.

Lemma letters_run_exact d n :
  (forall k, k < n -> exists c, nth_error d k = Some c
                                /\ Chars.is_ascii_letter c = true) ->
  (forall c, nth_error d n = Some c -> Chars.is_ascii_letter c = false) ->
  letters_run d = n.
Proof.
  revert d. induction n as [|n IH]; intros d run stop.
  - destruct d as [|c d]; [reflexivity|]. simpl. now rewrite (stop c eq_refl).
  - destruct (run 0) as (c & hc & lc); [lia|].
    destruct d as [|c' d]; [discriminate|]. simpl in hc. injection hc as ->.
    simpl. rewrite lc. f_equal. apply IH.
    + intros k lt. apply (run (S k)). lia.
    + intros x hx. apply (stop x). exact hx.
Qed.

Lemma not_word_not_letter c : Chars.re_word c = false -> Chars.is_ascii_letter c = false.
Proof.
  intros h. destruct (Chars.is_ascii_letter c) eqn:l; [|reflexivity].
  apply ascii_letter_word in l. congruence.
Qed.

(** A run of letters between two places where no word goes on is a
    match of the pattern. *)
Lemma delimited_run_matches txt s e :
  s < e ->
  (forall k, s <= k < e ->
             exists c, nth_error txt k = Some c /\ Chars.is_ascii_letter c = true) ->
  (forall c, 0 < s -> nth_error txt (s - 1) = Some c -> Chars.re_word c = false) ->
  (forall c, nth_error txt e = Some c -> Chars.re_word c = false) ->
  match_at txt s = Some e.
Proof.
  intros lt run left right.
  assert (forall k, s <= k < e -> word_at txt k = true) as inword.
  { intros k rk. destruct (run k rk) as (c & hc & lc). unfold word_at.
    rewrite hc. now apply ascii_letter_word. }
  assert (word_at txt e = false) as out.
  { unfold word_at. destruct (nth_error txt e) as [c|] eqn:hc; [|reflexivity].
    now apply right. }
  assert (word_boundary txt s = true) as wbs.
  { unfold word_boundary. rewrite (inword s) by lia.
    destruct s as [|p]; [reflexivity|].
    unfold word_at at 1. destruct (nth_error txt p) as [c|] eqn:hc; [|reflexivity].
    rewrite (left c); [reflexivity|lia|]. now replace (S p - 1) with p by lia. }
  assert (word_boundary txt e = true) as wbe.
  { unfold word_boundary. rewrite out. destruct e as [|p]; [lia|].
    now rewrite (inword p) by lia. }
  assert (letters_run (skipn s txt) = e - s) as lr.
  { apply letters_run_exact.
    - intros k lk. rewrite nth_error_skipn. apply run. lia.
    - intros c hc. rewrite nth_error_skipn in hc.
      replace (s + (e - s)) with e in hc by lia.
      apply not_word_not_letter. now apply right. }
  unfold match_at. rewrite wbs, lr.
  destruct (e - s) as [|k] eqn:ek; [lia|]. simpl.
  replace (s + S k) with e by lia. now rewrite wbe.
Qed.

(** [finditer] does not pass over a delimited run. *)
Lemma finditer_loop_finds txt s e :
  match_at txt s = Some e ->
  (forall c, 0 < s -> nth_error txt (s - 1) = Some c -> Chars.re_word c = false) ->
  forall fuel pos ms,
    pos <= s ->
    finditer_loop fuel txt pos = Done ms ->
    In (s, e) ms.
Proof.
  intros hm left. pose proof (match_at_run _ _ _ hm) as (rng & _).
  induction fuel as [|fuel IH]; intros pos ms le; simpl; [discriminate|].
  destruct (Nat.ltb_spec (length txt) pos) as [past|inside]; [lia|].
  destruct (match_at txt pos) as [q|] eqn:hq.
  - destruct (finditer_loop fuel txt q) as [rest| |] eqn:run; try discriminate.
    cbn [bind]. intros [= <-].
    assert (pos = s \/ pos < s) as [->|before] by lia.
    + left. congruence.
    + right. apply (IH q rest); [|exact run].
      pose proof (match_at_run _ _ _ hq) as (rq & letters & _).
      destruct (Nat.le_gt_cases q s) as [ok|over]; [exact ok|exfalso].
      destruct (letters (s - 1)) as (c & hc & lc); [lia|].
      apply ascii_letter_word in lc. rewrite (left c) in lc; [discriminate|lia|exact hc].
  - intros run. apply (IH (S pos) ms); [|exact run].
    assert (pos <> s) by congruence. lia.
Qed.

Lemma collect_keeps self txt s e ms :
  In (s, e) ms ->
  check_word self (PyStr.slice txt s e) = false ->
  In (PyStr.slice txt s e, s, e) (collect self txt ms).
Proof.
  intros hin bad. induction ms as [|[s' e'] ms IH]; [contradiction|].
  simpl. destruct hin as [[= -> ->]|hin].
  - rewrite bad. now left.
  - destruct (check_word self (PyStr.slice txt s' e')); simpl; auto.
Qed.

(** X8.  Nothing is passed over: every run of ASCII letters of the text
    that no word character continues on either side, and that fails the
    word check, is among the triples of [find_misspelled_words]. *)
Theorem misspelled_words_complete :
  forall self txt s e,
    s < e ->
    (forall k, s <= k < e ->
               exists c, nth_error txt k = Some c /\ Chars.is_ascii_letter c = true) ->
    (forall c, 0 < s -> nth_error txt (s - 1) = Some c -> Chars.re_word c = false) ->
    (forall c, nth_error txt e = Some c -> Chars.re_word c = false) ->
    check_word self (PyStr.slice txt s e) = false ->
    exists triples,
      find_misspelled_words self txt = Done triples
      /\ In (PyStr.slice txt s e, s, e) triples.
Proof.
  intros self txt s e lt run left right bad.
  pose proof (delimited_run_matches txt s e lt run left right) as hm.
  assert (spell self <> None /\ enabled self = true) as [hs he].
  { unfold check_word in bad. destruct (spell self); [|discriminate].
    destruct (enabled self); [split; [discriminate|reflexivity]|discriminate]. }
  destruct (finditer_loop_chain txt (length txt + 2) 0) as (ms & fi & _); try lia.
  exists (collect self txt ms). split.
  - unfold find_misspelled_words. destruct (spell self); [|contradiction].
    rewrite he. destruct txt as [|x txt].
    { destruct (run s) as (c & hc & _); [lia|]. destruct s; discriminate. }
    cbn [negb orb PyStr.truthy]. unfold finditer. rewrite fi. reflexivity.
  - apply collect_keeps; [|exact bad].
    eapply finditer_loop_finds; [exact hm|exact left| |exact fi]. lia.
Qed.

Lemma misspelled_words_complete_witness :
  exists triples,
    find_misspelled_words (mkChecker (Some (fun w => PyStr.eqb w (str "cat"))) true)
                          (str "a teh cat")
    = Done triples
    /\ In (PyStr.slice (str "a teh cat") 2 5, 2, 5) triples.
Proof.
  apply (misspelled_words_complete
           (mkChecker (Some (fun w => PyStr.eqb w (str "cat"))) true)
           (str "a teh cat") 2 5).
  - lia.
  - intros k rk.
    assert (k = 2 \/ k = 3 \/ k = 4) as [-> | [-> | ->]] by lia;
      eexists; split; reflexivity.
  - intros c _ hc. injection hc as <-. reflexivity.
  - intros c hc. injection hc as <-. reflexivity.
  - reflexivity.
Defined.

(** X9.  A checker whose dictionary failed to load cannot be switched on,
    and a checker that is off reports no word and accepts every word. *)
Theorem disabled_checker_is_silent :
  (forall self on, spell self = None -> is_enabled (set_enabled self on) = false)
  /\ (forall self, is_enabled (set_enabled self false) = false)
  /\ (forall self txt word,
         is_enabled self = false ->
         find_misspelled_words self txt = Done []
         /\ check_word self word = true).
Proof.
  split; [|split].
  - intros self on hs. unfold is_enabled, set_enabled. cbn [enabled].
    rewrite hs. apply andb_false_r.
  - reflexivity.
  - intros self txt word off. unfold is_enabled in off.
    unfold find_misspelled_words, check_word. rewrite off.
    destruct (spell self); split; reflexivity.
Qed.

Lemma disabled_checker_is_silent_witness :
  is_enabled (set_enabled (mkChecker None false) true) = false.
Proof.
  apply (proj1 disabled_checker_is_silent (mkChecker None false) true). reflexivity.
Defined.

End WordCheck.

(* ------------------------------------------------------------------ *)
(** ** Replace all: what every run does *)

Section ReplaceAllRuns.
Import Qt UI.

Lemma inserted_length (t : text) : length (inserted t) <= length t.
Proof.
  assert (forall n t, length t <= n -> length (inserted t) <= length t) as gen.
  { induction n as [|n IH]; intros [|c u] le; simpl in *; try lia.
    destruct (Chars.is_carriage_return c).
    - destruct u as [|d u]; simpl; [lia|].
      destruct (Chars.is_newline d).
      + specialize (IH u). simpl in le. lia.
      + specialize (IH (d :: u)). simpl in *. lia.
    - specialize (IH u). simpl. lia. }
  now apply (gen (length t)).
Qed.

Lemma replace_all_loop_accounts term repl flags :
  forall fuel editor out rest count,
    document editor = out ++ rest ->
    length rest < fuel ->
    exists editor' n,
      replace_all_loop fuel editor term repl flags
                       (mkCursor (length out) (length out)) count
      = Done (editor', count + n)
      /\ length (document editor') + n * length term
         = length (document editor) + n * length (inserted repl)
      /\ n * length term <= length rest.
Proof.
  induction fuel as [|fuel IH]; intros editor out rest count hdoc lt; [lia|].
  destruct (replace_all_loop_turn fuel editor out rest term repl flags count hdoc)
    as [[_ stop]|(j & editor1 & us & _ & hi & _ & hdoc1 & turn)].
  - exists editor, 0. rewrite stop. split; [f_equal; f_equal; lia|]. simpl. lia.
  - pose proof (usable_length _ us) as tpos.
    destruct (IH editor1 (out ++ firstn j rest ++ inserted repl)
                 (skipn (j + length term) rest)
                 (count + 1) hdoc1) as (editor' & n & run & len & le).
    { rewrite length_skipn. lia. }
    exists editor', (S n). rewrite turn, run. split; [f_equal; f_equal; lia|].
    rewrite hdoc1 in len. rewrite hdoc.
    rewrite !length_app, length_firstn, length_skipn in *.
    replace (Nat.min j (length rest)) with j in len by lia.
    simpl. lia.
Qed.

(** X10.  Replace-all always ends, whatever the options and even when
    the replacement holds the term; each of the [count] replacements
    takes out as many characters as the term has and puts in as many as the
    toolkit inserts for the replacement, and there are no more of them than
    the document has room for.  What the toolkit inserts is never longer
    than the replacement, and is the replacement itself when that holds no
    U+000D. *)
Theorem replace_all_accounts :
  forall dialog editor status,
    dialog_find_input dialog <> [] ->
    exists editor' count,
      dialog_replace_all dialog editor status
      = Done (editor', Some (ReplacedOccurrences count))
      /\ length (document editor') + count * length (dialog_find_input dialog)
         = length (document editor) + count * length (inserted (replace_input dialog))
      /\ count * length (dialog_find_input dialog) <= length (document editor)
      /\ length (inserted (replace_input dialog)) <= length (replace_input dialog)
      /\ (~ In Chars.carriage_return (replace_input dialog) ->
          inserted (replace_input dialog) = replace_input dialog).
Proof.
  intros dialog editor status ne. unfold dialog_replace_all.
  destruct (dialog_find_input dialog) as [|t term] eqn:ht; [contradiction|].
  cbn [PyStr.truthy negb]. unfold setPosition. cbn [Nat.leb].
  destruct (replace_all_loop_accounts (t :: term) (replace_input dialog)
              (dialog_flags dialog) (S (length (document editor))) editor []
              (document editor) 0 eq_refl) as (editor' & n & run & len & le); [lia|].
  cbn [length app] in run. rewrite run. cbn [bind].
  exists editor', n. split; [reflexivity|]. split; [exact len|]. split; [exact le|].
  split; [apply inserted_length|apply inserted_plain].
Qed.

Lemma replace_all_accounts_witness :
  exists editor' count,
    dialog_replace_all (mkDialog (str "a") (str "aa") false true true)
                       (fresh_editor (str "a a")) None
    = Done (editor', Some (ReplacedOccurrences count))
    /\ length (document editor') + count * 1 = 3 + count * 2
    /\ count * 1 <= 3
    /\ 2 <= 2
    /\ (~ In Chars.carriage_return (str "aa") -> str "aa" = str "aa").
Proof.
  apply (replace_all_accounts (mkDialog (str "a") (str "aa") false true true)
                              (fresh_editor (str "a a")) None).
  simpl. discriminate.
Defined.

(** X10 on a replacement with a line break: "x", U+000D, U+000A, "y" for
    "a" puts three characters in, not four. *)
Example replace_all_counts_inserted :
  map_outcome replace_all_result
    (dialog_replace_all
       (mkDialog (str "a") (str "x" ++ [Chars.carriage_return; Chars.newline] ++ str "y")
                 true false true)
       (fresh_editor (str "a")) None)
  = Done (str "x" ++ [Chars.newline] ++ str "y", Some 1).
Proof. reflexivity. Qed.

Lemma replace_all_loop_same_text term flags :
  FindCaseSensitively flags = true ->
  forall fuel editor out rest count,
    document editor = out ++ rest ->
    ~ In Chars.nbsp rest ->
    length rest < fuel ->
    exists editor' n,
      replace_all_loop fuel editor term term flags
                       (mkCursor (length out) (length out)) count
      = Done (editor', n)
      /\ document editor' = document editor.
Proof.
  intros cs.
  induction fuel as [|fuel IH]; intros editor out rest count hdoc nn lt; [lia|].
  destruct (replace_all_loop_turn fuel editor out rest term term flags count hdoc)
    as [[_ stop]|(j & editor1 & us & _ & hi & sw & hdoc1 & turn)].
  - exists editor, count. now rewrite stop.
  - rewrite cs in sw. rewrite (inserted_usable _ us) in hdoc1, turn.
    pose proof (usable_length _ us) as tpos.
    assert (firstn (length term) (skipn j rest) = term) as literal.
    { apply (starts_with_reads true); [|exact sw].
      intros h. apply nn. eapply in_skipn; eassumption. }
    assert (document editor1 = document editor) as same.
    { rewrite hdoc1, hdoc, <- !app_assoc. f_equal.
      transitivity (firstn j rest ++ skipn j rest); [|apply firstn_skipn]. f_equal.
      pose proof (firstn_skipn (length term) (skipn j rest)) as fs.
      rewrite literal, skipn_skipn, (Nat.add_comm (length term) j) in fs.
      exact fs. }
    destruct (IH editor1 (out ++ firstn j rest ++ term) (skipn (j + length term) rest)
                 (count + 1) hdoc1) as (editor' & n & run & hdoc').
    + intros h. apply nn. eapply in_skipn; eassumption.
    + rewrite length_skipn. lia.
    + exists editor', n. rewrite turn, run. split; [reflexivity|]. congruence.
Qed.

(** X11.  Replacing a term by itself, case-sensitively, in a document
    without U+00A0 leaves the document as it is, with or without the
    whole-word option. *)
Theorem replace_all_by_itself :
  forall dialog editor status,
    case_sensitive dialog = true ->
    replace_input dialog = dialog_find_input dialog ->
    ~ In Chars.nbsp (document editor) ->
    exists result,
      dialog_replace_all dialog editor status = Done result
      /\ document (fst result) = document editor.
Proof.
  intros dialog editor status cs same nn. unfold dialog_replace_all.
  rewrite same.
  destruct (dialog_find_input dialog) as [|t term] eqn:ht.
  - exists (editor, status). split; reflexivity.
  - cbn [PyStr.truthy negb]. unfold setPosition. cbn [Nat.leb].
    destruct (replace_all_loop_same_text (t :: term) (dialog_flags dialog) cs
                (S (length (document editor))) editor [] (document editor) 0 eq_refl nn)
      as (editor' & n & run & hdoc); [lia|].
    cbn [length app] in run. rewrite run. cbn [bind].
    eexists. split; [reflexivity|exact hdoc].
Qed.

Lemma replace_all_by_itself_witness :
  exists result,
    dialog_replace_all (mkDialog (str "ab") (str "ab") true true true)
                       (fresh_editor (str "ab abab ab")) None
    = Done result
    /\ document (fst result) = str "ab abab ab".
Proof.
  apply (replace_all_by_itself (mkDialog (str "ab") (str "ab") true true true)
                               (fresh_editor (str "ab abab ab")) None).
  - reflexivity.
  - reflexivity.
  - simpl. intuition discriminate.
Defined.

End ReplaceAllRuns.

(* ------------------------------------------------------------------ *)
(** ** Searching again, and where the cursor goes *)

Section SearchState.
Import Qt UI.

Ltac window_simpl :=
  cbn [current_editor find_input find_case_sensitive find_matches
       current_match_index statusBar showMessage set_editor set_find_state
       setExtraSelections setTextCursor document textCursor extraSelections
       PyStr.truthy negb bind option_map].

(** X12.  Searching twice is searching once: [perform_find] run on the
    window it has just produced gives that window again; it never changes
    the document; and after a search that ran, closing the find widget and
    searching again gives the same matches, index, highlights and message. *)
Theorem perform_find_again :
  (forall w w1,
      perform_find w = Done w1 ->
      perform_find w1 = Done w1
      /\ option_map document (current_editor w1)
         = option_map document (current_editor w))
  /\ (forall w w1 editor,
         current_editor w = Some editor ->
         PyStr.strip (find_input w) <> [] ->
         perform_find w = Done w1 ->
         map_outcome search_result (perform_find (close_find_widget w1))
         = Done (search_result w1)).
Proof.
  split.
  - intros [ced input mc ms idx st] w1. unfold perform_find.
    window_simpl.
    destruct ced as [[doc cur sels]|]; [|intros [= <-]; split; reflexivity].
    destruct (PyStr.strip input) as [|t term] eqn:hs.
    + window_simpl. intros [= <-]. window_simpl. rewrite hs. split; reflexivity.
    + window_simpl.
      destruct (perform_find_loop _ _ _ _ _ _ _) as [[ms' sels']| |] eqn:run;
        try discriminate.
      window_simpl. destruct ms' as [|m ms'].
      * window_simpl. intros [= <-]. window_simpl. rewrite hs. window_simpl.
        rewrite run. split; reflexivity.
      * unfold jump_to_match. window_simpl.
        change (py_index (m :: ms') 0%Z) with (Done m). window_simpl.
        intros [= <-]. window_simpl. rewrite hs. window_simpl.
        rewrite run. window_simpl.
        change (py_index (m :: ms') 0%Z) with (Done m). split; reflexivity.
  - intros [ced input mc ms idx st] w1 editor.
    cbn [current_editor find_input]. intros -> hs. unfold perform_find.
    window_simpl.
    destruct (PyStr.strip input) as [|t term] eqn:hst; [contradiction|].
    destruct editor as [doc cur sels].
    window_simpl.
    destruct (perform_find_loop _ _ _ _ _ _ _) as [[ms' sels']| |] eqn:run;
      try discriminate.
    window_simpl. destruct ms' as [|m ms'].
    + window_simpl. intros [= <-]. unfold close_find_widget. window_simpl.
      rewrite hst. window_simpl. rewrite run. reflexivity.
    + unfold jump_to_match. window_simpl.
      change (py_index (m :: ms') 0%Z) with (Done m). window_simpl.
      intros [= <-]. unfold close_find_widget. window_simpl.
      rewrite hst. window_simpl. rewrite run. window_simpl.
      change (py_index (m :: ms') 0%Z) with (Done m). reflexivity.
Qed.

Lemma perform_find_again_witness :
  map_outcome search_result
    (perform_find (close_find_widget
                     (mkWindow (Some (mkEditor (str "a") (mkCursor 0 1) [mkCursor 0 1]))
                               (str "a") false [0] 0%Z (Some (FoundMatches 1)))))
  = Done (search_result
            (mkWindow (Some (mkEditor (str "a") (mkCursor 0 1) [mkCursor 0 1]))
                      (str "a") false [0] 0%Z (Some (FoundMatches 1)))).
Proof.
  apply (proj2 perform_find_again unsearched_window _ (fresh_editor (str "a"))).
  - reflexivity.
  - vm_compute. discriminate.
  - reflexivity.
Defined.

Lemma py_index_nth {A : Type} (l : list A) (i : Z) a :
  (0 <= i)%Z -> nth_error l (Z.to_nat i) = Some a -> py_index l i = Done a.
Proof.
  intros nonneg hn. unfold py_index.
  replace (i <? 0)%Z with false by (symmetry; apply Z.ltb_ge; lia).
  replace (i <? 0)%Z with false by (symmetry; apply Z.ltb_ge; lia).
  now rewrite hn.
Qed.

(** [jump_to_match] at a highlight that has the length of the find field
    and lies in the document: the cursor selects that highlight. *)
Lemma jump_to_match_selects w ed i sp :
  current_editor w = Some ed ->
  find_matches w = map fst (highlighted ed) ->
  (0 <= i)%Z ->
  nth_error (highlighted ed) (Z.to_nat i) = Some sp ->
  snd sp = fst sp + length (find_input w) ->
  snd sp <= length (document ed) ->
  exists w',
    jump_to_match w i = Done w'
    /\ current_editor w' = Some (setTextCursor ed (mkCursor (fst sp) (snd sp)))
    /\ find_matches w' = find_matches w
    /\ current_match_index w' = current_match_index w
    /\ find_input w' = find_input w.
Proof.
  intros hed hm nonneg hn len inside. unfold jump_to_match. rewrite hed.
  assert (nth_error (find_matches w) (Z.to_nat i) = Some (fst sp)) as hp
      by (rewrite hm, nth_error_map, hn; reflexivity).
  destruct (find_matches w) as [|m ms] eqn:hms.
  { destruct (Z.to_nat i); discriminate. }
  rewrite (py_index_nth _ _ _ nonneg hp). cbn [bind].
  unfold setPosition, setPosition_KeepAnchor.
  replace (fst sp <=? length (document ed)) with true
    by (symmetry; apply Nat.leb_le; lia).
  cbn [anchor].
  replace (fst sp + length (find_input w) <=? length (document ed)) with true
    by (symmetry; apply Nat.leb_le; lia).
  eexists. split; [reflexivity|]. cbn. rewrite len. auto.
Qed.

Lemma span_ordered a b : a <= b -> span (mkCursor a b) = (a, b).
Proof. intros le. unfold span, selectionStart, selectionEnd. simpl. f_equal; lia. Qed.

(** After a jump as in [jump_to_match_selects], in a window with the
    index [i], the current match is selected. *)
Lemma jump_keeps_selected w ed i sp :
  current_editor w = Some ed ->
  find_matches w = map fst (highlighted ed) ->
  Forall (fun sp => snd sp = fst sp + length (find_input w)
                    /\ snd sp <= length (document ed)) (highlighted ed) ->
  (0 <= i)%Z ->
  nth_error (highlighted ed) (Z.to_nat i) = Some sp ->
  current_match_index w = i ->
  exists w', jump_to_match w i = Done w' /\ current_match_selected w'
             /\ find_matches w' = find_matches w
             /\ current_match_index w' = i.
Proof.
  intros hed hm each nonneg hn hi.
  pose proof (proj1 (Forall_forall _ _) each sp (nth_error_In _ _ hn)) as [len inside].
  destruct (jump_to_match_selects w ed i sp hed hm nonneg hn len inside)
    as (w' & run & hed' & hm' & hi' & hin').
  exists w'. split; [exact run|]. split; [|split; congruence].
  exists (setTextCursor ed (mkCursor (fst sp) (snd sp))).
  split; [exact hed'|]. unfold highlighted in *. cbn [extraSelections setTextCursor document].
  rewrite hm', hin', hi', hi. split; [exact hm|]. split; [exact each|].
  intros _. split; [exact nonneg|]. cbn [textCursor setTextCursor].
  rewrite span_ordered by lia. rewrite hn. now destruct sp.
Qed.

(** X13.  The cursor follows the search, for a document and a find
    field over the alphabet U+0000..U+00FF ([jump_to_match] places the end
    of the selection by [len(search_text)], which counts characters, on the
    positions of the toolkit, which counts UTF-16 units: the two agree when
    every character of the term is one unit).  When the find field holds no
    blank at either end, [perform_find] leaves a window where the highlights
    have the length of the term and the visible cursor selects the highlight
    of the current index; [find_next] and [find_previous] keep it so, the
    index moving by one, round the match set. *)
Theorem cursor_selects_current_match :
  (forall w editor,
      current_editor w = Some editor ->
      PyStr.strip (find_input w) = find_input w ->
      find_input w <> [] ->
      exists w1, perform_find w = Done w1 /\ current_match_selected w1)
  /\ (forall w,
         current_match_selected w ->
         find_matches w <> [] ->
         exists wn wp,
           find_next w = Done wn /\ find_previous w = Done wp
           /\ current_match_selected wn /\ current_match_selected wp).
Proof.
  split.
  - intros w editor hed plain ne. unfold perform_find. rewrite hed, plain.
    destruct (find_input w) as [|t term] eqn:hin; [contradiction|].
    cbn [PyStr.truthy negb].
    set (doc := document editor).
    destruct (perform_find_loop_chain doc (t :: term)
                (mkFlags (find_case_sensitive w) false)
                (S (length doc)) (setPosition doc 0 (mkCursor 0 0)) [] [])
      as (cs & run & chain); try lia.
    rewrite run. cbn [bind app].
    assert (selectionEnd (setPosition doc 0 (mkCursor 0 0)) = 0) as z
        by (unfold setPosition; destruct (0 <=? length doc); reflexivity).
    rewrite z in chain.
    destruct (chained_spans (length (t :: term)) (length doc) ltac:(simpl; lia) cs 0 chain)
      as (starts & each & _ & _).
    assert (Forall (fun sp => snd sp = fst sp + length (t :: term)
                              /\ snd sp <= length doc) (map span cs)) as each'
        by (eapply Forall_impl; [|exact each]; cbn beta; intros sp; lia).
    destruct cs as [|c cs].
    + eexists. split; [reflexivity|].
      exists (setExtraSelections editor []). cbn.
      repeat split; try constructor; contradiction.
    + cbn [map find_matches set_editor set_find_state].
      destruct (jump_keeps_selected
                  (set_find_state
                     (set_editor
                        (set_find_state (set_find_state w [] (-1)%Z)
                                        (selectionStart c :: map selectionStart cs) (-1)%Z)
                        (setExtraSelections editor (c :: cs)))
                     (selectionStart c :: map selectionStart cs) 0%Z)
                  (setExtraSelections editor (c :: cs)) 0%Z (span c))
        as (w' & jump & sel & hm' & hi'); try reflexivity; try lia.
      * cbn. exact starts.
      * cbn [find_input set_find_state set_editor]. rewrite hin. exact each'.
      * rewrite jump. cbn [bind].
        eexists. split; [reflexivity|].
        destruct sel as (ed & h1 & h2 & h3 & h4).
        exists ed. cbn. auto.
  - intros w (ed & hed & hm & each & cur) ne.
    set (n := Z.of_nat (length (find_matches w))).
    assert (0 < n)%Z as npos
        by (subst n; destruct (find_matches w); [contradiction|simpl length; lia]).
    assert (forall i, (0 <= i < n)%Z ->
              exists w', jump_to_match (set_find_state w (find_matches w) i) i = Done w'
                         /\ current_match_selected w') as jump.
    { intros i rng.
      destruct (nth_error (highlighted ed) (Z.to_nat i)) as [sp|] eqn:hn.
      2:{ apply nth_error_None in hn. subst n. rewrite hm, length_map in rng. lia. }
      destruct (jump_keeps_selected (set_find_state w (find_matches w) i) ed i sp)
        as (w' & run & sel & _); try assumption; try reflexivity; try lia.
      exists w'. auto. }
    destruct (jump ((current_match_index w + 1) mod n)%Z) as (wn & hn & seln);
      [apply Z.mod_pos_bound; lia|].
    destruct (jump ((current_match_index w - 1) mod n)%Z) as (wp & hp & selp);
      [apply Z.mod_pos_bound; lia|].
    exists wn, wp. unfold find_next, find_previous.
    destruct (find_matches w) as [|m ms] eqn:hms; [contradiction|].
    fold n. cbn [current_match_index set_find_state]. auto.
Qed.

Lemma cursor_selects_current_match_witness :
  exists w1, perform_find (fresh_window (str "a fox, a fox") (str "fox") false) = Done w1
             /\ current_match_selected w1.
Proof.
  apply (proj1 cursor_selects_current_match
               (fresh_window (str "a fox, a fox") (str "fox") false)
               (fresh_editor (str "a fox, a fox"))).
  - reflexivity.
  - reflexivity.
  - simpl. discriminate.
Defined.

End SearchState.

(* ------------------------------------------------------------------ *)
(** ** Find next in the dialog *)

Section DialogFindNext.
Import Qt UI.








(** X14 on an example: in "a fox, a fox" with the cursor at the start,
    find-next selects (2, 5), then (9, 12), then wraps to (2, 5). *)
Example dialog_find_next_thrice :
  let step ed := fst (dialog_find_next plain_fox_dialog ed None) in
  let start := mkEditor (str "a fox, a fox") (mkCursor 0 0) [] in
  textCursor (step start) = mkCursor 2 5
  /\ textCursor (step (step start)) = mkCursor 9 12
  /\ textCursor (step (step (step start))) = mkCursor 2 5.
Proof. repeat split. Qed.

End DialogFindNext.

(* ------------------------------------------------------------------ *)
(** ** Recent files *)

Section RecentFiles.
Import FileOps.

Lemma eqb_eq (a b : text) : PyStr.eqb a b = true <-> a = b.
Proof.
  unfold PyStr.eqb. destruct (list_eq_dec ascii_dec a b); split; try tauto; discriminate.
Qed.

Lemma list_in_In x l : PyStr.list_in x l = true <-> In x l.
Proof.
  unfold PyStr.list_in. rewrite existsb_exists. split.
  - intros (y & hy & e). apply eqb_eq in e. now subst.
  - intros h. exists x. split; [exact h|now apply eqb_eq].
Qed.

(** In a list without repetition, removing the first occurrence removes
    the path. *)
Lemma list_remove_filter x l :
  NoDup l ->
  (if PyStr.list_in x l then PyStr.list_remove x l else l)
  = filter (fun y => negb (PyStr.eqb x y)) l.
Proof.
  intros nd. induction nd as [|y l nin nd IH]; [reflexivity|].
  unfold PyStr.list_in in *. simpl.
  destruct (PyStr.eqb x y) eqn:e; simpl.
  - apply eqb_eq in e. subst y.
    assert (existsb (PyStr.eqb x) l = false) as absent.
    { destruct (existsb (PyStr.eqb x) l) eqn:ex; [|reflexivity].
      apply (proj1 (list_in_In x l)) in ex. contradiction. }
    rewrite absent in IH. now rewrite <- IH.
  - destruct (existsb (PyStr.eqb x) l); [f_equal; exact IH|f_equal; exact IH].
Qed.

(** X15.  Adding a recent file to a list without repetition: the path
    comes first, the other paths follow in the order they had, the path is
    not repeated, and at most 15 paths are kept.  An empty path changes
    nothing. *)
Theorem add_recent_file_front :
  (forall c file_path,
      file_path <> [] ->
      NoDup (get_recent c) ->
      let recent := get_recent (add_recent_file c file_path) in
      recent = file_path
                 :: firstn 14 (filter (fun p => negb (PyStr.eqb file_path p))
                                      (get_recent c))
      /\ NoDup recent
      /\ length recent <= 15)
  /\ (forall c, add_recent_file c [] = c).
Proof.
  split; [|reflexivity].
  intros c p ne nd recent. subst recent. unfold add_recent_file.
  destruct p as [|a p]; [contradiction|]. cbn [PyStr.truthy negb].
  rewrite (list_remove_filter (a :: p) (get_recent c) nd).
  cbn [get_recent recent_files].
  set (others := filter _ (get_recent c)). rewrite firstn_cons.
  assert (NoDup others) as ndo by (subst others; now apply NoDup_filter).
  assert (~ In (a :: p) others) as fresh.
  { subst others. intros hin. apply filter_In in hin as [_ h].
    apply negb_true_iff in h. assert (PyStr.eqb (a :: p) (a :: p) = true) by now apply eqb_eq.
    congruence. }
  split; [reflexivity|]. split.
  - constructor.
    + intros hin. apply fresh. rewrite <- (firstn_skipn 14 others).
      apply in_or_app. now left.
    + rewrite <- (firstn_skipn 14 others) in ndo. now apply NoDup_app_remove_r in ndo.
  - cbn [length]. rewrite length_firstn. lia.
Qed.

Lemma add_recent_file_front_witness :
  get_recent (add_recent_file (mkConfig (Some [str "a.txt"; str "b.txt"])) (str "b.txt"))
  = str "b.txt"
      :: firstn 14 (filter (fun p => negb (PyStr.eqb (str "b.txt") p))
                           [str "a.txt"; str "b.txt"])
  /\ NoDup (get_recent (add_recent_file (mkConfig (Some [str "a.txt"; str "b.txt"]))
                                        (str "b.txt")))
  /\ length (get_recent (add_recent_file (mkConfig (Some [str "a.txt"; str "b.txt"]))
                                         (str "b.txt"))) <= 15.
Proof.
  apply (proj1 add_recent_file_front (mkConfig (Some [str "a.txt"; str "b.txt"]))
               (str "b.txt")).
  - simpl. discriminate.
  - simpl. repeat constructor; simpl; intuition discriminate.
Defined.

Lemma filter_same_length {A : Type} (f : A -> bool) (l : list A) :
  length (filter f l) = length l -> filter f l = l.
Proof.
  induction l as [|x l IH]; simpl; [reflexivity|].
  destruct (f x); simpl; intros h.
  - f_equal. apply IH. lia.
  - pose proof (filter_length_le f l). lia.
Qed.

(** X16.  The recent files that still exist: the list returned holds the
    recorded paths that exist, in their order, and is from then on what the
    configuration records, so that asking again returns the same list and
    changes nothing; a file that exists and has just been added comes
    first. *)
Theorem get_recent_files_existing :
  forall path_exists c,
    let c' := fst (get_recent_files path_exists c) in
    let existing := snd (get_recent_files path_exists c) in
    existing = filter path_exists (get_recent c)
    /\ get_recent c' = existing
    /\ get_recent_files path_exists c' = (c', existing)
    /\ (forall file_path,
           file_path <> [] -> path_exists file_path = true ->
           hd_error (snd (get_recent_files path_exists (add_recent_file c file_path)))
           = Some file_path).
Proof.
  intros ex c c' existing. subst c' existing. unfold get_recent_files.
  destruct (Nat.eqb_spec (length (filter ex (get_recent c))) (length (get_recent c)))
    as [same|differ]; cbn [negb fst snd].
  - pose proof (filter_same_length _ _ same) as e.
    split; [reflexivity|]. split; [now rewrite e|]. split.
    + rewrite same, Nat.eqb_refl. reflexivity.
    + intros p ne hex. unfold add_recent_file.
      destruct p as [|a p]; [contradiction|]. cbn [PyStr.truthy negb get_recent recent_files].
      destruct (negb _); cbn [snd firstn filter]; rewrite hex; reflexivity.
  - split; [reflexivity|]. split; [reflexivity|]. split.
    + cbn [get_recent recent_files].
      assert (filter ex (filter ex (get_recent c)) = filter ex (get_recent c)) as idem.
      { apply filter_same_length. clear differ.
        induction (get_recent c) as [|x l IH]; simpl; [reflexivity|].
        destruct (ex x) eqn:hx; simpl; [rewrite hx; simpl; now rewrite IH|exact IH]. }
      rewrite idem, Nat.eqb_refl. reflexivity.
    + intros p ne hex. unfold add_recent_file.
      destruct p as [|a p]; [contradiction|]. cbn [PyStr.truthy negb get_recent recent_files].
      destruct (negb _); cbn [snd firstn filter]; rewrite hex; reflexivity.
Qed.

End RecentFiles.

(* ------------------------------------------------------------------ *)
(** ** Names and paths shown *)

Section ShownNames.

(** The last piece of [s.split(sep)]: what follows the last [sep]. *)
Lemma split_on_last sep s :
  exists w ws,
    PyStr.split_on sep s = w :: ws
    /\ ~ In sep (last (w :: ws) [])
    /\ ((ws = [] /\ s = w)
        \/ (ws <> [] /\ exists pre, s = pre ++ [sep] ++ last (w :: ws) [])).
Proof.
  induction s as [|c s (w & ws & hs & clean & shape)].
  - exists [], []. simpl. split; [reflexivity|]. split; [tauto|]. now left.
  - simpl. rewrite hs. destruct (Ascii.eqb_spec c sep) as [->|ne].
    + exists [], (w :: ws). split; [reflexivity|].
      change (last ([] :: w :: ws) []) with (last (w :: ws) ([] : text)).
      split; [exact clean|]. right. split; [discriminate|].
      destruct shape as [[-> ->]|[_ [pre ->]]].
      * exists []. reflexivity.
      * exists (sep :: pre). reflexivity.
    + exists (c :: w), ws. split; [reflexivity|].
      destruct shape as [[-> ->]|[nonempty [pre ->]]].
      * simpl in clean |- *. split; [intros [e|h]; [congruence|contradiction]|].
        left. split; reflexivity.
      * destruct ws as [|w' ws]; [contradiction|].
        change (last ((c :: w) :: w' :: ws) []) with (last (w' :: ws) ([] : text)).
        change (last (w :: w' :: ws) []) with (last (w' :: ws) ([] : text)) in *.
        split; [exact clean|]. right. split; [discriminate|].
        exists (c :: pre). reflexivity.
Qed.

Lemma after_last_separator sep s :
  exists pre,
    s = pre ++ last (PyStr.split_on sep s) []
    /\ ~ In sep (last (PyStr.split_on sep s) [])
    /\ (pre = [] \/ exists q, pre = q ++ [sep]).
Proof.
  destruct (split_on_last sep s) as (w & ws & -> & clean & [[-> ->]|[_ [pre ->]]]).
  - exists []. simpl. auto.
  - exists (pre ++ [sep]). rewrite <- app_assoc. split; [reflexivity|].
    split; [exact clean|]. right. now exists pre.
Qed.

(** X17.  The name of a tab.  A custom name, when there is one, is the
    name.  Otherwise the name of a tab with a file is what follows the last
    separator, slash or backslash, of its path: the path ends with the name,
    the name holds no separator, and what comes before it is empty or ends
    with a separator.  A tab with neither is "Untitled". *)
Theorem get_display_name_is_last_component :
  (forall name file_path,
      name <> [] -> Tab.get_display_name (Some name) file_path = name)
  /\ (forall custom path,
         custom = None \/ custom = Some [] ->
         path <> [] ->
         exists before_name,
           path = before_name ++ Tab.get_display_name custom (Some path)
           /\ (forall c, In c (Tab.get_display_name custom (Some path)) ->
                         ~ is_separator c)
           /\ (before_name = []
               \/ exists q c, before_name = q ++ [c] /\ is_separator c))
  /\ (forall custom file_path,
         custom = None \/ custom = Some [] ->
         file_path = None \/ file_path = Some [] ->
         Tab.get_display_name custom file_path = str "Untitled").
Proof.
  split; [|split].
  - intros [|c name] fp ne; [contradiction|reflexivity].
  - intros custom path hc ne.
    assert (Tab.get_display_name custom (Some path)
            = last (PyStr.split_on "\"%char
                      (last (PyStr.split_on "/"%char path) [])) []) as ->.
    { destruct path; [contradiction|]. destruct hc as [->| ->]; reflexivity. }
    destruct (after_last_separator "/"%char path) as (pre1 & e1 & clean1 & end1).
    set (l1 := last (PyStr.split_on "/"%char path) []) in *.
    destruct (after_last_separator "\"%char l1) as (pre2 & e2 & clean2 & end2).
    set (l2 := last (PyStr.split_on "\"%char l1) []) in *.
    exists (pre1 ++ pre2). split; [rewrite <- app_assoc, <- e2; exact e1|]. split.
    + intros c hin [->| ->]; [|contradiction].
      apply clean1. rewrite e2. apply in_or_app. now right.
    + destruct end2 as [->|[q ->]].
      * rewrite app_nil_r. destruct end1 as [->|[q ->]]; [now left|right].
        exists q, "/"%char. split; [reflexivity|now left].
      * right. exists (pre1 ++ q), "\"%char. rewrite app_assoc.
        split; [reflexivity|now right].
  - intros custom fp [->| ->] [->| ->]; reflexivity.
Qed.

Lemma get_display_name_is_last_component_witness :
  Tab.get_display_name (Some (str "notes")) (Some (str "/home/u/a.txt")) = str "notes".
Proof.
  apply (proj1 get_display_name_is_last_component (str "notes") (Some (str "/home/u/a.txt"))).
  simpl. discriminate.
Defined.

(** X18.  The file-path label of the status bar never takes more than
    60 characters: without a path, or with an empty one, it reads "Unsaved";
    a path of at most 60 characters is shown as it is, a longer one as three
    dots and its last 57 characters. *)
Theorem status_file_path_bounded :
  forall file_path : option text,
    length (UI.status_file_path file_path) <= 60
    /\ (file_path = None \/ file_path = Some [] ->
        UI.status_file_path file_path = str "Unsaved")
    /\ (forall path,
           file_path = Some path -> path <> [] -> length path <= 60 ->
           UI.status_file_path file_path = path)
    /\ (forall path,
           file_path = Some path -> 60 < length path ->
           exists cut tail,
             path = cut ++ tail
             /\ length tail = 57
             /\ UI.status_file_path file_path = str "..." ++ tail).
Proof.
  intros [[|c p]|]; cbn [UI.status_file_path].
  - split; [simpl; lia|]. split; [reflexivity|].
    split; [intros path [= <-] ne; contradiction|].
    intros path [= <-] long. simpl in long. lia.
  - set (path := c :: p). unfold PyStr.slice_last.
    destruct (Nat.ltb_spec 60 (length path)) as [long|short].
    + split; [rewrite length_app, length_skipn; simpl (length (str "...")); lia|].
      split; [intros [h|h]; discriminate h|].
      split; [intros q [= <-] _ le; lia|].
      intros q [= <-] _.
      exists (firstn (length path - 57) path), (skipn (length path - 57) path).
      split; [now rewrite firstn_skipn|].
      split; [rewrite length_skipn; lia|reflexivity].
    + split; [exact short|]. split; [intros [h|h]; discriminate h|].
      split; [intros q [= <-] _ _; reflexivity|].
      intros q [= <-] long. lia.
  - split; [simpl; lia|]. split; [reflexivity|].
    split; intros path h; discriminate h.
Qed.

End ShownNames.

(* ------------------------------------------------------------------ *)
(** ** What the highlights cover *)

Section HighlightsCover.
Import Qt UI.

(** The hits of the loop of [perform_find] are occurrences of the term,
    and every occurrence at or after the start of the scan begins inside
    one of them. *)
Lemma perform_find_loop_covers doc term cs :
  usable term = true ->
  forall fuel cursor matches selections out,
    perform_find_loop fuel doc term (mkFlags cs false) cursor matches selections
    = Done out ->
    exists hits,
      out = (matches ++ map selectionStart hits, selections ++ hits)
      /\ Forall (fun c => span c = (anchor c, anchor c + length term)
                          /\ starts_with cs term (skipn (anchor c) doc) = true) hits
      /\ forall j, selectionEnd cursor <= j ->
                   starts_with cs term (skipn j doc) = true ->
                   exists c, In c hits /\ selectionStart c <= j < selectionEnd c.
Proof.
  intros us. pose proof (usable_length _ us) as tpos.
  induction fuel as [|fuel IH]; intros cursor matches selections out; simpl;
    [discriminate|].
  unfold find. rewrite find_at_plain by exact us.
  destruct (indexOf cs term doc (selectionEnd cursor)) as [idx|] eqn:hi; cbn [option_map].
  - intros run. apply IH in run as (hits & -> & occ & cover).
    pose proof (indexOf_bounds _ _ _ _ _ hi) as [lo _].
    apply indexOf_hit in hi as [sw first].
    exists (mkCursor idx (idx + length term) :: hits).
    rewrite selectionEnd_ordered in cover by lia.
    split; [cbn [map]; now rewrite <- !app_assoc|]. split.
    + constructor; [|exact occ]. unfold span.
      rewrite selectionStart_ordered, selectionEnd_ordered by lia.
      split; [reflexivity|exact sw].
    + intros j ge swj.
      destruct (Nat.lt_ge_cases j idx) as [early|late].
      { rewrite first in swj by lia. discriminate. }
      destruct (Nat.lt_ge_cases j (idx + length term)) as [inside|after].
      * exists (mkCursor idx (idx + length term)). split; [now left|].
        rewrite selectionStart_ordered, selectionEnd_ordered by lia. lia.
      * destruct (cover j after swj) as (c & hin & rng).
        exists c. split; [now right|exact rng].
  - intros [= <-]. exists []. simpl. rewrite !app_nil_r.
    split; [reflexivity|]. split; [constructor|].
    intros j ge swj. exfalso.
    unfold indexOf in hi.
    destruct (Nat.leb_spec (selectionEnd cursor) (length doc)) as [le|gt].
    + pose proof (index_from_miss _ _ _ _ hi (j - selectionEnd cursor)) as miss.
      rewrite skipn_skipn in miss.
      replace (j - selectionEnd cursor + selectionEnd cursor) with j in miss by lia.
      congruence.
    + apply starts_with_length in swj. rewrite length_skipn in swj. lia.
Qed.

(** The highlights that [perform_find] sets are the selections of its
    loop. *)
Lemma perform_find_highlights w editor ms sels :
  current_editor w = Some editor ->
  PyStr.strip (find_input w) <> [] ->
  perform_find_loop (S (length (document editor))) (document editor)
                    (PyStr.strip (find_input w))
                    (mkFlags (find_case_sensitive w) false)
                    (setPosition (document editor) 0 (mkCursor 0 0)) [] []
  = Done (ms, sels) ->
  exists w', perform_find w = Done w'
             /\ window_highlights w' = Some (map span sels)
             /\ find_matches w' = ms.
Proof.
  intros hed ne run. unfold perform_find. rewrite hed.
  destruct (PyStr.strip (find_input w)) as [|t term]; [contradiction|].
  cbn [PyStr.truthy negb]. rewrite run. cbn [bind].
  cbn [find_matches set_editor set_find_state].
  destruct ms as [|m ms].
  - eexists. split; [reflexivity|]. split; reflexivity.
  - unfold jump_to_match. cbn [current_editor find_matches set_find_state set_editor].
    change (py_index (m :: ms) 0%Z) with (Done m). cbn [bind].
    eexists. split; [reflexivity|]. split; reflexivity.
Qed.

(** X19.  Highlight-all misses nothing it could show.  In a document
    without U+00A0, for a find field whose stripped text is not empty and
    holds no line break: every highlight has the length of the term and
    stands where the document reads the term (up to case when the case
    option is off), and every place where the document reads the term begins
    inside a highlight, so that a reading without a highlight of its own
    overlaps a highlighted one. *)
Theorem highlights_cover_occurrences :
  forall w editor,
    current_editor w = Some editor ->
    let term := PyStr.strip (find_input w) in
    let cs := find_case_sensitive w in
    let doc := document editor in
    term <> [] ->
    one_line term ->
    ~ In Chars.nbsp doc ->
    exists w' spans,
      perform_find w = Done w'
      /\ window_highlights w' = Some spans
      /\ Forall (fun sp => snd sp = fst sp + length term
                           /\ reads_at cs term doc (fst sp)) spans
      /\ forall j, reads_at cs term doc j ->
                   exists sp, In sp spans /\ fst sp <= j < snd sp.
Proof.
  intros w editor hed term cs doc ne ol nn.
  assert (usable term = true) as us by (apply usable_one_line; now split).
  destruct (perform_find_loop_chain doc term (mkFlags cs false) (S (length doc))
              (setPosition doc 0 (mkCursor 0 0)) [] []) as (hits0 & run & _); try lia.
  destruct (perform_find_loop_covers doc term cs us _ _ _ _ _ run)
    as (hits & e & occ & cover).
  cbn [app] in e. injection e as _ ->.
  destruct (perform_find_highlights w editor _ _ hed ne run) as (w' & done & hl & _).
  exists w', (map span hits). split; [exact done|]. split; [exact hl|]. split.
  - apply Forall_map. eapply Forall_impl; [|exact occ]. cbn beta.
    intros c [-> sw]. cbn [fst snd]. split; [reflexivity|].
    now apply found_reads.
  - intros j here. apply found_reads in here; [|exact nn].
    destruct (cover j) as (c & hin & rng); [|exact here|].
    + assert (selectionEnd (setPosition doc 0 (mkCursor 0 0)) = 0) as z
          by (unfold setPosition; destruct (0 <=? length doc); reflexivity).
      rewrite z. lia.
    + exists (span c). split; [now apply in_map|exact rng].
Qed.

Lemma highlights_cover_occurrences_witness :
  exists w' spans,
    perform_find (fresh_window (str "aaa") (str "aa") true) = Done w'
    /\ window_highlights w' = Some spans
    /\ Forall (fun sp => snd sp = fst sp + 2
                         /\ reads_at true (str "aa") (str "aaa") (fst sp)) spans
    /\ forall j, reads_at true (str "aa") (str "aaa") j ->
                 exists sp, In sp spans /\ fst sp <= j < snd sp.
Proof.
  apply (highlights_cover_occurrences (fresh_window (str "aaa") (str "aa") true)
                                      (fresh_editor (str "aaa"))).
  - reflexivity.
  - discriminate.
  - repeat constructor.
  - simpl. intuition discriminate.
Defined.

(** X19 on the example of the U+00A0: the toolkit takes it for a space,
    so a highlight need not stand where the document reads the term. *)
Example highlight_over_no_break_space :
  map_outcome window_highlights
    (perform_find (fresh_window (str "a" ++ [Chars.nbsp] ++ str "b") (str "a b") true))
  = Done (Some [(0, 3)])
  /\ map_outcome window_highlights
       (perform_find (fresh_window (str "a" ++ [Chars.nbsp] ++ str "b")
                                   (str "a" ++ [Chars.nbsp] ++ str "b") true))
     = Done (Some []).
Proof. split; reflexivity. Qed.

End HighlightsCover.
